(** * The template module of Apostrophe: rendering helpers, caches,
      insertions and the virtual-node renderer.

    A shallow embedding of [@apostrophecms/template] (its [index.js]):
    the view-folder search order, the loader and environment caches,
    the merge that builds the template's [data] object, the script-safe
    JSON helper, the refresh-flag stripping of the page URL, the
    insertion registry with its conditions, and [renderNodes].

    JavaScript strings are sequences of UTF-16 code units; objects whose
    identity or mutation matters live in an explicit store. *)

From Stdlib Require Import List NArith Bool Ascii String Lia.
From stdpp Require Import base option list gmap pretty.

Local Open Scope N_scope.
Local Open Scope list_scope.

Set Warnings "-register-all".

(** ** JavaScript strings *)

(** A string is the list of its UTF-16 code units. *)
Abbreviation code_unit := N (only parsing).
Definition jsstring := list code_unit.

(** ASCII literals of the source, as code units. *)
Definition str (s : string) : jsstring :=
  map N_of_ascii (list_ascii_of_string s).
Arguments str : simpl never.

(** The double quote character, U+0022. *)
Definition dquote : code_unit := 34.

Definition jsstring_eqb (a b : jsstring) : bool :=
  bool_decide (a = b).

(** Truthiness of a string: only the empty string is falsy. *)
Definition truthy_string (s : jsstring) : bool :=
  match s with [] => false | _ => true end.

(** [Array.prototype.join] on strings. *)
Fixpoint join (sep : jsstring) (parts : list jsstring) : jsstring :=
  match parts with
  | [] => []
  | [p] => p
  | p :: rest => p ++ sep ++ join sep rest
  end.

(** *** Matching a literal pattern

    [canon] is the canonicalisation applied to both sides before two
    code units are compared: the identity for a plain string search or
    a regular expression without the [i] flag, [canonicalize_ascii] for
    a regular expression with the [i] flag. *)

(** Canonicalize of a regular expression with the [i] flag and without
    the [u] flag maps a code unit to its upper case, except that a code
    unit of 128 or more is never mapped below 128.  Against the ASCII
    patterns of this module that is ASCII case folding: no code unit
    outside ASCII ever matches an ASCII pattern character. *)
Definition canonicalize_ascii (c : code_unit) : code_unit :=
  if (97 <=? c) && (c <=? 122) then c - 32 else c.

Definition char_match (canon : code_unit -> code_unit) (p c : code_unit) : bool :=
  canon p =? canon c.

(** Does [s] start with a match of the literal pattern [pat]? *)
Fixpoint matches (canon : code_unit -> code_unit) (pat s : jsstring) : bool :=
  match pat, s with
  | [], _ => true
  | _ :: _, [] => false
  | p :: pat', c :: s' => char_match canon p c && matches canon pat' s'
  end.

(** Is there a match of [pat] somewhere in [s]? *)
Fixpoint occurs (canon : code_unit -> code_unit) (pat s : jsstring) : bool :=
  matches canon pat s ||
  match s with
  | [] => false
  | _ :: s' => occurs canon pat s'
  end.

(** [String.prototype.includes] and [endsWith]. *)
Definition includes (s pat : jsstring) : bool := occurs id pat s.
Definition endsWith (s pat : jsstring) : bool :=
  matches id (reverse pat) (reverse s).

(** [s.replace(pat, rep)] with a string pattern: the first occurrence
    only.  The replacement texts of this module contain no [$]. *)
Fixpoint replace (pat rep s : jsstring) : jsstring :=
  if matches id pat s then rep ++ drop (length pat) s
  else match s with
       | [] => []
       | c :: s' => c :: replace pat rep s'
       end.

(** [s.replace(/pat/g, rep)] for a non-empty literal pattern: matches
    are taken from left to right and do not overlap.  [skip] counts the
    code units of the current match that are still to be consumed. *)
Fixpoint replace_global_from (canon : code_unit -> code_unit)
    (pat rep : jsstring) (skip : nat) (s : jsstring) : jsstring :=
  match s with
  | [] => []
  | c :: s' =>
      match skip with
      | S k => replace_global_from canon pat rep k s'
      | O =>
          if matches canon pat s
          then rep ++ replace_global_from canon pat rep (length pat - 1) s'
          else c :: replace_global_from canon pat rep 0 s'
      end
  end.

Definition replace_global (canon : code_unit -> code_unit)
    (pat rep s : jsstring) : jsstring :=
  replace_global_from canon pat rep 0 s.

(** *** Trimming *)

(** WhiteSpace and LineTerminator code points, the ones [trim] strips. *)
Definition is_whitespace (c : code_unit) : bool :=
  ((9 <=? c) && (c <=? 13)) || (c =? 32) || (c =? 160) || (c =? 5760)
  || ((8192 <=? c) && (c <=? 8202)) || (c =? 8232) || (c =? 8233)
  || (c =? 8239) || (c =? 8287) || (c =? 12288) || (c =? 65279).

Fixpoint trimStart (s : jsstring) : jsstring :=
  match s with
  | [] => []
  | c :: s' => if is_whitespace c then trimStart s' else s
  end.

Definition trimEnd (s : jsstring) : jsstring :=
  reverse (trimStart (reverse s)).

Definition trim (s : jsstring) : jsstring := trimEnd (trimStart s).

(** *** Splitting *)

(** [s.split(sep)] for a one-character separator: the segments between
    the separators, never an empty array. *)
Fixpoint js_split (sep : code_unit) (s : jsstring) : list jsstring :=
  match s with
  | [] => [[]]
  | c :: s' =>
      if c =? sep then [] :: js_split sep s'
      else match js_split sep s' with
           | [] => [[c]]
           | seg :: segs => (c :: seg) :: segs
           end
  end.

(** *** JSON string quoting *)

Definition hex_digit (d : N) : code_unit :=
  if d <? 10 then 48 + d else 87 + d.

(** UnicodeEscape: a backslash, [u] and four lower-case hex digits. *)
Definition unicode_escape (c : code_unit) : jsstring :=
  [92; 117; hex_digit (c / 4096 mod 16); hex_digit (c / 256 mod 16);
   hex_digit (c / 16 mod 16); hex_digit (c mod 16)].

Definition is_leading_surrogate (c : code_unit) : bool :=
  (55296 <=? c) && (c <=? 56319).
Definition is_trailing_surrogate (c : code_unit) : bool :=
  (56320 <=? c) && (c <=? 57343).

(** The escape of one code unit that is not a surrogate. *)
Definition json_escape_unit (c : code_unit) : jsstring :=
  if c =? 8 then [92; 98]
  else if c =? 9 then [92; 116]
  else if c =? 10 then [92; 110]
  else if c =? 12 then [92; 102]
  else if c =? 13 then [92; 114]
  else if c =? 34 then [92; 34]
  else if c =? 92 then [92; 92]
  else if c <? 32 then unicode_escape c
  else [c].

(** The body of QuoteJSONString: a surrogate pair is kept, a lone
    surrogate is escaped. *)
Fixpoint quote_units (s : jsstring) : jsstring :=
  match s with
  | [] => []
  | c :: s' =>
      if is_leading_surrogate c then
        match s' with
        | d :: s'' =>
            if is_trailing_surrogate d then c :: d :: quote_units s''
            else unicode_escape c ++ quote_units s'
        | [] => unicode_escape c
        end
      else if is_trailing_surrogate c then unicode_escape c ++ quote_units s'
      else json_escape_unit c ++ quote_units s'
  end.

Definition QuoteJSONString (s : jsstring) : jsstring :=
  dquote :: quote_units s ++ [dquote].

(** The key under which a property is stored: the string itself, or the
    text [undefined] when the key expression evaluated to undefined. *)
Definition property_key (k : option jsstring) : jsstring :=
  match k with
  | Some s => s
  | None => str "undefined"
  end.

(** The decimal text of an array index. *)
Definition index_key (i : nat) : jsstring := str (pretty i).

(** ** Completions *)

Inductive exn :=
| TypeError (message : string)
| Error (message : string).

(** The outcome of a call that may throw. *)
Inductive completion (A : Type) :=
| Normal (a : A)
| Throw (e : exn).
Arguments Normal {A} a.
Arguments Throw {A} e.

#[global] Instance completion_ret : MRet completion := fun A a => Normal a.

#[global] Instance completion_bind : MBind completion :=
  fun A B k c =>
    match c with
    | Normal a => k a
    | Throw e => Throw e
    end.

(** ** Collaborators used in the examples *)

(** A world without numbers, for examples that hold none. *)
Definition no_numbers : Type := Empty_set.

Definition no_numbers_text (n : no_numbers) : jsstring :=
  match n with end.
Definition no_numbers_bool (n : no_numbers) : bool :=
  match n with end.

(** The names of the members of [Object.prototype], which an object
    written as a literal inherits. *)
Definition object_prototype_members : list string :=
  ["constructor"; "__defineGetter__"; "__defineSetter__"; "hasOwnProperty";
   "__lookupGetter__"; "__lookupSetter__"; "isPrototypeOf";
   "propertyIsEnumerable"; "toString"; "valueOf"; "__proto__";
   "toLocaleString"]%string.

Definition in_object_prototype (k : jsstring) : bool :=
  existsb (fun m => jsstring_eqb k (str m)) object_prototype_members.

(** The table of the [void-elements] package, an object literal. *)
Definition void_elements : list string :=
  ["area"; "base"; "br"; "col"; "embed"; "hr"; "img"; "input"; "link";
   "meta"; "param"; "source"; "track"; "wbr"]%string.

(** Whether [voidElements[name]] is truthy: for a name of the table,
    and for a member the table inherits. *)
Definition is_void_element (name : jsstring) : bool :=
  existsb (fun e => jsstring_eqb name (str e)) void_elements
  || in_object_prototype name.

(** [path.join] on two segments that need no normalisation. *)
Definition join_segments (a b : jsstring) : jsstring := a ++ str "/" ++ b.

(** The template engine keeps the options of an environment in its
    property [opts]: a cache has the path made of the name of a cached
    environment, a dot and [opts].  The examples ask about no other
    path. *)
Definition has_opts_path {A : Type} (cached : gmap jsstring A) (name : jsstring)
  : bool :=
  match js_split 46 name with
  | [first; second] =>
      bool_decide (is_Some (cached !! first)) && jsstring_eqb second (str "opts")
  | _ => false
  end.

(** ** The module, over its collaborators *)

Section Template.

(** Numbers: their type, [Number::toString], ToBoolean and finiteness
    are left open; no function of this module computes with numbers. *)
Variable number : Type.
Variable Number_toString : number -> jsstring.
Variable Number_toBoolean : number -> bool.
Variable Number_isFinite : number -> bool.

(** Plain data: what a template, a request or a module option can hold.
    The properties of an object are listed in enumeration order. *)
Inductive value :=
| VUndefined
| VNull
| VBool (b : bool)
| VNum (n : number)
| VStr (s : jsstring)
| VFun (source : jsstring)
| VArr (elems : list value)
| VObj (props : list (jsstring * value)).

(** ToBoolean. *)
Definition truthy (v : value) : bool :=
  match v with
  | VUndefined | VNull => false
  | VBool b => b
  | VNum n => Number_toBoolean n
  | VStr s => truthy_string s
  | VFun _ | VArr _ | VObj _ => true
  end.

(** [a || b] and [a && b]. *)
Definition js_or (a b : value) : value := if truthy a then a else b.
Definition js_and (a b : value) : value := if truthy a then b else a.

(** [v == null]. *)
Definition nullish (v : value) : bool :=
  match v with
  | VUndefined | VNull => true
  | _ => false
  end.

(** ToString, which is also what [v.toString()] returns for a value
    that is not nullish; an array joins its elements with a comma, a
    nullish element giving the empty string. *)
Fixpoint ToString (v : value) : jsstring :=
  match v with
  | VUndefined => str "undefined"
  | VNull => str "null"
  | VBool true => str "true"
  | VBool false => str "false"
  | VNum n => Number_toString n
  | VStr s => s
  | VFun source => source
  | VArr elems =>
      join [44] (map (fun e => match e with
                               | VUndefined | VNull => []
                               | _ => ToString e
                               end) elems)
  | VObj _ => str "[object Object]"
  end.

(** [JSON.stringify(v)]: [None] is the result [undefined].  Values
    carry no [toJSON] and are finite trees. *)
Fixpoint JSON_stringify (v : value) : option jsstring :=
  match v with
  | VUndefined | VFun _ => None
  | VNull => Some (str "null")
  | VBool true => Some (str "true")
  | VBool false => Some (str "false")
  | VNum n => Some (if Number_isFinite n then Number_toString n else str "null")
  | VStr s => Some (QuoteJSONString s)
  | VArr elems =>
      Some ([91] ++ join [44] (map (fun e => default (str "null") (JSON_stringify e)) elems)
                 ++ [93])
  | VObj props =>
      Some ([123] ++ join [44]
                       (flat_map (fun p => match JSON_stringify (snd p) with
                                           | Some j => [QuoteJSONString (fst p) ++ [58] ++ j]
                                           | None => []
                                           end) props)
                  ++ [125])
  end.

(** [o[k]] on a value: an own property of an object, undefined when
    there is none.  Only keys that no prototype defines are read. *)
Fixpoint get_prop (props : list (jsstring * value)) (k : jsstring) : value :=
  match props with
  | [] => VUndefined
  | (k', v) :: rest => if jsstring_eqb k' k then v else get_prop rest k
  end.

Definition get (o : value) (k : jsstring) : value :=
  match o with
  | VObj props => get_prop props k
  | _ => VUndefined
  end.

(** The enumerable string-keyed properties of a value, as [for ... in]
    and [Object.entries] list them: the properties of an object, the
    indexed elements of an array, the indexed characters of a string. *)
Definition entries (v : value) : list (jsstring * value) :=
  match v with
  | VObj props => props
  | VArr elems => imap (fun i e => (index_key i, e)) elems
  | VStr s => imap (fun i c => (index_key i, VStr [c])) s
  | _ => []
  end.

(** Modelled from the spec: [apos.util.escapeHtml], whose module is not
    among the sources; it HTML-escapes the text of its argument.  It
    stands for the collaborator in the examples only. *)
Definition escapeHtml_text (v : value) : jsstring :=
  let s := ToString v in
  let s := replace_global id (str "&") (str "&amp;") s in
  let s := replace_global id (str "<") (str "&lt;") s in
  let s := replace_global id (str ">") (str "&gt;") s in
  replace_global id [dquote] (str "&quot;") s.

(** [apos.util.escapeHtml], of the util module. *)
Variable escapeHtml : value -> jsstring.

(** [path.join] of Node. *)
Variable path_join : jsstring -> jsstring -> jsstring.

(** Whether [voidElements[name]] is truthy, for the table of the
    [void-elements] package. *)
Variable voidElements : jsstring -> bool.

(** *** Safe strings *)

(** What a template helper receives or returns: an instance of the
    engine's [SafeString], or any other value. *)
Inductive template_value :=
| SafeString (val : jsstring)
| Plain (v : value).

Definition safe (s : jsstring) : template_value := SafeString s.

Definition escapeIfNeeded (s : template_value) : template_value :=
  match s with
  | SafeString _ => s
  | Plain v =>
      safe (escapeHtml (VStr (if nullish v then [] else ToString v)))
  end.

(** *** JSON for a script element *)

Definition jsonForHtml (data : value) : completion jsstring :=
  match data with
  | VUndefined => Normal (str "null")
  | _ =>
      match JSON_stringify data with
      | None => Throw (TypeError "Cannot read properties of undefined (reading 'replace')")
      | Some data =>
          let data := replace_global id (str "<!--") (str "<\!--") data in
          let data := replace_global canonicalize_ascii (str "</script>") (str "<\/script>") data in
          let data := replace_global id [8232] (92 :: str "u2028") data in
          let data := replace_global id [8233] (92 :: str "u2029") data in
          Normal data
      end
  end.

(** *** The data object of a template *)

Record request := {
  req_data : value;
  req_user : value;
  req_locale : value
}.

Record chain_entry := { dirname : jsstring }.

Record module_meta := {
  name : jsstring;
  chain : list chain_entry
}.

Record apos_module := {
  meta : module_meta;
  templateData : value
}.

(** [_.defaults(object, source)]: every enumerable property of [source]
    is copied where [object] resolves the key to undefined.  The key
    [__proto__] resolves to the prototype and is never copied. *)
Definition defaults_step (object : gmap jsstring value) (p : jsstring * value)
  : gmap jsstring value :=
  if jsstring_eqb (fst p) (str "__proto__") then object
  else match object !! fst p with
       | None | Some VUndefined => <[fst p := snd p]> object
       | Some _ => object
       end.

Definition defaults (object : gmap jsstring value) (source : value)
  : gmap jsstring value :=
  fold_left defaults_step (entries source) object.

(** [merged[k]] for a key that no prototype defines. *)
Definition read (merged : gmap jsstring value) (k : jsstring) : value :=
  default VUndefined (merged !! k).

Definition getRenderDataArgs (req : request) (data : value) (module : apos_module)
  : gmap jsstring value :=
  let merged : gmap jsstring value := ∅ in
  let merged := if truthy data then defaults merged data else merged in
  let merged := if truthy (req_data req) then defaults merged (req_data req) else merged in
  let merged :=
    defaults merged
      (VObj [ (str "user", req_user req);
              (str "permissions",
               js_or (js_and (req_user req) (get (req_user req) (str "_permissions")))
                     (VObj [])) ]) in
  let merged :=
    if truthy (templateData module) then defaults merged (templateData module)
    else merged in
  <[str "locale" := js_or (read merged (str "locale")) (req_locale req)]> merged.

(** *** View folders *)

Record options := { viewsFolderFallback : option jsstring }.

Definition getViewFolders (opts : options) (rootDir : jsstring) (module : apos_module)
  : list jsstring :=
  let dirs := map (fun entry => dirname entry ++ str "/views") (chain (meta module)) in
  let dirs := reverse dirs in
  let viewsFolderFallback :=
    match viewsFolderFallback opts with
    | Some folder => if truthy_string folder then folder
                     else path_join rootDir (str "views")
    | None => path_join rootDir (str "views")
    end in
  dirs ++ [viewsFolderFallback].

(** *** Loaders and environments *)

(** A loader instance: its identity and the arguments it was built
    with. *)
Record loader := {
  loader_id : nat;
  loader_moduleName : jsstring;
  loader_dirs : list jsstring
}.

(** An environment instance: its identity, its loader and the module
    whose helpers it has as the global [module]. *)
Record environment := {
  env_id : nat;
  env_loader : loader;
  env_module : jsstring
}.

(** [self.envs], [self.loaders] (absent until the first loader is made)
    and the number of objects created so far, which names the next. *)
Record caches := {
  envs : gmap jsstring environment;
  loaders : option (gmap jsstring loader);
  allocated : nat
}.

Definition init : caches :=
  {| envs := ∅; loaders := None; allocated := 0 |}.

(** [new NunjucksLoader(moduleName, dirs, ...)]: a new instance. *)
Definition newLoader (self : caches) (moduleName : jsstring) (dirs : list jsstring)
  : loader * caches :=
  ({| loader_id := allocated self; loader_moduleName := moduleName; loader_dirs := dirs |},
   {| envs := envs self; loaders := loaders self; allocated := S (allocated self) |}).

(** [JSON.stringify({ moduleName, dirs })], the key of the loader cache.
    It starts with a brace, so it names no member of a prototype. *)
Definition loader_key (moduleName : jsstring) (dirs : list jsstring) : jsstring :=
  property_key
    (JSON_stringify (VObj [ (str "moduleName", VStr moduleName);
                            (str "dirs", VArr (map VStr dirs)) ])).

(** [self.loaders] is created on first use; a cached loader is an
    object, hence truthy. *)
Definition getLoader (self : caches) (moduleName : jsstring) (dirs : list jsstring)
  : loader * caches :=
  let key := loader_key moduleName dirs in
  let table := default ∅ (loaders self) in
  match table !! key with
  | Some cached =>
      (cached, {| envs := envs self; loaders := Some table; allocated := allocated self |})
  | None =>
      let '(made, self) := newLoader self moduleName dirs in
      (made, {| envs := envs self; loaders := Some (<[key := made]> table);
                allocated := allocated self |})
  end.

(** A new environment on the loader of [getLoader].  The globals,
    filters and custom tags installed in it are not recorded, and the
    [req] argument, kept for compatibility only, is left out. *)
Definition newEnv (self : caches) (moduleName : jsstring) (dirs : list jsstring)
  : environment * caches :=
  let '(loader, self) := getLoader self moduleName dirs in
  ({| env_id := allocated self; env_loader := loader; env_module := moduleName |},
   {| envs := envs self; loaders := loaders self; allocated := S (allocated self) |}).

(** Whether [s] goes on without a bracket up to a closing bracket. *)
Fixpoint closes_bracket (s : jsstring) : bool :=
  match s with
  | [] => false
  | c :: s' =>
      if c =? 93 then true else if c =? 91 then false else closes_bracket s'
  end.

(** Whether the pattern by which lodash tells a property path from a
    key matches in [name]: a dot, or a bracketed part, that is an
    opening bracket, code units other than brackets, and a closing
    bracket.  The pattern has a second form of a bracketed part, a
    quoted string between the brackets; where that one matches, an
    opening bracket comes before a closing one, and then a part of the
    first form is found as well, see [is_deep_spec]. *)
Fixpoint is_deep (name : jsstring) : bool :=
  match name with
  | [] => false
  | c :: rest => (c =? 46) || ((c =? 91) && closes_bracket rest) || is_deep rest
  end.

(** [_.has(self.envs, name)] for a name that lodash reads as a path:
    lodash cuts the name into parts and follows them from the cache
    through the environment cached under the first part and the objects
    that environment holds, which belong to the template engine and to
    the other modules. *)
Variable has_path : gmap jsstring environment -> jsstring -> bool.

(** [_.has(self.envs, name)].  A name that is a property of the cache
    is read as a key, and so is one in which the path pattern does not
    match; a key is looked up among the own properties. *)
Definition has_env (cached : gmap jsstring environment) (name : jsstring) : bool :=
  match cached !! name with
  | Some _ => true
  | None => is_deep name && has_path cached name
  end.

(** [getEnv(req, module)]: what it returns, undefined being [None], and
    the caches as it leaves them.  A name that [_.has] finds as a path
    is no property of the cache, and reading it gives undefined.  The
    assignment [self.envs[name] = env] makes a property of the cache,
    except under the name [__proto__]: it then makes [env] the
    prototype of the cache, which is what reading that name gives, and
    the cache gets no property. *)
Definition getEnv (opts : options) (rootDir : jsstring) (self : caches)
    (module : apos_module) : option environment * caches :=
  let name := name (meta module) in
  if has_env (envs self) name then (envs self !! name, self)
  else
    let '(env, self) := newEnv self name (getViewFolders opts rootDir module) in
    (Some env,
     {| envs := if jsstring_eqb name (str "__proto__") then envs self
                else <[name := env]> (envs self);
        loaders := loaders self;
        allocated := allocated self |}).

(** *** The page URL without the refresh flag *)

Definition unrefreshed (url : jsstring) : jsstring :=
  if negb (includes url (str "aposRefresh=1")) then url
  else if endsWith url (str "?aposRefresh=1") then
    replace (str "?aposRefresh=1") [] url
  else if includes url (str "?aposRefresh=1") then
    replace (str "?aposRefresh=1&") (str "?") url
  else replace (str "&aposRefresh=1") [] url.

(** *** Insertions *)

(** The [conditions] of a registered entry: not given, null, or a
    reference to an object of the store. *)
Inductive conditions_ref :=
| CondUndefined
| CondNull
| CondRef (ref : nat).

Record insertion := {
  component : value;
  conditions : conditions_ref
}.

(** [self.insertions], and the condition objects the entries refer to:
    an object passed to several registrations is one object. *)
Record registry := {
  insertions : gmap jsstring (list insertion);
  objects : gmap nat (gmap jsstring value);
  next_ref : nat
}.

Definition no_insertions : registry :=
  {| insertions := ∅; objects := ∅; next_ref := 0 |}.

(** A caller's object literal, to be passed as [conditions]. *)
Definition new_object (props : gmap jsstring value) (self : registry)
  : conditions_ref * registry :=
  (CondRef (next_ref self),
   {| insertions := insertions self;
      objects := <[next_ref self := props]> (objects self);
      next_ref := S (next_ref self) |}).

(** The first argument of [prepend], [append] and [insert]: a location
    that is falsy or not an object, a string as a rule, or one object
    describing the insertion. *)
Inductive location_arg :=
| Where (location : value)
| Described (description : gmap jsstring value).

Definition insert (end_ : jsstring) (location : location_arg) (componentName : value)
    (conditions : conditions_ref) (self : registry) : registry :=
  let '(location, componentName, conditions, self) :=
    match location with
    | Described description =>
        let rest := delete (str "component") (delete (str "where") description) in
        let '(conditions, self) :=
          match size rest with
          | O => (CondNull, self)
          | S _ => new_object rest self
          end in
        (read description (str "where"), read description (str "component"),
         conditions, self)
    | Where location => (location, componentName, conditions, self)
    end in
  let key := end_ ++ str "-" ++ ToString location in
  let registered := default [] (insertions self !! key) in
  {| insertions :=
       <[key := registered ++ [ {| component := componentName; conditions := conditions |} ]]>
         (insertions self);
     objects := objects self;
     next_ref := next_ref self |}.

Definition component_of (location : location_arg) (componentName : value) : value :=
  match location with
  | Described description => read description (str "component")
  | Where _ => componentName
  end.

Definition is_string (v : value) : bool :=
  match v with VStr _ => true | _ => false end.

Definition prepend (location : location_arg) (componentName : value)
    (conditions : conditions_ref) (self : registry) : completion registry :=
  let componentName := component_of location componentName in
  if negb (is_string componentName) then
    Throw (Error "Do not pass a function to apos.template.prepend. Pass a fully qualified component name, i.e. module-name:async-component-name")
  else Normal (insert (str "prepend") location componentName conditions self).

Definition append (location : location_arg) (componentName : value)
    (conditions : conditions_ref) (self : registry) : completion registry :=
  let componentName := component_of location componentName in
  if negb (is_string componentName) then
    Throw (Error "Do not pass a function to apos.template.prepend. Pass a fully qualified component name, i.e. module-name:async-component-name")
  else Normal (insert (str "append") location componentName conditions self).

(** What the asset module answers; it does not change while pages are
    rendered. *)
Record asset_module := {
  hasHMR : bool;
  devServer : value;
  isDevMode : bool;
  isProductionMode : bool;
  hasBuildModule : bool;
  getBuildModuleAlias : jsstring
}.

(** [v === s] for a string [s]. *)
Definition is_the_string (v : value) (s : jsstring) : bool :=
  match v with
  | VStr s' => jsstring_eqb s' s
  | _ => false
  end.

(** [handlers[fn]] and its call [handlers[fn](arg, data)], with
    [handlers] the object literal of [getInjectConditionHandlers]:
    [None] when the lookup is falsy, else the truth of what the call
    returns.  The object has three own members; any other name is
    looked up in [Object.prototype], whose members answer as follows:
    [constructor], [toString], [toLocaleString] and [valueOf] return an
    object or a non-empty string; [hasOwnProperty] and
    [propertyIsEnumerable] tell whether [arg] names an own member;
    [isPrototypeOf] returns false for a string; [__lookupGetter__] and
    [__lookupSetter__] find an accessor for [__proto__] only;
    [__defineGetter__] and [__defineSetter__] reject [data], which is
    not a function; [__proto__] is an object, not a function. *)
Definition getInjectConditionHandlers (asset : asset_module)
    (fn : jsstring) (arg : option jsstring) : option (completion bool) :=
  let own (k : jsstring) :=
    jsstring_eqb k (str "hmr") || jsstring_eqb k (str "dev")
    || jsstring_eqb k (str "prod") in
  if jsstring_eqb fn (str "hmr") then
    Some (Normal
      (match arg with
       | Some kind =>
           if truthy_string kind
           then hasHMR asset && is_the_string (devServer asset) kind
           else hasHMR asset
       | None => hasHMR asset
       end))
  else if jsstring_eqb fn (str "dev") then Some (Normal (isDevMode asset))
  else if jsstring_eqb fn (str "prod") then Some (Normal (isProductionMode asset))
  else if jsstring_eqb fn (str "constructor") || jsstring_eqb fn (str "toString")
          || jsstring_eqb fn (str "toLocaleString") || jsstring_eqb fn (str "valueOf")
  then Some (Normal true)
  else if jsstring_eqb fn (str "hasOwnProperty")
          || jsstring_eqb fn (str "propertyIsEnumerable")
  then Some (Normal (own (property_key arg)))
  else if jsstring_eqb fn (str "isPrototypeOf") then Some (Normal false)
  else if jsstring_eqb fn (str "__lookupGetter__")
          || jsstring_eqb fn (str "__lookupSetter__")
  then Some (Normal (jsstring_eqb (property_key arg) (str "__proto__")))
  else if jsstring_eqb fn (str "__defineGetter__")
          || jsstring_eqb fn (str "__defineSetter__")
  then Some (Throw (TypeError "Object.prototype.__defineGetter__: Expecting function"))
  else if jsstring_eqb fn (str "__proto__")
  then Some (Throw (TypeError "handlers[fn] is not a function"))
  else None.

Definition is_array (v : value) : bool :=
  match v with VArr _ => true | _ => false end.

(** [val.split(':')]. *)
Definition split_colon (val : value) : completion (list jsstring) :=
  match val with
  | VStr s => Normal (js_split 58 s)
  | _ => Throw (TypeError "s.split is not a function")
  end.

(** The in-place normalisation of [conditions.when] into an array. *)
Definition normalize_when (conditions : gmap jsstring value) : gmap jsstring value :=
  let when := read conditions (str "when") in
  if is_array when then conditions
  else <[str "when" := if truthy when then VArr [when] else VArr []]> conditions.

Definition array_elements (v : value) : list value :=
  match v with VArr elems => elems | _ => [] end.

(** [when.every(val => ...)]: what is logged, and the result. *)
Fixpoint every_condition (asset : asset_module) (when : value) (rest : list value)
  : list jsstring * completion bool :=
  match rest with
  | [] => ([], Normal true)
  | val :: rest =>
      match split_colon val with
      | Throw e => ([], Throw e)
      | Normal parts =>
          match getInjectConditionHandlers asset (hd [] parts) (parts !! 1%nat) with
          | None => ([str "Invalid inject condition: " ++ ToString when], Normal false)
          | Some (Throw e) => ([], Throw e)
          | Some (Normal false) => ([], Normal false)
          | Some (Normal true) => every_condition asset when rest
          end
      end
  end.

(** The [forEach] callback after the normalisation of [conditions.when]:
    what is logged, and whether the component is pushed. *)
Definition resolve_normalized (asset : asset_module) (data : gmap jsstring value)
    (conditions : gmap jsstring value) : list jsstring * completion bool :=
  let when := read conditions (str "when") in
  let bundler := read conditions (str "bundler") in
  let mismatch : completion bool :=
    if truthy (read data (str "when")) then
      names ← mapM (fun s => parts ← split_colon s; Normal (hd [] parts))
                   (array_elements when);
      Normal (negb (existsb (is_the_string (read data (str "when"))) names))
    else Normal false in
  match mismatch with
  | Throw e => ([], Throw e)
  | Normal true => ([], Normal false)
  | Normal false =>
      if negb (truthy (read data (str "when")))
         && negb (Nat.eqb (length (array_elements when)) 0)
      then ([], Normal false)
      else
        let '(logged, conditionMet) :=
          every_condition asset when (array_elements when) in
        match conditionMet with
        | Throw e => (logged, Throw e)
        | Normal conditionMet =>
            let currentBundler :=
              if hasBuildModule asset then getBuildModuleAlias asset
              else str "webpack" in
            if truthy bundler && negb (is_the_string bundler currentBundler)
            then (logged, Normal false)
            else (logged, Normal conditionMet)
        end
  end.

(** The body of the [forEach] callback on one entry, given the object
    [conditions] stands for: the object as the callback leaves it, what
    is logged, and whether the component is pushed. *)
Definition resolve_conditions (asset : asset_module) (data : gmap jsstring value)
    (conditions : gmap jsstring value)
  : gmap jsstring value * list jsstring * completion bool :=
  if negb (truthy (read conditions (str "bundler")))
     && negb (truthy (read conditions (str "when")))
     && negb (truthy (read data (str "when")))
  then (conditions, [], Normal true)
  else
    let conditions := normalize_when conditions in
    let '(logged, pushed) := resolve_normalized asset data conditions in
    (conditions, logged, pushed).

(** The callback on one entry of the registry: [conditions] defaults to
    a new empty object when it is undefined, and reading a property of
    null throws. *)
Definition resolve_entry (asset : asset_module) (data : gmap jsstring value)
    (store : gmap nat (gmap jsstring value)) (entry : insertion)
  : gmap nat (gmap jsstring value) * list jsstring * completion bool :=
  match conditions entry with
  | CondUndefined =>
      let '(_, logged, pushed) := resolve_conditions asset data ∅ in
      (store, logged, pushed)
  | CondNull =>
      (store, [], Throw (TypeError "Cannot read properties of null (reading 'bundler')"))
  | CondRef ref =>
      let '(object, logged, pushed) :=
        resolve_conditions asset data (default ∅ (store !! ref)) in
      (<[ref := object]> store, logged, pushed)
  end.

(** The [forEach] over the entries of one key. *)
Fixpoint resolve_entries (asset : asset_module) (data : gmap jsstring value)
    (store : gmap nat (gmap jsstring value)) (entries : list insertion)
  : gmap nat (gmap jsstring value) * list jsstring * completion (list value) :=
  match entries with
  | [] => (store, [], Normal [])
  | entry :: rest =>
      let '(store, logged, pushed) := resolve_entry asset data store entry in
      match pushed with
      | Throw e => (store, logged, Throw e)
      | Normal pushed =>
          let '(store, logged', components) := resolve_entries asset data store rest in
          (store, logged ++ logged',
           components ← components;
           Normal (if pushed then component entry :: components else components))
      end
  end.

(** [getInjectedComponents(key, data)]: the registry as the call leaves
    it, the errors logged, and the components or the exception.  A key
    that is not registered is looked up in [Object.prototype], none of
    whose members has a [forEach]. *)
Definition getInjectedComponents (asset : asset_module) (key : jsstring)
    (data : gmap jsstring value) (self : registry)
  : registry * list jsstring * completion (list value) :=
  match insertions self !! key with
  | None =>
      if in_object_prototype key
      then (self, [], Throw (TypeError "self.insertions[key]?.forEach is not a function"))
      else (self, [], Normal [])
  | Some entries =>
      let '(store, logged, components) :=
        resolve_entries asset data (objects self) entries in
      ({| insertions := insertions self; objects := store; next_ref := next_ref self |},
       logged, components)
  end.

(** *** Virtual nodes *)

(** An element of a nodes array.  An object is given by its six
    properties, an absent one being undefined; [body] is falsy
    ([None]), an array, or something else.  A value that is no object
    but has properties, a string or a number say, reads as an object
    with none of the six.  Null and undefined have no property to
    read.  What is passed for an array of nodes may be no array. *)
Inductive node :=
| Node (text comment raw name attrs : value) (body : option nodes)
| NullNode
| UndefinedNode
with nodes :=
| Nodes (items : list node)
| NotAnArray.

Definition invalid_nodes : jsstring :=
  str "Invalid nodes array passed to apos.template.renderNodes()".
Definition invalid_node : jsstring :=
  str "Invalid node object passed to apos.template.renderNodes()".

(** One attribute of an element. *)
Definition renderAttr (attr : jsstring * value) : jsstring :=
  match snd attr with
  | VBool false | VNull | VUndefined => []
  | VBool true => str " " ++ escapeHtml (VStr (fst attr))
  | value => str " " ++ escapeHtml (VStr (fst attr)) ++ [61; dquote]
                     ++ escapeHtml value ++ [dquote]
  end.

(** The attributes of an element, from [node.attrs || {}]. *)
Definition element_attrs (attrs : value) : jsstring :=
  trimEnd (concat (map renderAttr (entries (js_or attrs (VObj []))))).

(** The [map] of [renderNodes], given what its callback does on each
    element: the pieces, or the exception of the first callback that
    throws, and the errors logged up to there. *)
Fixpoint rendered_pieces (rendered : list (completion jsstring * list jsstring))
  : completion (list jsstring) * list jsstring :=
  match rendered with
  | [] => (Normal [], [])
  | (Throw e, logged) :: _ => (Throw e, logged)
  | (Normal piece, logged) :: rest =>
      let '(pieces, logged') := rendered_pieces rest in
      (pieces ← pieces; Normal (piece :: pieces), logged ++ logged')
  end.

(** [renderNodes(nodes)]: the HTML or the exception, and the errors
    passed to [logError].  [renderNode] is the callback of its [map]:
    its first act is to read [node.text], which throws when the
    element is null or undefined. *)
Fixpoint renderNode (n : node) : completion jsstring * list jsstring :=
  match n with
  | NullNode =>
      (Throw (TypeError "Cannot read properties of null (reading 'text')"), [])
  | UndefinedNode =>
      (Throw (TypeError "Cannot read properties of undefined (reading 'text')"), [])
  | Node text comment raw name attrs body =>
      if truthy text then (Normal (escapeHtml text), [])
      else if truthy comment then
        (Normal ([10] ++ str "<!-- " ++ escapeHtml comment ++ str " -->" ++ [10]), [])
      else if truthy raw then (Normal (ToString raw), [])
      else if truthy name then
        let name := escapeHtml name in
        let attrs := element_attrs attrs in
        match body with
        | None =>
            if voidElements name then (Normal (str "<" ++ name ++ attrs ++ str " />"), [])
            else (Normal (str "<" ++ name ++ attrs ++ str ">" ++ trim []
                            ++ str "</" ++ name ++ str ">"), [])
        | Some body =>
            let '(body, logged) := renderNodes body in
            (body ← body;
             Normal (str "<" ++ name ++ attrs ++ str ">" ++ trim body
                       ++ str "</" ++ name ++ str ">"),
             logged)
        end
      else (Normal [], [invalid_node])
  end
with renderNodes (ns : nodes) : completion jsstring * list jsstring :=
  match ns with
  | NotAnArray => (Normal [], [invalid_nodes])
  | Nodes items =>
      let '(pieces, logged) := rendered_pieces (map renderNode items) in
      (pieces ← pieces; Normal (trim (concat pieces)), logged)
  end.

(** *** Filters of the template language *)

(** [s.toString()] on a template value: the text of a safe string, the
    text of any other value; a nullish value has no such method. *)
Definition template_toString (s : template_value) : completion jsstring :=
  match s with
  | SafeString val => Normal val
  | Plain v =>
      if nullish v
      then Throw (TypeError "Cannot read properties of undefined (reading 'toString')")
      else Normal (ToString v)
  end.

(** The [nlp] filter: the text is escaped unless safe, split at every
    line feed, and each part becomes a paragraph followed by a line
    feed. *)
Definition nlp (data : template_value) : completion template_value :=
  let data := escapeIfNeeded data in
  text ← template_toString data;
  let parts := js_split 10 text in
  let output :=
    join [] (map (fun part => str "<p>" ++ part ++ str "</p>" ++ [10]) parts) in
  Normal (safe output).

(** The number of code units before the first [>] of [s]. *)
Fixpoint before_gt (s : jsstring) : option nat :=
  match s with
  | [] => None
  | c :: s' => if c =? 62 then Some O else S <$> before_gt s'
  end.

(** The length of the match of the tag pattern of [striptags] at the
    start of [s]: a [<], the longest run of code units other than [>],
    which must hold one at least, and the [>] that ends the run.  With
    no [>] after the run there is no match, however the run is cut.
    The pattern holds no letter, so its [i] flag changes nothing. *)
Definition tag_length (s : jsstring) : option nat :=
  match s with
  | [] => None
  | c :: s' =>
      if c =? 60 then
        match before_gt s' with
        | Some (S run) => Some (S (S (S run)))
        | _ => None
        end
      else None
  end.

(** The global replacement of the tag pattern by the empty text:
    matches are taken from left to right and do not overlap.  [skip]
    counts the code units of the current match still to be dropped. *)
Fixpoint striptags_from (skip : nat) (s : jsstring) : jsstring :=
  match s with
  | [] => []
  | c :: s' =>
      match skip with
      | S k => striptags_from k s'
      | O =>
          match tag_length s with
          | Some n => striptags_from (n - 1) s'
          | None => c :: striptags_from 0 s'
          end
      end
  end.

(** The [striptags] filter, on a string. *)
Definition striptags (data : jsstring) : jsstring := striptags_from 0 data.

(** *** Rendering a template *)

(** The outcome of a call that may also throw an [Error] whose message
    is built from the arguments. *)
Inductive outcome (A : Type) :=
| Returns (a : A)
| Throws (e : exn)
| ThrowsError (message : jsstring).
Arguments Returns {A} a.
Arguments Throws {A} e.
Arguments ThrowsError {A} message.

Definition of_completion {A : Type} (c : completion A) : outcome A :=
  match c with
  | Normal a => Returns a
  | Throw e => Throws e
  end.

(** A word character of a regular expression: a digit, a letter or the
    underscore. *)
Definition is_word (c : code_unit) : bool :=
  ((48 <=? c) && (c <=? 57)) || ((65 <=? c) && (c <=? 90)) || (c =? 95)
  || ((97 <=? c) && (c <=? 122)).

(** Whether the extension pattern of [renderBody] matches in [s]: a dot
    followed by word characters, one at least, up to the end of [s]. *)
Fixpoint has_extension (s : jsstring) : bool :=
  match s with
  | [] => false
  | c :: s' =>
      ((c =? 46) && truthy_string s' && forallb is_word s') || has_extension s'
  end.

(** [s.indexOf(c)] for one character: [None] is the result -1. *)
Fixpoint indexOf (c : code_unit) (s : jsstring) : option nat :=
  match s with
  | [] => None
  | d :: s' => if d =? c then Some O else S <$> indexOf c s'
  end.

(** What [module[method]] is for a module object: undefined or another
    falsy value, a truthy value that cannot be called, or a function
    of the request, which returns nodes or throws.  What it returns
    that is no array, a promise say, is [NotAnArray]. *)
Inductive module_member :=
| Absent
| NotCallable
| Method (handler : request -> completion nodes).

(** A module object: its members, and its [getOption] method. *)
Record module_object := {
  member_of : jsstring -> module_member;
  getOption_of : request -> jsstring -> value -> value
}.

(** [self.apos.modules[name]]: [None] when it is undefined. *)
Variable apos_modules : jsstring -> option module_object.

(** The object [getRenderArgs] returns.  Its [apos], [__t] and [__]
    hold helpers and are not recorded; [getOption] closes over the
    request and the module, see [args_getOption]. *)
Record render_args := {
  args_data : gmap jsstring value;
  args_req : request;
  args_module : apos_module
}.

Definition getRenderArgs (req : request) (data : value) (module : apos_module)
  : render_args :=
  {| args_data := getRenderDataArgs req data module;
     args_req := req;
     args_module := module |}.

(** [args.getOption(key, def)], for a string [key]: a key with a colon
    names the module to ask before its first colon. *)
Definition args_getOption (args : render_args) (key : jsstring) (def : value)
  : completion value :=
  let colonAt := indexOf 58 key in
  let optionModule := apos_modules (name (meta (args_module args))) in
  let '(key, optionModule) :=
    match colonAt with
    | Some colonAt =>
        let name := take colonAt key in
        let key := drop (S colonAt) key in
        (key, apos_modules name)
    | None => (key, optionModule)
    end in
  match optionModule with
  | Some optionModule => Normal (getOption_of optionModule (args_req args) key def)
  | None => Throw (TypeError "Cannot read properties of undefined (reading 'getOption')")
  end.

(** The template engine: [env.getTemplate(name).render(args)] and
    [env.renderString(s, args)], with what they return or throw. *)
Variable render_template : environment -> jsstring -> render_args -> completion jsstring.
Variable render_string : environment -> jsstring -> render_args -> completion jsstring.

(** [renderBody(req, type, s, data, module)], for a string [s]: what
    the promise resolves to or is rejected with, and the caches as the
    call leaves them. *)
Definition renderBody (opts : options) (rootDir : jsstring) (self : caches)
    (req : request) (type : value) (s : jsstring) (data : value)
    (module : apos_module) : outcome jsstring * caches :=
  let args := getRenderArgs req data module in
  let '(env, self) := getEnv opts rootDir self module in
  let result :=
    if is_the_string type (str "file") then
      let finalName := if negb (has_extension s) then s ++ str ".html" else s in
      match env with
      | Some env => of_completion (render_template env finalName args)
      | None => Throws (TypeError "Cannot read properties of undefined (reading 'getTemplate')")
      end
    else if is_the_string type (str "string") then
      match env with
      | Some env => of_completion (render_string env s args)
      | None => Throws (TypeError "Cannot read properties of undefined (reading 'renderString')")
      end
    else ThrowsError (str "renderBody does not support the type " ++ ToString type) in
  (result, self).

(** *** Body classes and data attributes *)

(** [addBodyClass(req, bodyClass)], on the object [req.data]. *)
Definition addBodyClass (data : gmap jsstring value) (bodyClass : value)
  : gmap jsstring value :=
  let current := read data (str "aposBodyClasses") in
  <[str "aposBodyClasses" :=
      VStr ((if truthy current then ToString current ++ str " " else [])
            ++ ToString bodyClass)]> data.

(** [apos.util.escapeHtml(value, { single: true })]. *)
Variable escapeHtml_single : value -> jsstring.

(** Whether a number is a valid length for lodash: an integer from 0 to
    the largest safe integer. *)
Variable Number_isLength : number -> bool.

(** lodash's [isArrayLike] on an object with the properties [props]. *)
Definition isArrayLike (props : list (jsstring * value)) : bool :=
  match get_prop props (str "length") with
  | VNum n => Number_isLength n
  | _ => false
  end.

(** The callback of the [_.each] of [addBodyDataAttribute] on one
    property: an empty key is skipped, and the text of a null value
    cannot be taken. *)
Definition addAttribute (data : gmap jsstring value) (key : jsstring) (val : value)
  : completion (gmap jsstring value) :=
  if jsstring_eqb key [] then Normal data
  else
    let current := read data (str "aposBodyDataAttributes") in
    let before := if truthy current then ToString current ++ str " " else str " " in
    attribute ←
      match val with
      | VUndefined => Normal (escapeHtml (VStr key))
      | VNull => Throw (TypeError "Cannot read properties of null (reading 'toString')")
      | _ =>
          Normal (if truthy_string (ToString val)
                  then escapeHtml (VStr key) ++ str "='" ++ escapeHtml_single val
                       ++ str "'"
                  else escapeHtml (VStr key))
      end;
    Normal (<[str "aposBodyDataAttributes" := VStr (before ++ str "data-" ++ attribute)]>
              data).

(** The [_.each] over the own properties of [values]: the object
    [req.data] as the loop leaves it, and how the loop ends. *)
Fixpoint each_attribute (data : gmap jsstring value) (values : list (jsstring * value))
  : gmap jsstring value * completion unit :=
  match values with
  | [] => (data, Normal ())
  | (key, val) :: rest =>
      match addAttribute data key val with
      | Throw e => (data, Throw e)
      | Normal data => each_attribute data rest
      end
  end.

(** [addBodyDataAttribute(req, name, value)], on the object [req.data].
    In the two-argument form the name [__proto__] sets the prototype of
    [values] and gives it no property.  An object that is array-like for
    lodash is visited by index, and every index is an empty key. *)
Definition addBodyDataAttribute (data : gmap jsstring value) (name val : value)
  : gmap jsstring value * completion unit :=
  let values :=
    match name with
    | VObj props => props
    | _ =>
        if truthy name && truthy_string (ToString name)
           && truthy val && truthy_string (ToString val)
        then if jsstring_eqb (ToString name) (str "__proto__") then []
             else [(ToString name, val)]
        else []
    end in
  if isArrayLike values then (data, Normal ())
  else each_attribute data values.

(** *** Runtime nodes *)

(** An entry of [self.runtimeNodes], which holds the entries registered
    under each key. *)
Record runtime_entry := {
  entry_moduleName : jsstring;
  entry_method : jsstring
}.

(** A text between double quotes, as the messages of
    [registerRuntimeNodes] show names. *)
Definition quoted (s : jsstring) : jsstring := [dquote] ++ s ++ [dquote].

(** [registerRuntimeNodes(end, location, moduleName, method)], on the
    table [self.runtimeNodes]: the table with the entry added last
    under the key of the end and the location, or the error of the
    first check that fails. *)
Definition registerRuntimeNodes (end_ : jsstring) (location moduleName method : value)
    (self : gmap jsstring (list runtime_entry))
  : outcome (gmap jsstring (list runtime_entry)) :=
  let caller := quoted (str "apos.template." ++ end_ ++ str "Nodes()") in
  match method with
  | VStr method =>
      match moduleName with
      | VStr moduleName =>
          match apos_modules moduleName with
          | None =>
              ThrowsError
                (str "Invalid module " ++ quoted moduleName ++ str "detected in "
                 ++ caller ++ str ". "
                 ++ str "Make sure the module is registered in your "
                 ++ quoted (str "app.js") ++ str " file.")
          | Some module =>
              match member_of module method with
              | Absent =>
                  ThrowsError
                    (str "Invalid method " ++ quoted method ++ str " detected in "
                     ++ caller ++ str ". "
                     ++ str "Make sure the module " ++ quoted moduleName
                     ++ str " has a method named " ++ quoted method ++ str ".")
              | _ =>
                  let key := end_ ++ str "-" ++ ToString location in
                  let registered := default [] (self !! key) in
                  Returns
                    (<[key := registered
                               ++ [ {| entry_moduleName := moduleName;
                                       entry_method := method |} ]]> self)
              end
          end
      | _ =>
          ThrowsError
            (str "Invalid " ++ quoted (str "moduleName") ++ str " detected in "
             ++ caller ++ str ". "
             ++ str "Pass a string with the name of the module, e.g. "
             ++ quoted (str "some-module"))
      end
  | _ =>
      ThrowsError
        (str "Do not pass a function to " ++ caller ++ str ". "
         ++ str "Pass a string with the name of the method to call on the module, "
         ++ str "e.g. " ++ quoted (str "myMethod"))
  end.

(** [prependNodes] and [appendNodes] register under the ends of their
    names. *)
Definition prependNodes (location moduleName method : value)
    (self : gmap jsstring (list runtime_entry))
  : outcome (gmap jsstring (list runtime_entry)) :=
  registerRuntimeNodes (str "prepend") location moduleName method self.

Definition appendNodes (location moduleName method : value)
    (self : gmap jsstring (list runtime_entry))
  : outcome (gmap jsstring (list runtime_entry)) :=
  registerRuntimeNodes (str "append") location moduleName method self.

(** [self.renderNodes(handler(req))]: the HTML or the exception of the
    handler or of the rendering, and the errors logged. *)
Definition render_handler (handler : request -> completion nodes) (req : request)
  : completion jsstring * list jsstring :=
  match handler req with
  | Throw e => (Throw e, [])
  | Normal ns => renderNodes ns
  end.

(** The [for ... of] of [injectNodes]: the errors [renderNodes] logs,
    and the rendered pieces or the exception, which ends the loop. *)
Fixpoint inject_entries (req : request) (entries : list runtime_entry)
  : list jsstring * completion (list jsstring) :=
  match entries with
  | [] => ([], Normal [])
  | entry :: rest =>
      match apos_modules (entry_moduleName entry) with
      | None =>
          ([], Throw (TypeError "Cannot read properties of undefined"))
      | Some module =>
          match member_of module (entry_method entry) with
          | Method handler =>
              let '(html, logged) := render_handler handler req in
              match html with
              | Throw e => (logged, Throw e)
              | Normal html =>
                  let '(logged', output) := inject_entries req rest in
                  (logged ++ logged', output ← output; Normal (html :: output))
              end
          | _ => ([], Throw (TypeError "handler is not a function"))
          end
      end
  end.

(** [injectNodes(req, locationKey)]: the errors logged, and the HTML or
    the exception.  A key that is not registered is looked up in
    [Object.prototype]: its member [__proto__] is an object without a
    length, its functions [toString], [toLocaleString] and [valueOf]
    have the length 0, and its other functions have a length of 1 or 2
    and cannot be iterated. *)
Definition injectNodes (req : request) (locationKey : jsstring)
    (self : gmap jsstring (list runtime_entry))
  : list jsstring * completion jsstring :=
  match self !! locationKey with
  | Some [] => ([], Normal [])
  | Some entries =>
      let '(logged, output) := inject_entries req entries in
      (logged, output ← output; Normal (join [10] output))
  | None =>
      if jsstring_eqb locationKey (str "constructor")
         || jsstring_eqb locationKey (str "hasOwnProperty")
         || jsstring_eqb locationKey (str "isPrototypeOf")
         || jsstring_eqb locationKey (str "propertyIsEnumerable")
         || jsstring_eqb locationKey (str "__defineGetter__")
         || jsstring_eqb locationKey (str "__defineSetter__")
         || jsstring_eqb locationKey (str "__lookupGetter__")
         || jsstring_eqb locationKey (str "__lookupSetter__")
      then ([], Throw (TypeError "nodes is not iterable"))
      else ([], Normal [])
  end.

(** The [inject] component: the registry as the call leaves it, the
    errors logged while the conditions are resolved and while the nodes
    are rendered, and the components with the HTML, or the exception. *)
Definition inject (asset : asset_module) (req : request) (data : gmap jsstring value)
    (self : registry) (nodes : gmap jsstring (list runtime_entry))
  : registry * list jsstring * list jsstring * completion (list value * jsstring) :=
  let key := ToString (read data (str "end")) ++ str "-"
             ++ ToString (read data (str "where")) in
  let '(self, logged, components) := getInjectedComponents asset key data self in
  match components with
  | Throw e => (self, logged, [], Throw e)
  | Normal components =>
      if truthy (read data (str "when")) then (self, logged, [], Normal (components, []))
      else
        let '(logged', html) := injectNodes req key nodes in
        (self, logged, logged', html ← html; Normal (components, html))
  end.

(** ** Notions used to state the properties *)

(** The views folder of one entry of a module's chain. *)
Definition views_of (entry : chain_entry) : jsstring :=
  dirname entry ++ str "/views".

(** The project-wide fallback folder: the option when it is set to a
    non-empty string, else the [views] folder of the project root. *)
Definition project_fallback (opts : options) (rootDir : jsstring) : jsstring :=
  match viewsFolderFallback opts with
  | Some folder => if truthy_string folder then folder
                   else path_join rootDir (str "views")
  | None => path_join rootDir (str "views")
  end.

(** A node with none of the four shapes: [text], [comment], [raw] and
    [name] are all absent, or falsy. *)
Definition malformed (n : node) : bool :=
  match n with
  | Node text comment raw name _ _ =>
      negb (truthy text) && negb (truthy comment) && negb (truthy raw)
      && negb (truthy name)
  | NullNode | UndefinedNode => false
  end.

(** No element of the node, at any depth, is null or undefined. *)
Fixpoint holds_objects (n : node) : bool :=
  match n with
  | Node _ _ _ _ _ (Some (Nodes items)) => forallb holds_objects items
  | Node _ _ _ _ _ _ => true
  | NullNode | UndefinedNode => false
  end.

(** A text that neither starts nor ends with white space. *)
Definition is_trimmed (s : jsstring) : bool :=
  match head s with Some c => negb (is_whitespace c) | None => true end
  && match last s with Some c => negb (is_whitespace c) | None => true end.

Definition is_undefined (v : value) : bool :=
  match v with VUndefined => true | _ => false end.

(** The first value other than undefined that a property list gives to
    the key [k]. *)
Fixpoint first_defined (k : jsstring) (props : list (jsstring * value))
  : option value :=
  match props with
  | [] => None
  | p :: rest =>
      if jsstring_eqb (fst p) k && negb (is_undefined (snd p)) then Some (snd p)
      else first_defined k rest
  end.

(** What a source of template data supplies for the key [k]: nothing
    when the source is falsy or leaves the key undefined. *)
Definition supplied (source : value) (k : jsstring) : option value :=
  if truthy source then first_defined k (entries source) else None.

(** The value of [k] from the first source that supplies one, the
    sources being listed from the highest priority to the lowest. *)
Fixpoint by_priority (k : jsstring) (sources : list value) : value :=
  match sources with
  | [] => VUndefined
  | source :: rest =>
      match supplied source k with
      | Some v => v
      | None => by_priority k rest
      end
  end.

(** The defaults derived from the request. *)
Definition request_defaults (req : request) : value :=
  VObj [ (str "user", req_user req);
         (str "permissions",
          js_or (js_and (req_user req) (get (req_user req) (str "_permissions")))
                (VObj [])) ].

Definition is_empty_array (v : value) : bool :=
  match v with VArr [] => true | _ => false end.

(** A conditions object that sets no condition: no truthy [bundler],
    and a [when] that is falsy or, once normalised, the empty array. *)
Definition no_conditions (conditions : gmap jsstring value) : bool :=
  negb (truthy (read conditions (str "bundler")))
  && (negb (truthy (read conditions (str "when")))
      || is_empty_array (read conditions (str "when"))).

(** An entry registered with no conditions: none were passed, or the
    object passed sets none. *)
Definition unconditional (store : gmap nat (gmap jsstring value)) (entry : insertion)
  : Prop :=
  match conditions entry with
  | CondUndefined => True
  | CondNull => False
  | CondRef ref => no_conditions (default ∅ (store !! ref)) = true
  end.

(** [after] is [before], or [before] with its [when] normalised. *)
Definition normalized_from (before after : gmap jsstring value) : Prop :=
  after = before \/ after = normalize_when before.

Definition store_normalized_from (before after : gmap nat (gmap jsstring value))
  : Prop :=
  forall ref, normalized_from (default ∅ (before !! ref)) (default ∅ (after !! ref)).

(** **** Notions for the replacements of [jsonForHtml]

    The code units at which the copy of the input breaks off: those
    that can start a match of the pattern, whose first code unit is
    [p0], and those equal to the first code unit [r0] of the
    replacement. *)
Definition stops (canon : code_unit -> code_unit) (p0 r0 c : code_unit) : bool :=
  (canon c =? canon p0) || (canon c =? canon r0).

(** The longest prefix of [s] without a stop. *)
Fixpoint segment (stop : code_unit -> bool) (s : jsstring) : jsstring :=
  match s with
  | [] => []
  | c :: s' => if stop c then [] else c :: segment stop s'
  end.

(** [q] and [u] agree as far as both reach. *)
Fixpoint overlaps (canon : code_unit -> code_unit) (q u : jsstring) : bool :=
  match q, u with
  | a :: q', b :: u' => char_match canon a b && overlaps canon q' u'
  | _, _ => true
  end.

(** No match of [q] can start inside the text [r], whatever follows. *)
Fixpoint never_inside (canon : code_unit -> code_unit) (q r : jsstring) : bool :=
  match r with
  | [] => true
  | _ :: r' => negb (overlaps canon q r) && never_inside canon q r'
  end.

(** No code unit of [q] after the first is a stop. *)
Definition tail_clear (canon : code_unit -> code_unit) (q : jsstring)
    (p0 r0 : code_unit) : bool :=
  forallb (fun y => negb (stops canon p0 r0 y)) (tl q).

(** Every match of [q] in [s] starts where a match of [p] starts. *)
Fixpoint guarded (canon : code_unit -> code_unit) (q p s : jsstring) : bool :=
  implb (matches canon q s) (matches canon p s)
  && match s with
     | [] => true
     | _ :: s' => guarded canon q p s'
     end.

(** A code unit that is not an ASCII letter. *)
Definition caseless (c : code_unit) : bool :=
  negb (((65 <=? c) && (c <=? 90)) || ((97 <=? c) && (c <=? 122))).

(** The side conditions of [replace_global_clears], for literals. *)
Definition clears (canon : code_unit -> code_unit) (p r q : jsstring) : bool :=
  match p, r with
  | p0 :: _, r0 :: _ => tail_clear canon q p0 r0 && never_inside canon q r
  | _, _ => false
  end.

(** **** Notions for the caches *)

Definition hex_digit_value (h : code_unit) : N :=
  if h <? 58 then h - 48 else h - 87.

Definition unescape (e : code_unit) : code_unit :=
  if e =? 98 then 8
  else if e =? 116 then 9
  else if e =? 110 then 10
  else if e =? 102 then 12
  else if e =? 114 then 13
  else e.

(** Reading back the body of a quoted JSON string, up to its closing
    quote: the string, and the text after the quote. *)
Fixpoint unquote_units (s : jsstring) : option (jsstring * jsstring) :=
  match s with
  | [] => None
  | c :: s' =>
      if c =? 34 then Some ([], s')
      else if c =? 92 then
        match s' with
        | [] => None
        | e :: s'' =>
            if e =? 117 then
              match s'' with
              | h1 :: h2 :: h3 :: h4 :: s''' =>
                  match unquote_units s''' with
                  | Some (t, rest) =>
                      Some (4096 * hex_digit_value h1 + 256 * hex_digit_value h2
                            + 16 * hex_digit_value h3 + hex_digit_value h4 :: t, rest)
                  | None => None
                  end
              | _ => None
              end
            else match unquote_units s'' with
                 | Some (t, rest) => Some (unescape e :: t, rest)
                 | None => None
                 end
        end
      else match unquote_units s' with
           | Some (t, rest) => Some (c :: t, rest)
           | None => None
           end
  end.

(** The states of the caches that calls of the module can produce. *)
Inductive reachable : caches -> Prop :=
| reachable_init : reachable init
| reachable_newLoader self moduleName dirs :
    reachable self -> reachable (newLoader self moduleName dirs).2
| reachable_getLoader self moduleName dirs :
    reachable self -> reachable (getLoader self moduleName dirs).2
| reachable_newEnv self moduleName dirs :
    reachable self -> reachable (newEnv self moduleName dirs).2
| reachable_getEnv opts rootDir self module :
    reachable self -> reachable (getEnv opts rootDir self module).2.

(** What holds of every reachable state: a cached loader sits under the
    key of its own module name and folders, a cached environment under
    its own module name with its loader cached under that name, and
    identities are never shared. *)
Record caches_wf (self : caches) : Prop := {
  wf_loader_key : forall key l,
    default ∅ (loaders self) !! key = Some l ->
    key = loader_key (loader_moduleName l) (loader_dirs l)
    /\ (loader_id l < allocated self)%nat;
  wf_loader_id : forall k1 k2 l1 l2,
    default ∅ (loaders self) !! k1 = Some l1 ->
    default ∅ (loaders self) !! k2 = Some l2 ->
    loader_id l1 = loader_id l2 -> k1 = k2;
  wf_env_name : forall n e,
    envs self !! n = Some e ->
    env_module e = n /\ (env_id e < allocated self)%nat
    /\ default ∅ (loaders self) !! loader_key n (loader_dirs (env_loader e))
       = Some (env_loader e);
  wf_env_id : forall n1 n2 e1 e2,
    envs self !! n1 = Some e1 -> envs self !! n2 = Some e2 ->
    env_id e1 = env_id e2 -> n1 = n2
}.

(** A module name that lodash reads as a key, and that an assignment
    makes a property of the cache. *)
Definition plain_key (name : jsstring) : Prop :=
  is_deep name = false /\ name <> str "__proto__".

(** **** Notions for the filters *)

(** Is there a match of the tag pattern of [striptags] somewhere in
    [s]? *)
Fixpoint has_tag (s : jsstring) : bool :=
  match tag_length s with
  | Some _ => true
  | None =>
      match s with
      | [] => false
      | _ :: s' => has_tag s'
      end
  end.

(** A paragraph of [nlp]. *)
Definition paragraph (part : jsstring) : jsstring :=
  str "<p>" ++ part ++ str "</p>" ++ [10].

(** **** Notions for the body attributes *)

(** The text of a value, for a value that has one: undefined has none,
    and asking null for its text throws. *)
Definition has_text (val : value) : bool :=
  match val with
  | VUndefined | VNull => false
  | _ => truthy_string (ToString val)
  end.

(** One data attribute as the page layout emits it, with the space
    before it: the bare name when the value has no text. *)
Definition data_attribute (p : jsstring * value) : jsstring :=
  str " data-" ++ escapeHtml (VStr (fst p))
  ++ (if has_text (snd p) then str "='" ++ escapeHtml_single (snd p) ++ str "'" else []).

(** What a property of [req.data] holds as a text: the empty text when
    it is falsy. *)
Definition text_so_far (data : gmap jsstring value) (k : jsstring) : jsstring :=
  if truthy (read data k) then ToString (read data k) else [].

(** The properties with a key that is not empty. *)
Definition named (props : list (jsstring * value)) : list (jsstring * value) :=
  filter (fun p => fst p <> []) props.

(** **** Notions for the runtime nodes *)

(** The key under which an end of a location is registered. *)
Definition location_key (end_ : jsstring) (location : value) : jsstring :=
  end_ ++ str "-" ++ ToString location.

(** An entry whose module exists and has the method, as
    [registerRuntimeNodes] requires. *)
Definition validated (entry : runtime_entry) : Prop :=
  exists module,
    apos_modules (entry_moduleName entry) = Some module
    /\ member_of module (entry_method entry) <> Absent.

(** The tables that successful registrations build. *)
Inductive registered : gmap jsstring (list runtime_entry) -> Prop :=
| registered_none : registered ∅
| registered_more end_ location moduleName method self self' :
    registered self ->
    registerRuntimeNodes end_ location moduleName method self = Returns self' ->
    registered self'.

(** Every truthy member of a module is a function. *)
Definition members_callable : Prop :=
  forall moduleName module method,
    apos_modules moduleName = Some module ->
    member_of module method <> NotCallable.

(** **** Notions for the conditions of insertions *)

(** The bundler in use: the alias of the external build module, or the
    internal one. *)
Definition currentBundler (asset : asset_module) : jsstring :=
  if hasBuildModule asset then getBuildModuleAlias asset else str "webpack".

(** An entry registered for a bundler that is not the one in use. *)
Definition for_other_bundler (asset : asset_module)
    (store : gmap nat (gmap jsstring value)) (entry : insertion) : Prop :=
  match conditions entry with
  | CondRef ref =>
      truthy (read (default ∅ (store !! ref)) (str "bundler")) = true
      /\ is_the_string (read (default ∅ (store !! ref)) (str "bundler"))
                       (currentBundler asset) = false
  | _ => False
  end.

(** The phases of a conditions object: the elements of its [when] once
    it is an array. *)
Definition phases (conditions : gmap jsstring value) : list value :=
  array_elements (read (normalize_when conditions) (str "when")).

(** An entry one of whose phases is a string that names [tag] before
    its first colon. *)
Definition registered_for (store : gmap nat (gmap jsstring value))
    (entry : insertion) (tag : jsstring) : Prop :=
  match conditions entry with
  | CondRef ref =>
      exists s, VStr s ∈ phases (default ∅ (store !! ref))
                /\ hd [] (js_split 58 s) = tag
  | _ => False
  end.

(** An entry registered for one phase at least. *)
Definition has_phases (store : gmap nat (gmap jsstring value)) (entry : insertion)
  : Prop :=
  match conditions entry with
  | CondRef ref => phases (default ∅ (store !! ref)) <> []
  | _ => False
  end.

(** **** Notions for reading back the JSON of a string *)

(** The code units that start a pattern of [jsonForHtml]. *)
Definition special (c : code_unit) : bool :=
  (c =? 60) || (c =? 8232) || (c =? 8233).

(** [reads D t d]: the text [t], the body of a string literal with its
    closing quote, is made of code units that stand for themselves and
    of escape sequences, and [d] is the string it denotes.  No code
    unit of an escape sequence is special, and the code unit an escape
    sequence denotes is in [D]. *)
Inductive reads (D : code_unit -> bool) : jsstring -> jsstring -> Prop :=
| reads_end : reads D [34] []
| reads_plain c t d :
    c <> 34 -> c <> 92 -> reads D t d -> reads D (c :: t) (c :: d)
| reads_escaped inner x t d :
    Forall (fun u => special u = false) inner ->
    D x = true ->
    (forall rest,
        unquote_units (92 :: inner ++ rest)
        = match unquote_units rest with
          | Some (u, rest') => Some (x :: u, rest')
          | None => None
          end) ->
    reads D t d -> reads D (92 :: inner ++ t) (x :: d).

(** The code units that the escape sequences of a JSON string denote,
    and those of [extra]. *)
Definition escaped_by (extra : list code_unit) (c : code_unit) : bool :=
  (c <? 32) || (c =? 34) || (c =? 92) || is_leading_surrogate c
  || is_trailing_surrogate c || bool_decide (c ∈ extra).

(** ** Properties *)

(** Literals stay folded while the proofs simplify. *)
#[local] Opaque str.

(** *** The search order of view folders *)

Lemma getViewFolders_unfold opts rootDir module :
  getViewFolders opts rootDir module
  = reverse (map views_of (chain (meta module))) ++ [project_fallback opts rootDir].
Proof. reflexivity. Qed.

(** C1: for a module whose chain runs from the root ancestor to the
    most derived module, [getViewFolders] lists the views folders of
    the chain in reverse, most derived first, and then the project-wide
    fallback folder, which is always last. *)
Theorem getViewFolders_search_order opts rootDir module :
  let dirs := getViewFolders opts rootDir module in
  let ancestry := chain (meta module) in
  dirs = map views_of (reverse ancestry) ++ [project_fallback opts rootDir]
  /\ last dirs = Some (project_fallback opts rootDir)
  /\ head dirs = Some (match last ancestry with
                       | Some derived => views_of derived
                       | None => project_fallback opts rootDir
                       end)
  /\ forall i,
       dirs !! i =
         if decide (i < length ancestry)%nat
         then views_of <$> ancestry !! (length ancestry - S i)%nat
         else if decide (i = length ancestry) then Some (project_fallback opts rootDir)
              else None.
Proof.
  intros dirs ancestry.
  assert (Hdirs : dirs = map views_of (reverse ancestry) ++ [project_fallback opts rootDir]).
  { unfold dirs. rewrite getViewFolders_unfold. fold ancestry.
    change (map views_of) with (fmap (M := list) views_of).
    by rewrite fmap_reverse. }
  split; [exact Hdirs|].
  rewrite Hdirs. split; [apply last_snoc|]. split.
  - destruct (reverse ancestry) as [|z front] eqn:Hrev.
    + apply (f_equal reverse) in Hrev. rewrite reverse_involutive in Hrev.
      rewrite Hrev. reflexivity.
    + rewrite <- head_reverse, Hrev. reflexivity.
  - intros i.
    change (map views_of) with (fmap (M := list) views_of).
    rewrite lookup_app, list_lookup_fmap, length_fmap, length_reverse.
    destruct (decide (i < length ancestry)%nat) as [Hlt|Hge].
    + rewrite reverse_lookup by exact Hlt.
      destruct (ancestry !! (length ancestry - S i)%nat) eqn:E; [reflexivity|].
      apply lookup_ge_None in E. lia.
    + rewrite (lookup_ge_None_2 (reverse ancestry)) by (rewrite length_reverse; lia).
      simpl. destruct (decide (i = length ancestry)) as [->|Hne].
      * by rewrite Nat.sub_diag.
      * destruct (i - length ancestry)%nat as [|k] eqn:E; [lia|reflexivity].
Qed.

(** *** Escaping unless safe *)

Lemma escapeIfNeeded_is_safe s : exists val, escapeIfNeeded s = SafeString val.
Proof. destruct s as [val|v]; simpl; eauto. Qed.


(** *** Searching and replacing a plain string *)

Lemma matches_id_prefix pat s :
  matches id pat s = true <-> exists t, s = pat ++ t.
Proof.
  revert s. induction pat as [|c pat IH]; intros s; simpl.
  - split; [by exists s|done].
  - destruct s as [|d s]; [split; [done|by intros [t [=]]]|].
    unfold char_match, id. rewrite andb_true_iff, N.eqb_eq, IH.
    split.
    + intros [-> [t ->]]. by exists t.
    + intros [t [= -> ->]]. eauto.
Qed.

Lemma matches_self_app pat t : matches id pat (pat ++ t) = true.
Proof. apply matches_id_prefix. by exists t. Qed.

Lemma occurs_app_r canon pat a s :
  occurs canon pat s = true -> occurs canon pat (a ++ s) = true.
Proof.
  intros H. induction a as [|x a IH]; [exact H|].
  simpl. rewrite IH. apply orb_true_r.
Qed.

Lemma occurs_matches canon pat s :
  matches canon pat s = true -> occurs canon pat s = true.
Proof. destruct s; simpl; intros ->; reflexivity. Qed.

Lemma occurs_inside pat a b : occurs id pat (a ++ pat ++ b) = true.
Proof. apply occurs_app_r, occurs_matches, matches_self_app. Qed.

Lemma occurs_tail canon c pat s :
  occurs canon (c :: pat) s = true -> occurs canon pat s = true.
Proof.
  induction s as [|x s IH]; simpl; [done|].
  intros [H|H]%orb_prop.
  - apply andb_prop in H as [_ H]. rewrite (occurs_matches _ _ _ H).
    apply orb_true_r.
  - rewrite (IH H). apply orb_true_r.
Qed.

(** A match that starts in [a] lies within [a], or runs over its end. *)
Lemma matches_app_cases pat a s :
  matches id pat (a ++ s) = true ->
  matches id pat a = true
  \/ ((length a < length pat)%nat /\ matches id (drop (length a) pat) s = true).
Proof.
  revert a. induction pat as [|c pat IH]; intros a; [by left|].
  destruct a as [|x a]; simpl.
  - intros H. right. split; [lia|exact H].
  - intros [Hc H]%andb_prop. rewrite Hc. simpl.
    destruct (IH a H) as [Ha|[Hlen Hrest]]; [by left|].
    right. split; [lia|exact Hrest].
Qed.

Lemma matches_head_elem pat k c s :
  matches id (drop k pat) (c :: s) = true -> (k < length pat)%nat -> c ∈ drop k pat.
Proof.
  intros H Hk. destruct (drop k pat) as [|y rest] eqn:E.
  - apply (f_equal length) in E. rewrite length_drop in E. simpl in E. lia.
  - simpl in H. apply andb_prop in H as [Hy _].
    unfold char_match, id in Hy. apply N.eqb_eq in Hy. subst y.
    apply elem_of_cons. by left.
Qed.

Lemma elem_of_drop (c : code_unit) k l : c ∈ drop k l -> c ∈ l.
Proof.
  intros H. rewrite <- (take_drop k l). apply elem_of_app. by right.
Qed.

Lemma occurs_without_head c0 pt s : c0 ∉ s -> occurs id (c0 :: pt) s = false.
Proof.
  induction s as [|x s IH]; intros Hs; [reflexivity|].
  apply not_elem_of_cons in Hs as [Hx Hs].
  cbn [occurs matches]. rewrite (IH Hs), orb_false_r.
  unfold char_match, id. destruct (N.eqb_spec c0 x); [done|reflexivity].
Qed.

Lemma occurs_skip_prefix c0 pt a s :
  c0 ∉ a -> occurs id (c0 :: pt) (a ++ s) = occurs id (c0 :: pt) s.
Proof.
  induction a as [|x a IH]; intros Ha; [reflexivity|].
  apply not_elem_of_cons in Ha as [Hx Ha].
  change ((x :: a) ++ s) with (x :: (a ++ s)). cbn [occurs matches].
  rewrite (IH Ha). unfold char_match, id.
  by destruct (N.eqb_spec c0 x).
Qed.

(** A code unit foreign to the pattern separates the matches. *)
Lemma occurs_across pat a c b :
  c ∉ pat -> occurs id pat a = false -> occurs id pat b = false ->
  occurs id pat (a ++ c :: b) = false.
Proof.
  intros Hc Ha Hb.
  assert (Hstraddle : forall a', matches id pat a' = false ->
                                 matches id pat (a' ++ c :: b) = false).
  { intros a' Ha'. destruct (matches id pat (a' ++ c :: b)) eqn:E; [|reflexivity].
    apply matches_app_cases in E as [E|[Hlen E]]; [congruence|].
    apply matches_head_elem, elem_of_drop in E; [|exact Hlen]. done. }
  induction a as [|x a IH].
  - simpl. rewrite Hb, orb_false_r. apply (Hstraddle []).
    destruct pat; [discriminate|reflexivity].
  - cbn [occurs] in Ha. apply orb_false_elim in Ha as [Hm Ha].
    change ((x :: a) ++ c :: b) with (x :: (a ++ c :: b)). cbn [occurs].
    rewrite (IH Ha), orb_false_r. exact (Hstraddle (x :: a) Hm).
Qed.

(** Replacing the first occurrence, where it is known. *)
Lemma replace_first_occurrence c0 pt rep a b :
  c0 ∉ pt -> occurs id (c0 :: pt) a = false ->
  replace (c0 :: pt) rep (a ++ (c0 :: pt) ++ b) = a ++ rep ++ b.
Proof.
  intros Hc Ha. induction a as [|x a IH].
  - pose proof (matches_self_app (c0 :: pt) b) as Hself.
    cbn [app] in Hself |- *. cbn [replace]. rewrite Hself.
    change (drop (length (c0 :: pt)) (c0 :: pt ++ b))
      with (drop (length pt) (pt ++ b)).
    by rewrite drop_app_length.
  - cbn [occurs] in Ha. apply orb_false_elim in Ha as [Hm Ha].
    change ((x :: a) ++ (c0 :: pt) ++ b) with (x :: (a ++ (c0 :: pt) ++ b)).
    cbn [replace].
    destruct (matches id (c0 :: pt) (x :: a ++ (c0 :: pt) ++ b)) eqn:E.
    + apply (matches_app_cases (c0 :: pt) (x :: a)) in E as [E|[Hlen E]];
        [congruence|].
      apply matches_head_elem in E; [|exact Hlen].
      simpl in E. apply elem_of_drop in E. done.
    + by rewrite (IH Ha).
Qed.

Lemma endsWith_app a pat : endsWith (a ++ pat) pat = true.
Proof. unfold endsWith. rewrite reverse_app. apply matches_self_app. Qed.

Lemma endsWith_suffix s pat : endsWith s pat = true -> exists a, s = a ++ pat.
Proof.
  unfold endsWith. intros [t H]%matches_id_prefix.
  exists (reverse t). apply (f_equal reverse) in H.
  by rewrite reverse_involutive, reverse_app, reverse_involutive in H.
Qed.

(** A text is cut at a code unit that occurs once in one way only. *)
Lemma split_at_unique (c : code_unit) a r a' r' :
  c ∉ a -> c ∉ r -> a ++ c :: r = a' ++ c :: r' -> a = a' /\ r = r'.
Proof.
  revert a'. induction a as [|x a IH]; intros a' Ha Hr H.
  - destruct a' as [|x' a']; [by injection H|].
    injection H as -> ->. exfalso. apply Hr, elem_of_app. right.
    apply elem_of_cons. by left.
  - apply not_elem_of_cons in Ha as [Hx Ha].
    destruct a' as [|x' a']; injection H as -> H; [done|].
    by destruct (IH a' Ha Hr H) as [-> ->].
Qed.

(** *** Stripping the refresh flag *)

Lemma question_flag : str "?aposRefresh=1" = 63 :: str "aposRefresh=1".
Proof. vm_compute. reflexivity. Qed.

Lemma question_flag_ampersand :
  str "?aposRefresh=1&" = 63 :: str "aposRefresh=1" ++ [38].
Proof. vm_compute. reflexivity. Qed.

Lemma question_mark : str "?" = [63].
Proof. vm_compute. reflexivity. Qed.

Lemma ampersand_flag : str "&aposRefresh=1" = 38 :: str "aposRefresh=1".
Proof. vm_compute. reflexivity. Qed.

Lemma flag_has_no_question_mark : 63 ∉ str "aposRefresh=1".
Proof. apply (bool_decide_unpack _). vm_compute. exact I. Qed.

Lemma flag_has_no_ampersand : 38 ∉ str "aposRefresh=1".
Proof. apply (bool_decide_unpack _). vm_compute. exact I. Qed.

Lemma flag_length : length (str "aposRefresh=1") = 13%nat.
Proof. vm_compute. reflexivity. Qed.

(** The flag alone in the query string. *)
Lemma unrefreshed_alone p :
  63 ∉ p -> unrefreshed (p ++ str "?aposRefresh=1") = p.
Proof.
  intros Hp. unfold unrefreshed.
  assert (includes (p ++ str "?aposRefresh=1") (str "aposRefresh=1") = true) as ->.
  { unfold includes. rewrite question_flag.
    change (p ++ 63 :: str "aposRefresh=1") with (p ++ [63] ++ str "aposRefresh=1").
    rewrite app_assoc, <- (app_nil_r (str "aposRefresh=1")). apply occurs_inside. }
  rewrite endsWith_app. cbn [negb].
  rewrite <- (app_nil_r (str "?aposRefresh=1")) at 2. rewrite question_flag.
  rewrite replace_first_occurrence.
  - by rewrite !app_nil_r.
  - apply flag_has_no_question_mark.
  - by apply occurs_without_head.
Qed.

(** The flag first in the query string. *)
Lemma unrefreshed_first p q :
  63 ∉ p -> 63 ∉ q ->
  unrefreshed (p ++ str "?aposRefresh=1&" ++ q) = p ++ str "?" ++ q.
Proof.
  intros Hp Hq. unfold unrefreshed.
  assert (Hurl : p ++ str "?aposRefresh=1&" ++ q
                 = p ++ str "?aposRefresh=1" ++ 38 :: q).
  { rewrite question_flag_ampersand, question_flag. simpl.
    by rewrite <- app_assoc. }
  assert (includes (p ++ str "?aposRefresh=1&" ++ q) (str "aposRefresh=1") = true) as ->.
  { unfold includes. rewrite Hurl, question_flag.
    change (p ++ (63 :: str "aposRefresh=1") ++ 38 :: q)
      with (p ++ [63] ++ str "aposRefresh=1" ++ 38 :: q).
    rewrite app_assoc. apply occurs_inside. }
  assert (endsWith (p ++ str "?aposRefresh=1&" ++ q) (str "?aposRefresh=1") = false) as ->.
  { destruct (endsWith _ _) eqn:E; [|reflexivity].
    apply endsWith_suffix in E as [a E]. rewrite Hurl, question_flag in E.
    apply split_at_unique in E as [_ E]; [| exact Hp |].
    - apply (f_equal length) in E. rewrite length_app, flag_length in E. simpl in E. lia.
    - intros [H|H]%elem_of_app; [by apply flag_has_no_question_mark|].
      apply elem_of_cons in H as [H|H]; [discriminate|done]. }
  assert (includes (p ++ str "?aposRefresh=1&" ++ q) (str "?aposRefresh=1") = true) as ->.
  { unfold includes. rewrite Hurl. apply occurs_inside. }
  cbn [negb]. rewrite question_flag_ampersand.
  rewrite replace_first_occurrence; [reflexivity| |by apply occurs_without_head].
  intros [H|H]%elem_of_app; [by apply flag_has_no_question_mark|].
  apply list_elem_of_singleton in H. discriminate.
Qed.

(** The flag after other parameters, last or followed by more. *)
Lemma unrefreshed_later p q r :
  63 ∉ p -> includes p (str "&aposRefresh=1") = false ->
  63 ∉ q -> includes q (str "aposRefresh=1") = false ->
  63 ∉ r ->
  unrefreshed (p ++ str "?" ++ q ++ str "&aposRefresh=1" ++ r)
  = p ++ str "?" ++ q ++ r.
Proof.
  intros Hp Hpflag Hq Hqflag Hr. unfold unrefreshed.
  set (url := p ++ str "?" ++ q ++ str "&aposRefresh=1" ++ r).
  set (flag := str "aposRefresh=1") in *.
  assert (Hurl : url = p ++ 63 :: q ++ (38 :: flag) ++ r).
  { unfold url. by rewrite ampersand_flag, question_mark. }
  assert (Hrest : 63 ∉ q ++ (38 :: flag) ++ r).
  { intros [H|H]%elem_of_app; [done|].
    apply elem_of_app in H as [H|H]; [|done].
    apply elem_of_cons in H as [H|H]; [discriminate|].
    by apply flag_has_no_question_mark. }
  assert (includes url flag = true) as ->.
  { unfold includes. rewrite Hurl.
    replace (p ++ 63 :: q ++ (38 :: flag) ++ r)
      with ((p ++ 63 :: q ++ [38]) ++ flag ++ r)
      by (rewrite <- !app_assoc; simpl; by rewrite <- !app_assoc).
    apply occurs_inside. }
  assert (endsWith url (str "?aposRefresh=1") = false) as ->.
  { destruct (endsWith _ _) eqn:E; [|reflexivity].
    apply endsWith_suffix in E as [a E]. rewrite question_flag, Hurl in E. fold flag in E.
    apply (split_at_unique 63 p) in E as [_ E]; [|exact Hp|exact Hrest].
    apply (f_equal length) in E. rewrite !length_app in E. simpl in E.
    unfold flag in E. rewrite flag_length in E. lia. }
  assert (includes url (str "?aposRefresh=1") = false) as ->.
  { unfold includes. rewrite question_flag, Hurl. fold flag.
    rewrite occurs_skip_prefix by exact Hp.
    cbn [occurs matches].
    rewrite (occurs_without_head 63 flag _ Hrest), orb_false_r.
    unfold char_match. rewrite N.eqb_refl. cbn [andb].
    destruct (matches id flag (q ++ (38 :: flag) ++ r)) eqn:E; [|reflexivity].
    apply matches_app_cases in E as [E|[Hlen E]].
    - apply occurs_matches in E. unfold includes in Hqflag. congruence.
    - apply matches_head_elem, elem_of_drop in E; [|exact Hlen].
      by apply flag_has_no_ampersand in E. }
  cbn [negb]. rewrite Hurl, ampersand_flag, question_mark. fold flag.
  replace (p ++ 63 :: q ++ (38 :: flag) ++ r)
    with ((p ++ 63 :: q) ++ (38 :: flag) ++ r) by (by rewrite <- app_assoc).
  rewrite replace_first_occurrence.
  - by rewrite <- app_assoc.
  - apply flag_has_no_ampersand.
  - apply occurs_across.
    + intros H. apply elem_of_cons in H as [H|H]; [discriminate|].
      by apply flag_has_no_question_mark.
    + unfold includes in Hpflag. by rewrite ampersand_flag in Hpflag.
    + destruct (occurs id (38 :: flag) q) eqn:E; [|reflexivity].
      apply occurs_tail in E. unfold includes in Hqflag. congruence.
Qed.

(** C7: the refresh flag is removed from the page URL whether it stands
    alone, first, last or in the middle of the query string, and no
    dangling [?] or [&] is left: on the four example URLs, and on every
    URL of these shapes whose path [p] and other parameters
    [q], [r] hold neither a question mark nor the flag. *)
Theorem unrefreshed_strips_flag :
  unrefreshed (str "/page?aposRefresh=1") = str "/page"
  /\ unrefreshed (str "/page?aposRefresh=1&x=2") = str "/page?x=2"
  /\ unrefreshed (str "/page?x=2&aposRefresh=1") = str "/page?x=2"
  /\ unrefreshed (str "/page?x=2&aposRefresh=1&y=3") = str "/page?x=2&y=3"
  /\ (forall p, 63 ∉ p -> unrefreshed (p ++ str "?aposRefresh=1") = p)
  /\ (forall p q,
        63 ∉ p -> 63 ∉ q ->
        unrefreshed (p ++ str "?aposRefresh=1&" ++ q) = p ++ str "?" ++ q)
  /\ (forall p q r,
        63 ∉ p -> includes p (str "&aposRefresh=1") = false ->
        63 ∉ q -> includes q (str "aposRefresh=1") = false ->
        63 ∉ r ->
        unrefreshed (p ++ str "?" ++ q ++ str "&aposRefresh=1" ++ r)
        = p ++ str "?" ++ q ++ r).
Proof.
  split; [vm_compute; reflexivity|].
  split; [vm_compute; reflexivity|].
  split; [vm_compute; reflexivity|].
  split; [vm_compute; reflexivity|].
  split; [exact unrefreshed_alone|].
  split; [exact unrefreshed_first|exact unrefreshed_later].
Qed.

(** *** Trimming *)

Lemma trimStart_suffix s : exists front, s = front ++ trimStart s.
Proof.
  induction s as [|c s [front IH]]; simpl.
  - by exists [].
  - destruct (is_whitespace c).
    + exists (c :: front). simpl. by rewrite <- IH.
    + by exists [].
Qed.

Lemma trimStart_head s c : head (trimStart s) = Some c -> is_whitespace c = false.
Proof.
  induction s as [|d s IH]; simpl; [discriminate|].
  destruct (is_whitespace d) eqn:E; [exact IH|].
  simpl. intros [= <-]. exact E.
Qed.

Lemma trimStart_fixed s :
  match head s with Some c => negb (is_whitespace c) | None => true end = true ->
  trimStart s = s.
Proof.
  destruct s as [|c s]; simpl; [reflexivity|].
  by destruct (is_whitespace c).
Qed.

Lemma trimEnd_prefix s : exists back, s = trimEnd s ++ back.
Proof.
  destruct (trimStart_suffix (reverse s)) as [front H].
  exists (reverse front). unfold trimEnd.
  rewrite <- reverse_app, <- H. by rewrite reverse_involutive.
Qed.

Lemma trimEnd_last s c : last (trimEnd s) = Some c -> is_whitespace c = false.
Proof. unfold trimEnd. rewrite last_reverse. apply trimStart_head. Qed.

Lemma trimEnd_head s c : head (trimEnd s) = Some c -> head s = Some c.
Proof.
  destruct (trimEnd_prefix s) as [back H]. intros Hc.
  rewrite H. destruct (trimEnd s); [discriminate|exact Hc].
Qed.

Lemma trimEnd_fixed s :
  match last s with Some c => negb (is_whitespace c) | None => true end = true ->
  trimEnd s = s.
Proof.
  intros H. unfold trimEnd. rewrite trimStart_fixed.
  - apply reverse_involutive.
  - by rewrite head_reverse.
Qed.

Lemma trim_is_trimmed s : is_trimmed (trim s) = true.
Proof.
  unfold is_trimmed, trim. apply andb_true_intro. split.
  - destruct (head (trimEnd (trimStart s))) as [c|] eqn:E; [|reflexivity].
    apply trimEnd_head, trimStart_head in E. by rewrite E.
  - destruct (last (trimEnd (trimStart s))) as [c|] eqn:E; [|reflexivity].
    apply trimEnd_last in E. by rewrite E.
Qed.

Lemma trim_fixed s : is_trimmed s = true -> trim s = s.
Proof.
  unfold is_trimmed. intros [Hh Hl]%andb_prop. unfold trim.
  rewrite (trimStart_fixed s Hh). by apply trimEnd_fixed.
Qed.

Lemma trim_idempotent s : trim (trim s) = trim s.
Proof. apply trim_fixed, trim_is_trimmed. Qed.

(** *** Rendering nodes *)

Lemma renderNodes_array items :
  renderNodes (Nodes items)
  = (pieces ← (rendered_pieces (map renderNode items)).1;
     Normal (trim (concat pieces)),
     (rendered_pieces (map renderNode items)).2).
Proof.
  cbn [renderNodes]. by destruct (rendered_pieces (map renderNode items)).
Qed.

(** The callbacks run from left to right, up to the first that
    throws. *)
Lemma rendered_pieces_app r1 r2 :
  rendered_pieces (r1 ++ r2)
  = match (rendered_pieces r1).1 with
    | Normal p1 =>
        (p2 ← (rendered_pieces r2).1; Normal (p1 ++ p2),
         (rendered_pieces r1).2 ++ (rendered_pieces r2).2)
    | Throw e => (Throw e, (rendered_pieces r1).2)
    end.
Proof.
  induction r1 as [|[[piece|e] logged] r1 IH]; cbn [app rendered_pieces].
  - simpl. by destruct (rendered_pieces r2) as [[p2|e] l2].
  - rewrite IH. destruct (rendered_pieces r1) as [[p1|e] l1]; simpl; [|reflexivity].
    destruct (rendered_pieces r2) as [[p2|e] l2]; simpl; by rewrite ?app_assoc.
  - reflexivity.
Qed.

Lemma rendered_pieces_cons r rest :
  rendered_pieces (r :: rest)
  = match r.1 with
    | Normal piece =>
        (pieces ← (rendered_pieces rest).1; Normal (piece :: pieces),
         r.2 ++ (rendered_pieces rest).2)
    | Throw e => (Throw e, r.2)
    end.
Proof.
  destruct r as [[piece|e] logged]; cbn [rendered_pieces fst snd]; [|reflexivity].
  by destruct (rendered_pieces rest).
Qed.

Lemma renderNode_malformed n :
  malformed n = true -> renderNode n = (Normal [], [invalid_node]).
Proof.
  destruct n as [text comment raw name attrs body| |]; [|discriminate..]. simpl.
  intros [[[Ht Hc]%andb_prop Hr]%andb_prop Hn]%andb_prop.
  apply negb_true_iff in Ht, Hc, Hr, Hn. by rewrite Ht, Hc, Hr, Hn.
Qed.

Lemma renderNode_element text comment raw name attrs body :
  truthy text = false -> truthy comment = false -> truthy raw = false ->
  truthy name = true ->
  renderNode (Node text comment raw name attrs (Some body))
  = (inner ← (renderNodes body).1;
     Normal (str "<" ++ escapeHtml name ++ element_attrs attrs ++ str ">"
               ++ trim inner ++ str "</" ++ escapeHtml name ++ str ">"),
     (renderNodes body).2).
Proof.
  intros Ht Hc Hr Hn. simpl. rewrite Ht, Hc, Hr, Hn.
  by destruct (renderNodes body).
Qed.

(** Only a null or undefined element makes the rendering throw. *)
Lemma renderNode_objects :
  forall n, holds_objects n = true -> exists html, (renderNode n).1 = Normal html.
Proof.
  fix IH 1. intros [text comment raw name attrs body| |] Hn; [|discriminate..].
  cbn [renderNode].
  destruct (truthy text); [by eexists|].
  destruct (truthy comment); [by eexists|].
  destruct (truthy raw); [by eexists|].
  destruct (truthy name); [|by eexists].
  destruct body as [[items|]|].
  - assert (Hitems : exists pieces,
               (rendered_pieces (map renderNode items)).1 = Normal pieces).
    { cbn [holds_objects] in Hn. clear -IH Hn.
      induction items as [|n items IHitems]; [by eexists|].
      cbn [forallb] in Hn. apply andb_prop in Hn as [Hn Hrest].
      destruct (IH n Hn) as [html Hhtml]. destruct (IHitems Hrest) as [pieces Hpieces].
      cbn [map]. rewrite rendered_pieces_cons, Hhtml, Hpieces. by eexists. }
    destruct Hitems as [pieces Hpieces].
    rewrite renderNodes_array, Hpieces. by eexists.
  - by eexists.
  - destruct (voidElements (escapeHtml name)); by eexists.
Qed.

Lemma renderNodes_objects items :
  forallb holds_objects items = true ->
  exists html, (renderNodes (Nodes items)).1 = Normal html.
Proof.
  intros Hitems. rewrite renderNodes_array.
  assert (H : exists pieces, (rendered_pieces (map renderNode items)).1 = Normal pieces).
  { induction items as [|n items IH]; [by eexists|].
    cbn [forallb] in Hitems. apply andb_prop in Hitems as [Hn Hrest].
    destruct (renderNode_objects n Hn) as [html Hhtml].
    destruct (IH Hrest) as [pieces Hpieces].
    cbn [map]. rewrite rendered_pieces_cons, Hhtml, Hpieces. by eexists. }
  destruct H as [pieces ->]. by eexists.
Qed.

(** An element that contributes the empty string does not change the
    outcome of the call. *)
Lemma rendered_pieces_empty_piece r1 logged r2 :
  (pieces ← (rendered_pieces (r1 ++ (Normal [], logged) :: r2)).1;
   Normal (trim (concat pieces)))
  = (pieces ← (rendered_pieces (r1 ++ r2)).1; Normal (trim (concat pieces))).
Proof.
  rewrite !rendered_pieces_app, rendered_pieces_cons. cbn [fst snd].
  destruct (rendered_pieces r1) as [[p1|e] l1]; cbn [fst snd]; [|reflexivity].
  destruct (rendered_pieces r2) as [[p2|e] l2]; cbn [fst snd mbind completion_bind];
    [|reflexivity].
  by rewrite !concat_app.
Qed.


(** C10: the HTML of every [renderNodes] call that returns is trimmed
    at both ends, and the rendered body of a named element is trimmed
    before it is put between the open and the close tag; so the white
    space around a text that is the only child of an element is not
    emitted. *)
Theorem renderNodes_trims_boundaries :
  (forall ns html,
      (renderNodes ns).1 = Normal html ->
      is_trimmed html = true /\ trim html = html)
  /\ (forall text comment raw name attrs body html,
        truthy text = false -> truthy comment = false -> truthy raw = false ->
        truthy name = true ->
        (renderNode (Node text comment raw name attrs (Some body))).1 = Normal html ->
        exists open inner rendered,
          (renderNodes body).1 = Normal rendered
          /\ html = open ++ inner ++ str "</" ++ escapeHtml name ++ str ">"
          /\ inner = trim rendered
          /\ is_trimmed inner = true)
  /\ (forall name text,
        truthy name = true -> truthy text = true ->
        (renderNodes
           (Nodes [Node VUndefined VUndefined VUndefined name VUndefined
                     (Some (Nodes [Node text VUndefined VUndefined VUndefined
                                     VUndefined None]))])).1
        = Normal (trim (str "<" ++ escapeHtml name ++ str ">" ++ trim (escapeHtml text)
                          ++ str "</" ++ escapeHtml name ++ str ">"))).
Proof.
  split; [|split].
  - intros [items|] html; [|intros [= <-]; by split].
    rewrite renderNodes_array. cbn [fst].
    destruct (rendered_pieces (map renderNode items)).1 as [pieces|e]; [|discriminate].
    intros [= <-]. split; [apply trim_is_trimmed|apply trim_idempotent].
  - intros text comment raw name attrs body html Ht Hc Hr Hn.
    rewrite renderNode_element by assumption. cbn [fst].
    destruct (renderNodes body).1 as [rendered|e]; [|discriminate].
    intros [= <-].
    eexists (str "<" ++ escapeHtml name ++ element_attrs attrs ++ str ">"), _, rendered.
    split; [reflexivity|]. split; [|split; [reflexivity|apply trim_is_trimmed]].
    rewrite <- !app_assoc. reflexivity.
  - intros name text Hn Ht.
    rewrite renderNodes_array. cbn [map].
    rewrite renderNode_element by (reflexivity || assumption).
    rewrite renderNodes_array. simpl. rewrite Ht. simpl.
    rewrite trim_idempotent, !app_nil_r. reflexivity.
Qed.

(** *** The data object of a template *)

Lemma is_undefined_true v : is_undefined v = true -> v = VUndefined.
Proof. by destruct v. Qed.

Lemma first_defined_defined k props v :
  first_defined k props = Some v -> is_undefined v = false.
Proof.
  induction props as [|[k' w] rest IH]; simpl; [discriminate|].
  destruct (jsstring_eqb k' k && negb (is_undefined w)) eqn:E; [|exact IH].
  intros [= <-]. apply andb_prop in E as [_ E]. by apply negb_true_iff in E.
Qed.

Lemma read_insert (m : gmap jsstring value) k k' v :
  read (<[k' := v]> m) k = if decide (k' = k) then v else read m k.
Proof.
  unfold read. rewrite lookup_insert. by destruct (decide (k' = k)).
Qed.

Lemma read_defaults_step (object : gmap jsstring value) p k :
  k <> str "__proto__" ->
  read (defaults_step object p) k
  = if is_undefined (read object k) && jsstring_eqb (fst p) k then snd p
    else read object k.
Proof.
  intros Hk. destruct p as [k' v]. unfold defaults_step, jsstring_eqb. simpl.
  case_bool_decide as Hp.
  - case_bool_decide as Hkk; [congruence|]. by rewrite andb_false_r.
  - case_bool_decide as Hkk.
    + subst k'. unfold read at 2 3.
      destruct (object !! k) as [[]|] eqn:E; simpl;
        rewrite ?read_insert, ?decide_True by done; try reflexivity;
        unfold read; by rewrite E.
    + rewrite andb_false_r.
      destruct (object !! k') as [[]|]; rewrite ?read_insert, ?decide_False by done;
        reflexivity.
Qed.

Lemma read_fold_defaults (props : list (jsstring * value))
    (object : gmap jsstring value) k :
  k <> str "__proto__" ->
  read (fold_left defaults_step props object) k
  = if is_undefined (read object k)
    then default VUndefined (first_defined k props)
    else read object k.
Proof.
  intros Hk. revert object.
  induction props as [|p rest IH]; intros object; simpl.
  - destruct (is_undefined (read object k)) eqn:E; [|reflexivity].
    by apply is_undefined_true in E.
  - rewrite IH, read_defaults_step by exact Hk.
    destruct (is_undefined (read object k)) eqn:E; simpl.
    + destruct (jsstring_eqb (fst p) k) eqn:Ek; simpl.
      * destruct (is_undefined (snd p)) eqn:Ep; simpl; reflexivity.
      * by rewrite E.
    + by rewrite E.
Qed.

Lemma proto_fold_defaults (props : list (jsstring * value))
    (object : gmap jsstring value) :
  fold_left defaults_step props object !! str "__proto__"
  = object !! str "__proto__".
Proof.
  revert object. induction props as [|[k v] rest IH]; intros object; simpl;
    [reflexivity|].
  rewrite IH. unfold defaults_step, jsstring_eqb. simpl.
  case_bool_decide as Hk; [reflexivity|].
  destruct (object !! k) as [[]|]; rewrite ?lookup_insert_ne by done; reflexivity.
Qed.

(** One source merged into [object], as [getRenderDataArgs] does it. *)
Lemma read_merge_source (object : gmap jsstring value) source k :
  k <> str "__proto__" ->
  read (if truthy source then defaults object source else object) k
  = if is_undefined (read object k)
    then default VUndefined (supplied source k)
    else read object k.
Proof.
  intros Hk. unfold supplied, defaults.
  destruct (truthy source); [by apply read_fold_defaults|].
  destruct (is_undefined (read object k)) eqn:E; [|reflexivity].
  by apply is_undefined_true in E.
Qed.

Lemma by_priority_snoc k sources source :
  by_priority k (sources ++ [source])
  = if is_undefined (by_priority k sources)
    then default VUndefined (supplied source k)
    else by_priority k sources.
Proof.
  induction sources as [|s rest IH]; simpl.
  - by destruct (supplied source k).
  - destruct (supplied s k) as [v|] eqn:E; [|exact IH].
    unfold supplied in E. destruct (truthy s); [|discriminate].
    by rewrite (first_defined_defined _ _ _ E).
Qed.

(** C3, as the code has it: the explicit [data] argument has the
    highest priority, then [req.data], then the [user] and [permissions]
    derived from the request, then the module's [templateData]; an
    undefined value never overrides; [locale] is the merged locale when
    that is truthy and the locale of the request otherwise. *)
Theorem getRenderDataArgs_priority req data module :
  let merged := getRenderDataArgs req data module in
  let sources := [data; req_data req; request_defaults req; templateData module] in
  (forall k, k <> str "locale" -> k <> str "__proto__" ->
             read merged k = by_priority k sources)
  /\ read merged (str "locale")
     = js_or (by_priority (str "locale") sources) (req_locale req)
  /\ merged !! str "__proto__" = None.
Proof.
  intros merged sources.
  assert (Hchain : forall k, k <> str "__proto__" ->
    read (let m : gmap jsstring value := ∅ in
          let m := if truthy data then defaults m data else m in
          let m := if truthy (req_data req) then defaults m (req_data req) else m in
          let m := if truthy (request_defaults req)
                   then defaults m (request_defaults req) else m in
          if truthy (templateData module) then defaults m (templateData module) else m) k
    = by_priority k sources).
  { intros k Hk. cbv zeta.
    change sources with
      (((([] ++ [data]) ++ [req_data req]) ++ [request_defaults req])
         ++ [templateData module]).
    rewrite !by_priority_snoc, !read_merge_source by exact Hk.
    reflexivity. }
  split; [|split].
  - intros k Hl Hk. rewrite <- (Hchain k Hk).
    unfold merged, getRenderDataArgs. cbv zeta.
    rewrite read_insert, decide_False by done. reflexivity.
  - rewrite <- (Hchain (str "locale")) by (vm_compute; discriminate).
    unfold merged, getRenderDataArgs. cbv zeta.
    rewrite read_insert, decide_True by done. reflexivity.
  - unfold merged, getRenderDataArgs. cbv zeta.
    rewrite lookup_insert_ne by (vm_compute; discriminate).
    unfold defaults.
    repeat match goal with
           | |- context [if ?b then _ else _] => destruct b
           end;
      rewrite ?proto_fold_defaults; reflexivity.
Qed.

(** *** Resolving insertions *)

Lemma when_is_not_bundler : str "when" <> str "bundler".
Proof. vm_compute. discriminate. Qed.

Lemma is_array_truthy v : is_array v = true -> truthy v = true.
Proof. by destruct v. Qed.

Lemma normalize_when_array c :
  is_array (read c (str "when")) = true -> normalize_when c = c.
Proof. unfold normalize_when. by intros ->. Qed.

Lemma read_normalize_when c :
  read (normalize_when c) (str "when")
  = if is_array (read c (str "when")) then read c (str "when")
    else if truthy (read c (str "when")) then VArr [read c (str "when")]
         else VArr [].
Proof.
  unfold normalize_when.
  destruct (is_array (read c (str "when"))); [reflexivity|].
  by rewrite read_insert, decide_True.
Qed.

Lemma read_normalize_bundler c :
  read (normalize_when c) (str "bundler") = read c (str "bundler").
Proof.
  unfold normalize_when.
  destruct (is_array (read c (str "when"))); [reflexivity|].
  rewrite read_insert, decide_False; [reflexivity|apply when_is_not_bundler].
Qed.

Lemma is_array_normalize_when c :
  is_array (read (normalize_when c) (str "when")) = true.
Proof.
  rewrite read_normalize_when.
  destruct (is_array (read c (str "when"))) eqn:E; [exact E|].
  by destruct (truthy (read c (str "when"))).
Qed.

Lemma normalize_when_idempotent c :
  normalize_when (normalize_when c) = normalize_when c.
Proof. apply normalize_when_array, is_array_normalize_when. Qed.

Lemma normalized_from_refl c : normalized_from c c.
Proof. by left. Qed.

Lemma normalized_from_trans a b c :
  normalized_from a b -> normalized_from b c -> normalized_from a c.
Proof.
  intros [->| ->] [->| ->]; unfold normalized_from;
    rewrite ?normalize_when_idempotent; auto.
Qed.

(** The callback leaves the object as it was, or normalised. *)
Lemma resolve_conditions_object asset data c :
  normalized_from c (resolve_conditions asset data c).1.1.
Proof.
  unfold resolve_conditions.
  destruct (_ && _ && _); [by left|].
  destruct (resolve_normalized asset data (normalize_when c)). by right.
Qed.

(** Normalising the object beforehand changes neither what is logged
    nor the decision, and the callback then leaves the object alone. *)
Lemma resolve_conditions_normalized asset data c :
  resolve_conditions asset data (normalize_when c)
  = (normalize_when c, (resolve_conditions asset data c).1.2,
     (resolve_conditions asset data c).2).
Proof.
  unfold resolve_conditions at 1.
  rewrite (is_array_truthy _ (is_array_normalize_when c)).
  rewrite andb_false_r. simpl. rewrite normalize_when_idempotent.
  unfold resolve_conditions.
  destruct (negb (truthy (read c (str "bundler"))) && negb (truthy (read c (str "when")))
            && negb (truthy (read data (str "when")))) eqn:Hbc.
  - apply andb_prop in Hbc as [[Hb Hw]%andb_prop Hd].
    apply negb_true_iff in Hb, Hw, Hd.
    unfold resolve_normalized.
    rewrite read_normalize_when, read_normalize_bundler, Hb, Hw, Hd.
    destruct (is_array (read c (str "when"))) eqn:Ha.
    + apply is_array_truthy in Ha. congruence.
    + reflexivity.
  - by destruct (resolve_normalized asset data (normalize_when c)).
Qed.

Lemma resolve_conditions_related asset data c c' :
  normalized_from c c' ->
  (resolve_conditions asset data c').1.2 = (resolve_conditions asset data c).1.2
  /\ (resolve_conditions asset data c').2 = (resolve_conditions asset data c).2
  /\ normalized_from (resolve_conditions asset data c).1.1
                     (resolve_conditions asset data c').1.1.
Proof.
  intros [->| ->]; [by repeat split; try left|].
  rewrite resolve_conditions_normalized. simpl. repeat split.
  destruct (resolve_conditions_object asset data c) as [->| ->]; [by right|by left].
Qed.

Lemma store_normalized_from_refl store : store_normalized_from store store.
Proof. intros ref. apply normalized_from_refl. Qed.

Lemma store_normalized_from_trans a b c :
  store_normalized_from a b -> store_normalized_from b c ->
  store_normalized_from a c.
Proof. intros Hab Hbc ref. eapply normalized_from_trans; [apply Hab|apply Hbc]. Qed.

Lemma resolve_entry_store asset data store entry :
  store_normalized_from store (resolve_entry asset data store entry).1.1.
Proof.
  unfold resolve_entry. destruct (conditions entry) as [| |ref].
  - destruct (resolve_conditions asset data ∅) as [[? ?] ?].
    apply store_normalized_from_refl.
  - apply store_normalized_from_refl.
  - pose proof (resolve_conditions_object asset data (default ∅ (store !! ref))) as H.
    destruct (resolve_conditions asset data (default ∅ (store !! ref))) as [[o l] r].
    simpl in *. intros ref'. rewrite lookup_insert.
    destruct (decide (ref = ref')) as [->|Hne]; [exact H|].
    apply normalized_from_refl.
Qed.

Lemma resolve_entry_related asset data store store' entry :
  store_normalized_from store store' ->
  (resolve_entry asset data store' entry).1.2 = (resolve_entry asset data store entry).1.2
  /\ (resolve_entry asset data store' entry).2 = (resolve_entry asset data store entry).2
  /\ store_normalized_from (resolve_entry asset data store entry).1.1
                           (resolve_entry asset data store' entry).1.1.
Proof.
  intros Hstore. unfold resolve_entry. destruct (conditions entry) as [| |ref].
  - destruct (resolve_conditions asset data ∅) as [[? ?] ?]. by repeat split.
  - by repeat split.
  - pose proof (resolve_conditions_related asset data _ _ (Hstore ref)) as (Hl & Hr & Ho).
    destruct (resolve_conditions asset data (default ∅ (store !! ref))) as [[o l] r].
    destruct (resolve_conditions asset data (default ∅ (store' !! ref))) as [[o' l'] r'].
    simpl in *. repeat split; [exact Hl|exact Hr|].
    intros ref'. rewrite !lookup_insert.
    destruct (decide (ref = ref')); [exact Ho|apply Hstore].
Qed.

Lemma resolve_entries_store asset data store entries :
  store_normalized_from store (resolve_entries asset data store entries).1.1.
Proof.
  revert store. induction entries as [|entry rest IH]; intros store; simpl.
  - apply store_normalized_from_refl.
  - pose proof (resolve_entry_store asset data store entry) as Hstep.
    destruct (resolve_entry asset data store entry) as [[s l] [pushed|e]]; simpl in *;
      [|exact Hstep].
    specialize (IH s).
    destruct (resolve_entries asset data s rest) as [[s' l'] r']. simpl in *.
    eapply store_normalized_from_trans; eassumption.
Qed.

Lemma resolve_entries_related asset data store store' entries :
  store_normalized_from store store' ->
  (resolve_entries asset data store' entries).1.2
  = (resolve_entries asset data store entries).1.2
  /\ (resolve_entries asset data store' entries).2
     = (resolve_entries asset data store entries).2
  /\ store_normalized_from (resolve_entries asset data store entries).1.1
                           (resolve_entries asset data store' entries).1.1.
Proof.
  revert store store'. induction entries as [|entry rest IH]; intros store store' Hstore;
    simpl; [by repeat split|].
  pose proof (resolve_entry_related asset data _ _ entry Hstore) as (Hl & Hr & Hs).
  destruct (resolve_entry asset data store entry) as [[s l] r].
  destruct (resolve_entry asset data store' entry) as [[s' l'] r'].
  simpl in *. subst l' r'. destruct r as [pushed|e]; [|by repeat split].
  specialize (IH _ _ Hs) as (Hl' & Hr' & Hs').
  destruct (resolve_entries asset data s rest) as [[t m] q].
  destruct (resolve_entries asset data s' rest) as [[t' m'] q'].
  simpl in *. subst m' q'. by repeat split.
Qed.

Lemma no_conditions_normalize_when c :
  no_conditions c = true -> no_conditions (normalize_when c) = true.
Proof.
  unfold no_conditions.
  rewrite read_normalize_when, read_normalize_bundler.
  intros [Hb Hw]%andb_prop. rewrite Hb. simpl.
  destruct (read c (str "when")) as [| |[]|n|[|]| |[|]|]; simpl in *; try done.
  by destruct (Number_toBoolean n).
Qed.

Lemma unconditional_preserved store store' entry :
  store_normalized_from store store' ->
  unconditional store entry -> unconditional store' entry.
Proof.
  unfold unconditional. intros Hstore.
  destruct (conditions entry) as [| |ref]; try done.
  destruct (Hstore ref) as [->| ->]; [done|apply no_conditions_normalize_when].
Qed.

Lemma resolve_conditions_no_conditions asset data c :
  no_conditions c = true ->
  (resolve_conditions asset data c).1.2 = []
  /\ (resolve_conditions asset data c).2
     = Normal (negb (truthy (read data (str "when")))).
Proof.
  intros Hc. pose proof (no_conditions_normalize_when c Hc) as Hn.
  unfold no_conditions in Hc, Hn.
  apply andb_prop in Hc as [Hb Hw]. apply andb_prop in Hn as [Hb' Hw'].
  unfold resolve_conditions. rewrite Hb. simpl.
  destruct (negb (truthy (read c (str "when")))
            && negb (truthy (read data (str "when")))) eqn:Hbc.
  - apply andb_prop in Hbc as [_ ->]. by split.
  - rewrite (is_array_truthy _ (is_array_normalize_when c)) in Hw'. simpl in Hw'.
    unfold resolve_normalized.
    apply negb_true_iff in Hb'. rewrite Hb'.
    destruct (read (normalize_when c) (str "when")) as [| | | | | |[|]|];
      try discriminate.
    simpl. destruct (truthy (read data (str "when"))); simpl; by split.
Qed.

Lemma no_conditions_empty : no_conditions (∅ : gmap jsstring value) = true.
Proof. reflexivity. Qed.

Lemma resolve_entry_unconditional asset data store entry :
  unconditional store entry ->
  (resolve_entry asset data store entry).1.2 = []
  /\ (resolve_entry asset data store entry).2
     = Normal (negb (truthy (read data (str "when")))).
Proof.
  unfold unconditional, resolve_entry. destruct (conditions entry) as [| |ref].
  - intros _.
    pose proof (resolve_conditions_no_conditions asset data ∅ no_conditions_empty) as H.
    by destruct (resolve_conditions asset data ∅) as [[? ?] ?].
  - done.
  - intros Hc.
    pose proof (resolve_conditions_no_conditions asset data _ Hc) as H.
    by destruct (resolve_conditions asset data (default ∅ (store !! ref))) as [[? ?] ?].
Qed.

Lemma resolve_entries_includes asset data entries store components entry :
  (resolve_entries asset data store entries).2 = Normal components ->
  entry ∈ entries -> unconditional store entry ->
  truthy (read data (str "when")) = false ->
  component entry ∈ components.
Proof.
  intros Hrun Hin Hunc Htag. revert store components Hrun Hunc.
  induction entries as [|first rest IH]; intros store components Hrun Hunc;
    [by apply elem_of_nil in Hin|].
  simpl in Hrun.
  pose proof (resolve_entry_store asset data store first) as Hstore.
  pose proof (resolve_entry_unconditional asset data store first) as Hfirst.
  destruct (resolve_entry asset data store first) as [[s l] [pushed|e]];
    simpl in *; [|discriminate].
  destruct (resolve_entries asset data s rest) as [[s' l'] [found|e]] eqn:Hrest;
    simpl in Hrun; [|discriminate].
  injection Hrun as <-.
  apply elem_of_cons in Hin as [->|Hin].
  - destruct (Hfirst Hunc) as [_ [= ->]]. rewrite Htag. simpl. apply elem_of_cons; by left.
  - assert (component entry ∈ found) as Hfound.
    { apply (IH Hin s); [by rewrite Hrest|].
      by apply (unconditional_preserved store). }
    destruct pushed; [apply elem_of_cons; by right|exact Hfound].
Qed.

Lemma resolve_entries_unconditional asset data entries store :
  (forall entry, entry ∈ entries -> unconditional store entry) ->
  (resolve_entries asset data store entries).1.2 = []
  /\ (resolve_entries asset data store entries).2
     = Normal (if truthy (read data (str "when")) then []
               else map component entries).
Proof.
  revert store. induction entries as [|first rest IH]; intros store Hall; simpl.
  - by destruct (truthy (read data (str "when"))).
  - pose proof (resolve_entry_store asset data store first) as Hstore.
    destruct (resolve_entry_unconditional asset data store first) as [Hl Hr];
      [apply Hall, elem_of_cons; by left|].
    destruct (resolve_entry asset data store first) as [[s l] r]. simpl in *.
    subst l r.
    destruct (IH s) as [Hl' Hr'].
    { intros entry Hin. apply (unconditional_preserved store); [exact Hstore|].
      apply Hall, elem_of_cons; by right. }
    destruct (resolve_entries asset data s rest) as [[s' l'] r']. simpl in *.
    subst l' r'. by destruct (truthy (read data (str "when"))).
Qed.

(** C4, as the code has it: an entry registered with no conditions is
    included exactly when the call site supplies no phase tag; with a
    phase tag it is left out. *)
Theorem getInjectedComponents_unconditional asset key data self entries :
  insertions self !! key = Some entries ->
  (forall store entry,
      unconditional store entry ->
      (resolve_entry asset data store entry).2
      = Normal (negb (truthy (read data (str "when")))))
  /\ (forall entry components,
        entry ∈ entries -> unconditional (objects self) entry ->
        truthy (read data (str "when")) = false ->
        (getInjectedComponents asset key data self).2 = Normal components ->
        component entry ∈ components)
  /\ ((forall entry, entry ∈ entries -> unconditional (objects self) entry) ->
      (getInjectedComponents asset key data self).2
      = Normal (if truthy (read data (str "when")) then []
                else map component entries)).
Proof.
  intros Hkey. split; [|split].
  - intros store entry Hunc. by apply resolve_entry_unconditional.
  - intros entry components Hin Hunc Htag Hrun.
    unfold getInjectedComponents in Hrun. rewrite Hkey in Hrun.
    destruct (resolve_entries asset data (objects self) entries) as [[s l] r] eqn:E.
    simpl in Hrun. subst r.
    eapply resolve_entries_includes; [by rewrite E| | |]; eassumption.
  - intros Hall. unfold getInjectedComponents. rewrite Hkey.
    destruct (resolve_entries_unconditional asset data entries (objects self) Hall)
      as [_ Hr].
    by destruct (resolve_entries asset data (objects self) entries) as [[s l] r].
Qed.

Lemma normalized_from_frame c c' k :
  normalized_from c c' -> k <> str "when" -> c' !! k = c !! k.
Proof.
  intros [->| ->] Hk; [reflexivity|]. unfold normalize_when.
  destruct (is_array (read c (str "when"))); [reflexivity|].
  by rewrite lookup_insert_ne.
Qed.

(** C5, as the code has it: resolving insertions neither adds, removes
    nor reorders entries and creates no object, but it normalises in
    place the [when] of the condition objects it examines, and touches
    no other property; that changes no later answer: on the registry as
    the call leaves it, every call logs and returns what it would on
    the registry as it was. *)
Theorem getInjectedComponents_normalizes_in_place asset key data self :
  let after := (getInjectedComponents asset key data self).1.1 in
  insertions after = insertions self
  /\ next_ref after = next_ref self
  /\ store_normalized_from (objects self) (objects after)
  /\ (forall ref k,
        k <> str "when" ->
        default ∅ (objects after !! ref) !! k = default ∅ (objects self !! ref) !! k)
  /\ forall asset' key' data',
       (getInjectedComponents asset' key' data' after).2
       = (getInjectedComponents asset' key' data' self).2
       /\ (getInjectedComponents asset' key' data' after).1.2
          = (getInjectedComponents asset' key' data' self).1.2.
Proof.
  intros after.
  assert (Hafter : insertions after = insertions self
                   /\ next_ref after = next_ref self
                   /\ store_normalized_from (objects self) (objects after)).
  { unfold after, getInjectedComponents.
    destruct (insertions self !! key) as [entries|].
    - pose proof (resolve_entries_store asset data (objects self) entries) as H.
      by destruct (resolve_entries asset data (objects self) entries) as [[s l] r].
    - destruct (in_object_prototype key); repeat split;
        apply store_normalized_from_refl. }
  destruct Hafter as (Hins & Hnext & Hstore).
  split; [exact Hins|]. split; [exact Hnext|]. split; [exact Hstore|]. split.
  - intros ref k Hk. by apply normalized_from_frame.
  - intros asset' key' data'. unfold getInjectedComponents. rewrite Hins.
    destruct (insertions self !! key') as [entries|];
      [|by destruct (in_object_prototype key')].
    pose proof (resolve_entries_related asset' data' _ _ entries Hstore)
      as (Hl & Hr & _).
    destruct (resolve_entries asset' data' (objects self) entries) as [[s l] r].
    by destruct (resolve_entries asset' data' (objects after) entries) as [[s' l'] r'].
Qed.

(** *** Global replacement of a literal pattern *)

Section Replacement.

Variable canon : code_unit -> code_unit.

Lemma replace_global_from_skip p r k s :
  replace_global_from canon p r k s = replace_global canon p r (drop k s).
Proof.
  revert k. induction s as [|c s IH]; intros [|k]; try reflexivity.
  simpl. apply IH.
Qed.

Lemma replace_global_cons p r c s :
  replace_global canon p r (c :: s)
  = if matches canon p (c :: s)
    then r ++ replace_global canon p r (drop (length p - 1) s)
    else c :: replace_global canon p r s.
Proof.
  unfold replace_global at 1. cbn [replace_global_from].
  by rewrite replace_global_from_skip.
Qed.

Lemma matches_app_overlaps q u x :
  matches canon q (u ++ x) = true -> overlaps canon q u = true.
Proof.
  revert u. induction q as [|a q IH]; intros [|b u]; simpl; try done.
  intros [-> H]%andb_prop. simpl. by apply IH.
Qed.

Lemma occurs_app_never_inside q r x :
  never_inside canon q r = true -> occurs canon q x = false ->
  occurs canon q (r ++ x) = false.
Proof.
  intros Hr Hx. induction r as [|b r IH]; [exact Hx|].
  cbn [never_inside] in Hr. apply andb_prop in Hr as [Hb Hr].
  change ((b :: r) ++ x) with (b :: (r ++ x)). cbn [occurs]. rewrite (IH Hr).
  rewrite orb_false_r.
  destruct (matches canon q (b :: r ++ x)) eqn:E; [|reflexivity].
  apply (matches_app_overlaps q (b :: r) x) in E.
  apply negb_true_iff in Hb. congruence.
Qed.

Lemma stops_canon p0 r0 y c :
  canon y = canon c -> stops canon p0 r0 y = stops canon p0 r0 c.
Proof. unfold stops. by intros ->. Qed.

Lemma matches_segment p0 r0 qt t :
  forallb (fun y => negb (stops canon p0 r0 y)) qt = true ->
  matches canon qt t = matches canon qt (segment (stops canon p0 r0) t).
Proof.
  revert t. induction qt as [|y qt IH]; intros t Hq; [by destruct t|].
  cbn [forallb] in Hq. apply andb_prop in Hq as [Hy Hq].
  destruct t as [|c t]; [reflexivity|]. cbn [segment].
  destruct (stops canon p0 r0 c) eqn:Hc.
  - cbn [matches]. unfold char_match.
    destruct (canon y =? canon c) eqn:E; [|reflexivity].
    apply N.eqb_eq in E. rewrite (stops_canon p0 r0 y c E), Hc in Hy. discriminate.
  - cbn [matches]. by rewrite <- IH.
Qed.

Lemma segment_replace_global p0 p' r0 r' s :
  segment (stops canon p0 r0) (replace_global canon (p0 :: p') (r0 :: r') s)
  = segment (stops canon p0 r0) s.
Proof.
  induction s as [|c s IH]; [reflexivity|].
  rewrite replace_global_cons.
  destruct (matches canon (p0 :: p') (c :: s)) eqn:Hm.
  - cbn [matches] in Hm. apply andb_prop in Hm as [Hc _].
    unfold char_match in Hc. apply N.eqb_eq in Hc.
    cbn [app segment]. unfold stops at 1 3.
    rewrite <- Hc, !N.eqb_refl, orb_true_r. reflexivity.
  - cbn [segment]. by rewrite IH.
Qed.

Lemma guarded_tail q p c s :
  guarded canon q p (c :: s) = true -> guarded canon q p s = true.
Proof. cbn [guarded]. by intros [_ H]%andb_prop. Qed.

Lemma guarded_drop q p k s :
  guarded canon q p s = true -> guarded canon q p (drop k s) = true.
Proof.
  revert s. induction k as [|k IH]; intros [|c s] H; try exact H.
  apply IH. by apply guarded_tail in H.
Qed.

Lemma guarded_refl p s : guarded canon p p s = true.
Proof.
  induction s as [|c s IH]; cbn [guarded]; rewrite ?IH;
    by destruct (matches canon p _).
Qed.

Lemma occurs_false_guarded q p s :
  occurs canon q s = false -> guarded canon q p s = true.
Proof.
  induction s as [|c s IH]; cbn [occurs guarded];
    intros [-> H]%orb_false_elim; [reflexivity|].
  by rewrite IH.
Qed.

(** Where every match of [q] in the input starts a match of the
    pattern, no match of [q] is left after the replacement, provided the
    replacement text cannot take part in one. *)
Lemma replace_global_clears p0 p' r0 r' q s :
  tail_clear canon q p0 r0 = true ->
  never_inside canon q (r0 :: r') = true ->
  guarded canon q (p0 :: p') s = true ->
  occurs canon q (replace_global canon (p0 :: p') (r0 :: r') s) = false.
Proof.
  intros Htail Hinside.
  assert (Hq : exists q0 qt, q = q0 :: qt).
  { destruct q as [|q0 qt]; [discriminate|eauto]. }
  destruct Hq as (q0 & qt & ->).
  remember (length s) as n eqn:Hn. revert s Hn.
  induction n as [n IH] using lt_wf_ind. intros s Hn Hg.
  destruct s as [|c s]; [reflexivity|].
  rewrite replace_global_cons.
  destruct (matches canon (p0 :: p') (c :: s)) eqn:Hm.
  - apply occurs_app_never_inside; [exact Hinside|].
    apply (IH (length (drop (length (p0 :: p') - 1) s))); [|reflexivity|].
    + rewrite length_drop, Hn. simpl. lia.
    + by apply guarded_drop, (guarded_tail _ _ c).
  - cbn [occurs].
    rewrite (IH (length s)); [|subst n; simpl; lia|reflexivity|by apply (guarded_tail _ _ c)].
    rewrite orb_false_r. cbn [matches].
    unfold tail_clear in Htail. cbn [tl] in Htail.
    rewrite (matches_segment p0 r0 qt _ Htail), segment_replace_global,
      <- (matches_segment p0 r0 qt _ Htail).
    cbn [guarded] in Hg. apply andb_prop in Hg as [Hg _].
    rewrite Hm in Hg. cbn [matches] in Hg.
    by destruct (char_match canon q0 c && matches canon qt s).
Qed.

Lemma occurs_single c s : occurs canon [c] s = false -> forall d, d ∈ s -> canon c <> canon d.
Proof.
  induction s as [|e s IH]; intros H d Hd; [by apply elem_of_nil in Hd|].
  cbn [occurs matches] in H. apply orb_false_elim in H as [He H].
  apply elem_of_cons in Hd as [->|Hd]; [|by apply IH].
  unfold char_match in He. rewrite andb_true_r in He. by apply N.eqb_neq in He.
Qed.

End Replacement.

Lemma canonicalize_ascii_caseless p c :
  caseless p = true ->
  char_match canonicalize_ascii p c = char_match id p c.
Proof.
  unfold caseless, char_match, canonicalize_ascii, id. intros Hp.
  apply negb_true_iff, orb_false_elim in Hp as [Hu Hl].
  rewrite Hl.
  destruct ((97 <=? c) && (c <=? 122)) eqn:Hc; [|reflexivity].
  apply andb_prop in Hc as [H1 H2]. apply N.leb_le in H1, H2.
  destruct (p =? c) eqn:E1.
  - apply N.eqb_eq in E1. subst p.
    apply andb_false_iff in Hl as [Hl|Hl]; apply N.leb_gt in Hl; lia.
  - apply N.eqb_neq. intros ->.
    apply andb_false_iff in Hu as [Hu|Hu]; apply N.leb_gt in Hu; lia.
Qed.

Lemma matches_caseless p s :
  forallb caseless p = true ->
  matches canonicalize_ascii p s = matches id p s.
Proof.
  revert s. induction p as [|a p IH]; intros [|c s] Hp; try reflexivity.
  cbn [forallb] in Hp. apply andb_prop in Hp as [Ha Hp].
  cbn [matches]. by rewrite canonicalize_ascii_caseless, IH.
Qed.

Lemma occurs_caseless p s :
  forallb caseless p = true ->
  occurs canonicalize_ascii p s = occurs id p s.
Proof.
  intros Hp. induction s as [|c s IH]; cbn [occurs];
    rewrite matches_caseless by exact Hp; [reflexivity|by rewrite IH].
Qed.

Lemma replace_global_caseless p r s :
  forallb caseless p = true ->
  replace_global id p r s = replace_global canonicalize_ascii p r s.
Proof.
  intros Hp. unfold replace_global. generalize 0%nat as k.
  induction s as [|c s IH]; intros k; [reflexivity|].
  cbn [replace_global_from]. destruct k as [|k]; [|apply IH].
  rewrite matches_caseless by exact Hp.
  destruct (matches id p (c :: s)); by rewrite IH.
Qed.

Lemma matches_exact_insensitive p s :
  matches id p s = true -> matches canonicalize_ascii p s = true.
Proof.
  revert s. induction p as [|a p IH]; intros [|c s]; cbn [matches]; try done.
  intros [Ha H]%andb_prop. unfold char_match, id in Ha. apply N.eqb_eq in Ha.
  subst c. unfold char_match. by rewrite N.eqb_refl, IH.
Qed.

Lemma occurs_exact_insensitive p s :
  occurs canonicalize_ascii p s = false -> occurs id p s = false.
Proof.
  induction s as [|c s IH]; cbn [occurs]; intros [Hm H]%orb_false_elim.
  - destruct (matches id p []) eqn:E; [|reflexivity].
    apply matches_exact_insensitive in E. congruence.
  - rewrite (IH H), orb_false_r.
    destruct (matches id p (c :: s)) eqn:E; [|reflexivity].
    apply matches_exact_insensitive in E. congruence.
Qed.

Lemma replace_global_clears_literal canon p r q s :
  clears canon p r q = true ->
  guarded canon q p s = true ->
  occurs canon q (replace_global canon p r s) = false.
Proof.
  unfold clears. destruct p as [|p0 p']; [discriminate|].
  destruct r as [|r0 r']; [discriminate|].
  intros [Ht Hn]%andb_prop. by apply replace_global_clears.
Qed.

(** A replacement removes its own pattern. *)
Lemma replace_global_removes canon p r s :
  clears canon p r p = true ->
  occurs canon p (replace_global canon p r s) = false.
Proof. intros H. apply replace_global_clears_literal; [exact H|apply guarded_refl]. Qed.

(** A replacement brings in no match of a pattern that was absent. *)
Lemma replace_global_keeps_out canon p r q s :
  clears canon p r q = true ->
  occurs canon q s = false ->
  occurs canon q (replace_global canon p r s) = false.
Proof.
  intros H Hs. apply replace_global_clears_literal; [exact H|].
  by apply occurs_false_guarded.
Qed.

(** *** JSON for a script element *)

(** The four replacements of [jsonForHtml], on any text. *)
Lemma script_replacements_safe (json : jsstring) :
  let out :=
    replace_global id [8233] (92 :: str "u2029")
      (replace_global id [8232] (92 :: str "u2028")
         (replace_global canonicalize_ascii (str "</script>") (str "<\/script>")
            (replace_global id (str "<!--") (str "<\!--") json))) in
  occurs canonicalize_ascii (str "</script>") out = false
  /\ includes out (str "<!--") = false
  /\ (8232 ∉ out)
  /\ (8233 ∉ out).
Proof.
  intros out. unfold out.
  rewrite (replace_global_caseless [8233]), (replace_global_caseless [8232]),
    (replace_global_caseless (str "<!--")) by (vm_compute; reflexivity).
  set (d1 := replace_global canonicalize_ascii (str "<!--") _ json).
  set (d2 := replace_global canonicalize_ascii (str "</script>") _ d1).
  set (d3 := replace_global canonicalize_ascii [8232] _ d2).
  set (d4 := replace_global canonicalize_ascii [8233] _ d3).
  assert (H1 : occurs canonicalize_ascii (str "<!--") d1 = false).
  { apply replace_global_removes. vm_compute. reflexivity. }
  assert (H2 : occurs canonicalize_ascii (str "</script>") d2 = false).
  { apply replace_global_removes. vm_compute. reflexivity. }
  assert (H2' : occurs canonicalize_ascii (str "<!--") d2 = false).
  { apply replace_global_keeps_out; [vm_compute; reflexivity|exact H1]. }
  assert (H3 : occurs canonicalize_ascii [8232] d3 = false).
  { apply replace_global_removes. vm_compute. reflexivity. }
  assert (H3' : occurs canonicalize_ascii (str "<!--") d3 = false).
  { apply replace_global_keeps_out; [vm_compute; reflexivity|exact H2']. }
  assert (H3'' : occurs canonicalize_ascii (str "</script>") d3 = false).
  { apply replace_global_keeps_out; [vm_compute; reflexivity|exact H2]. }
  assert (H4 : occurs canonicalize_ascii [8233] d4 = false).
  { apply replace_global_removes. vm_compute. reflexivity. }
  assert (H4a : occurs canonicalize_ascii (str "<!--") d4 = false).
  { apply replace_global_keeps_out; [vm_compute; reflexivity|exact H3']. }
  assert (H4b : occurs canonicalize_ascii (str "</script>") d4 = false).
  { apply replace_global_keeps_out; [vm_compute; reflexivity|exact H3'']. }
  assert (H4c : occurs canonicalize_ascii [8232] d4 = false).
  { apply replace_global_keeps_out; [vm_compute; reflexivity|exact H3]. }
  split; [exact H4b|]. split; [|split].
  - unfold includes. by apply occurs_exact_insensitive.
  - intros Hin. by apply (occurs_single _ _ _ H4c 8232 Hin).
  - intros Hin. by apply (occurs_single _ _ _ H4 8233 Hin).
Qed.

Lemma JSON_stringify_none data :
  JSON_stringify data = None ->
  data = VUndefined \/ exists source, data = VFun source.
Proof. destruct data as [| |[]| | | | |]; simpl; try discriminate; eauto. Qed.

(** C6: [jsonForHtml(undefined)] is the text [null]; whatever the
    value, the text returned holds no [</script>] in any letter case,
    no [<!--], and neither U+2028 nor U+2029.  The call returns a text
    for every value but a function, for which [JSON.stringify] gives
    undefined. *)
Theorem jsonForHtml_script_safe :
  jsonForHtml VUndefined = Normal (str "null")
  /\ (forall data out,
        jsonForHtml data = Normal out ->
        includes out (str "</script>") = false
        /\ occurs canonicalize_ascii (str "</script>") out = false
        /\ includes out (str "<!--") = false
        /\ (8232 ∉ out)
        /\ (8233 ∉ out))
  /\ (forall data,
        (forall source, data <> VFun source) ->
        exists out, jsonForHtml data = Normal out).
Proof.
  split; [reflexivity|]. split.
  - intros data out Hout.
    assert (Hsafe : occurs canonicalize_ascii (str "</script>") out = false
                    /\ includes out (str "<!--") = false
                    /\ (8232 ∉ out) /\ (8233 ∉ out)).
    { unfold jsonForHtml in Hout.
      destruct data as [| |b|n|s|source|elems|props];
        try (destruct (JSON_stringify _) as [json|] eqn:E; [|discriminate];
             injection Hout as <-; apply script_replacements_safe).
      injection Hout as <-.
      repeat split; try (vm_compute; reflexivity);
        apply (bool_decide_unpack _); vm_compute; exact I. }
    destruct Hsafe as (Hci & Hcomment & Hls & Hps).
    repeat split; try assumption.
    unfold includes. by apply occurs_exact_insensitive.
  - intros data Hfun. unfold jsonForHtml.
    destruct data as [| |b|n|s|source|elems|props]; eauto.
    + destruct b; eauto.
    + by destruct (Hfun source).
Qed.

(** *** Quoted strings can be read back *)

Lemma hex_digit_value_digit d : d < 16 -> hex_digit_value (hex_digit d) = d.
Proof.
  intros Hd. unfold hex_digit, hex_digit_value.
  destruct (d <? 10) eqn:E.
  - apply N.ltb_lt in E.
    destruct (48 + d <? 58) eqn:E'; [lia|]. apply N.ltb_ge in E'. lia.
  - apply N.ltb_ge in E.
    destruct (87 + d <? 58) eqn:E'; [|lia]. apply N.ltb_lt in E'. lia.
Qed.

Lemma hex_digits_value c :
  c < 65536 ->
  4096 * (c / 4096 mod 16) + 256 * (c / 256 mod 16) + 16 * (c / 16 mod 16) + c mod 16
  = c.
Proof.
  intros Hc.
  pose proof (N.div_mod c 16 ltac:(lia)) as H0.
  pose proof (N.div_mod (c / 16) 16 ltac:(lia)) as H1.
  pose proof (N.div_mod (c / 256) 16 ltac:(lia)) as H2.
  replace (c / 16 / 16) with (c / 256) in H1 by (rewrite N.Div0.div_div; reflexivity).
  replace (c / 256 / 16) with (c / 4096) in H2 by (rewrite N.Div0.div_div; reflexivity).
  assert (c / 4096 < 16) by (apply N.Div0.div_lt_upper_bound; lia).
  rewrite (N.mod_small (c / 4096) 16) by assumption.
  lia.
Qed.

Lemma unquote_unicode_escape c s :
  c < 65536 ->
  unquote_units (unicode_escape c ++ s)
  = match unquote_units s with
    | Some (t, rest) => Some (c :: t, rest)
    | None => None
    end.
Proof.
  intros Hc. unfold unicode_escape. cbn [app unquote_units].
  change (92 =? 34) with false. change (92 =? 92) with true.
  change (117 =? 117) with true. cbn iota.
  rewrite !hex_digit_value_digit by (apply N.mod_lt; lia).
  by rewrite hex_digits_value.
Qed.

Lemma unquote_json_escape_unit c s :
  is_leading_surrogate c = false -> is_trailing_surrogate c = false ->
  unquote_units (json_escape_unit c ++ s)
  = match unquote_units s with
    | Some (t, rest) => Some (c :: t, rest)
    | None => None
    end.
Proof.
  intros _ _. unfold json_escape_unit.
  repeat match goal with
         | |- context [if ?a =? ?b then _ else _] =>
             destruct (N.eqb_spec a b) as [->|?]; [reflexivity|]
         end.
  destruct (c <? 32) eqn:E.
  - apply N.ltb_lt in E. apply unquote_unicode_escape. lia.
  - cbn [app unquote_units].
    destruct (N.eqb_spec c 34); [done|]. by destruct (N.eqb_spec c 92).
Qed.

Lemma unquote_quote_units s rest :
  unquote_units (quote_units s ++ 34 :: rest) = Some (s, rest).
Proof.
  remember (length s) as n eqn:Hn. revert s Hn.
  induction n as [n IH] using lt_wf_ind. intros s Hn.
  destruct s as [|c s]; [reflexivity|]. cbn [quote_units].
  destruct (is_leading_surrogate c) eqn:Hlead.
  - apply andb_prop in Hlead as [H1 H2]. apply N.leb_le in H1, H2.
    destruct s as [|d s].
    + rewrite unquote_unicode_escape by lia. reflexivity.
    + destruct (is_trailing_surrogate d) eqn:Htrail.
      * apply andb_prop in Htrail as [H3 H4]. apply N.leb_le in H3, H4.
        cbn [app unquote_units].
        destruct (N.eqb_spec c 34); [lia|]. destruct (N.eqb_spec c 92); [lia|].
        destruct (N.eqb_spec d 34); [lia|]. destruct (N.eqb_spec d 92); [lia|].
        rewrite (IH (length s)); [reflexivity|subst n; simpl; lia|reflexivity].
      * rewrite <- app_assoc, unquote_unicode_escape by lia.
        rewrite (IH (length (d :: s))); [reflexivity|subst n; simpl; lia|reflexivity].
  - destruct (is_trailing_surrogate c) eqn:Htrail.
    + apply andb_prop in Htrail as [H3 H4]. apply N.leb_le in H3, H4.
      rewrite <- app_assoc, unquote_unicode_escape by lia.
      rewrite (IH (length s)); [reflexivity|subst n; simpl; lia|reflexivity].
    + rewrite <- app_assoc, unquote_json_escape_unit by assumption.
      rewrite (IH (length s)); [reflexivity|subst n; simpl; lia|reflexivity].
Qed.

Lemma QuoteJSONString_app s rest :
  QuoteJSONString s ++ rest = 34 :: quote_units s ++ 34 :: rest.
Proof. unfold QuoteJSONString, dquote. simpl. by rewrite <- app_assoc. Qed.

(** A quoted string followed by anything determines the string. *)
Lemma QuoteJSONString_inj s s' rest rest' :
  QuoteJSONString s ++ rest = QuoteJSONString s' ++ rest' ->
  s = s' /\ rest = rest'.
Proof.
  rewrite !QuoteJSONString_app. intros [= H].
  apply (f_equal unquote_units) in H. rewrite !unquote_quote_units in H.
  by injection H.
Qed.

Lemma join_quoted_inj (d d' : list jsstring) rest rest' :
  hd_error rest <> Some 34 -> hd_error rest <> Some 44 ->
  hd_error rest' <> Some 34 -> hd_error rest' <> Some 44 ->
  join [44] (map QuoteJSONString d) ++ rest
  = join [44] (map QuoteJSONString d') ++ rest' ->
  d = d' /\ rest = rest'.
Proof.
  intros Hq Hc Hq' Hc'. revert d'.
  induction d as [|x d IH]; intros [|x' d'] H.
  - done.
  - exfalso. cbn [map join] in H.
    destruct d'; cbn [map] in H; rewrite ?QuoteJSONString_app in H;
      rewrite <- ?app_assoc, ?QuoteJSONString_app in H; simpl in H;
      subst rest; by apply Hq.
  - exfalso. cbn [map join] in H.
    destruct d; cbn [map] in H; rewrite ?QuoteJSONString_app in H;
      rewrite <- ?app_assoc, ?QuoteJSONString_app in H; simpl in H;
      subst rest'; by apply Hq'.
  - cbn [map join] in H.
    destruct d as [|y d], d' as [|y' d']; cbn [map] in H;
      rewrite <- ?app_assoc in H;
      apply QuoteJSONString_inj in H as [-> H].
    + by subst.
    + exfalso. simpl in H. subst rest. by apply Hc.
    + exfalso. simpl in H. subst rest'. by apply Hc'.
    + simpl in H. injection H as H.
      destruct (IH (y' :: d') H) as [-> ->]. done.
Qed.

(** *** The key of the loader cache *)

Lemma loader_key_shape m d :
  loader_key m d
  = [123] ++ ((QuoteJSONString (str "moduleName") ++ [58] ++ QuoteJSONString m)
                ++ [44]
                ++ (QuoteJSONString (str "dirs") ++ [58]
                      ++ [91] ++ join [44] (map QuoteJSONString d) ++ [93]))
          ++ [125].
Proof.
  unfold loader_key. cbn [JSON_stringify flat_map snd fst property_key app join].
  rewrite map_map. cbn [JSON_stringify default].
  by rewrite (map_ext _ QuoteJSONString (fun _ => eq_refl)).
Qed.

(** The key determines the module name and the list of folders. *)
Lemma loader_key_inj m d m' d' :
  loader_key m d = loader_key m' d' -> m = m' /\ d = d'.
Proof.
  rewrite !loader_key_shape. intros H.
  apply app_inv_head in H. rewrite <- !app_assoc in H.
  apply QuoteJSONString_inj in H as [_ H].
  apply app_inv_head in H.
  apply QuoteJSONString_inj in H as [-> H].
  apply app_inv_head in H.
  apply QuoteJSONString_inj in H as [_ H].
  do 2 apply app_inv_head in H.
  apply join_quoted_inj in H as [-> _]; [done|simpl; congruence..].
Qed.

(** *** The caches *)

Lemma caches_wf_init : caches_wf init.
Proof. split; simpl; intros *; rewrite ?lookup_empty; done. Qed.

(** Creating an object keeps the caches well formed. *)
Lemma caches_wf_allocate self :
  caches_wf self ->
  caches_wf {| envs := envs self; loaders := loaders self;
               allocated := S (allocated self) |}.
Proof.
  intros [W1 W2 W3 W4]. split; simpl.
  - intros key l H. destruct (W1 key l H). split; [done|lia].
  - exact W2.
  - intros n e H. destruct (W3 n e H) as (? & ? & ?). repeat split; [done|lia|done].
  - exact W4.
Qed.

Lemma newLoader_wf self m d : caches_wf self -> caches_wf (newLoader self m d).2.
Proof. apply caches_wf_allocate. Qed.

Lemma getLoader_hit self m d l :
  default ∅ (loaders self) !! loader_key m d = Some l ->
  getLoader self m d
  = (l, {| envs := envs self; loaders := Some (default ∅ (loaders self));
           allocated := allocated self |}).
Proof. unfold getLoader. by intros ->. Qed.

Lemma getLoader_spec self m d :
  caches_wf self ->
  let r := getLoader self m d in
  caches_wf r.2
  /\ default ∅ (loaders r.2) !! loader_key m d = Some r.1
  /\ loader_moduleName r.1 = m /\ loader_dirs r.1 = d
  /\ envs r.2 = envs self
  /\ (forall k l, default ∅ (loaders self) !! k = Some l ->
                  default ∅ (loaders r.2) !! k = Some l)
  /\ (allocated self <= allocated r.2)%nat.
Proof.
  intros [W1 W2 W3 W4]. unfold getLoader. cbv zeta.
  destruct (default ∅ (loaders self) !! loader_key m d) as [l|] eqn:Hkey; simpl.
  - destruct (W1 _ _ Hkey) as [Hk _].
    apply loader_key_inj in Hk as [Hm Hd].
    split; [by split|]. repeat split; done.
  - split; [split; simpl|].
    + intros key l. rewrite lookup_insert.
      destruct (decide (loader_key m d = key)) as [<-|Hne].
      * intros [= <-]. simpl. split; [done|lia].
      * intros H. destruct (W1 key l H). split; [done|lia].
    + intros k1 k2 l1 l2. rewrite !lookup_insert.
      destruct (decide (loader_key m d = k1)) as [<-|H1],
               (decide (loader_key m d = k2)) as [<-|H2]; try done.
      * intros [= <-] H Hid. simpl in Hid. destruct (W1 _ _ H). lia.
      * intros H [= <-] Hid. simpl in Hid. destruct (W1 _ _ H). lia.
      * apply W2.
    + intros n e H. destruct (W3 n e H) as (Hn & Hid & Hl).
      repeat split; [done|lia|].
      rewrite lookup_insert_ne; [done|]. intros Heq. rewrite <- Heq in Hl. congruence.
    + exact W4.
    + repeat split; try done.
      * by rewrite lookup_insert_eq.
      * intros k l H. rewrite lookup_insert_ne; [done|]. intros <-. congruence.
      * lia.
Qed.

Lemma newEnv_spec self m d :
  caches_wf self ->
  let r := newEnv self m d in
  caches_wf r.2
  /\ env_module r.1 = m
  /\ (allocated self <= env_id r.1 < allocated r.2)%nat
  /\ default ∅ (loaders r.2) !! loader_key m (loader_dirs (env_loader r.1))
     = Some (env_loader r.1)
  /\ envs r.2 = envs self
  /\ (forall k l, default ∅ (loaders self) !! k = Some l ->
                  default ∅ (loaders r.2) !! k = Some l).
Proof.
  intros Hwf. unfold newEnv.
  pose proof (getLoader_spec self m d Hwf) as (Hwf' & Hkey & Hm & Hd & He & Hl & Ha).
  destruct (getLoader self m d) as [l self']. simpl in *.
  split; [by apply caches_wf_allocate|].
  repeat split; simpl; try done; try lia.
  by rewrite Hd.
Qed.

(** A name matches the path pattern exactly when it holds a dot, or an
    opening bracket before a closing one. *)
Lemma closes_bracket_split s :
  closes_bracket s = true -> exists a b, s = a ++ [93] ++ b.
Proof.
  induction s as [|c s IH]; cbn [closes_bracket]; [discriminate|].
  destruct (N.eqb_spec c 93) as [->|H93]; [intros _; by exists [], s|].
  destruct (N.eqb_spec c 91) as [->|H91]; [discriminate|].
  intros (a & b & ->)%IH. by exists (c :: a), b.
Qed.

Lemma closes_bracket_false b c :
  closes_bracket (b ++ [93] ++ c) = false -> exists b1 b2, b = b1 ++ [91] ++ b2.
Proof.
  induction b as [|y b IH]; cbn [app closes_bracket]; [discriminate|].
  destruct (N.eqb_spec y 93) as [->|H93]; [discriminate|].
  destruct (N.eqb_spec y 91) as [->|H91]; [intros _; by exists [], b|].
  intros (b1 & b2 & ->)%IH. by exists (y :: b1), b2.
Qed.

Lemma is_deep_app a s : is_deep s = true -> is_deep (a ++ s) = true.
Proof.
  intros Hs. induction a as [|x a IH]; [exact Hs|].
  cbn [app is_deep]. rewrite IH. apply orb_true_r.
Qed.

Lemma is_deep_brackets b c : is_deep (91 :: b ++ [93] ++ c) = true.
Proof.
  remember (length b) as n eqn:Hn. revert b Hn.
  induction n as [n IH] using lt_wf_ind. intros b ->.
  cbn [is_deep]. destruct (closes_bracket (b ++ [93] ++ c)) eqn:Hcloses; [reflexivity|].
  apply closes_bracket_false in Hcloses as (b1 & b2 & ->).
  rewrite <- !app_assoc, (is_deep_app b1); [apply orb_true_r|].
  apply (IH (length b2)); [|reflexivity]. rewrite !length_app. simpl. lia.
Qed.

Lemma is_deep_spec name :
  is_deep name = true
  <-> 46 ∈ name \/ exists a b c, name = a ++ [91] ++ b ++ [93] ++ c.
Proof.
  split.
  - induction name as [|x name IH]; cbn [is_deep]; [discriminate|].
    rewrite !orb_true_iff, andb_true_iff, !N.eqb_eq.
    intros [[->|[-> (a & b & ->)%closes_bracket_split]]|[H|(a & b & c & ->)]%IH].
    + left. by apply elem_of_cons; left.
    + right. by exists [], a, b.
    + left. by apply elem_of_cons; right.
    + right. by exists (x :: a), b, c.
  - intros [(a & b & ->)%list_elem_of_split|(a & b & c & ->)].
    + by apply is_deep_app.
    + apply is_deep_app, is_deep_brackets.
Qed.

(** What [getEnv] does: it finds the name and reads it, or makes an
    environment and stores it. *)
Lemma getEnv_cases opts rootDir self module :
  let made := newEnv self (name (meta module)) (getViewFolders opts rootDir module) in
  (has_env (envs self) (name (meta module)) = true
   /\ getEnv opts rootDir self module = (envs self !! name (meta module), self))
  \/ (has_env (envs self) (name (meta module)) = false
      /\ envs self !! name (meta module) = None
      /\ getEnv opts rootDir self module
         = (Some made.1,
            {| envs := if jsstring_eqb (name (meta module)) (str "__proto__")
                       then envs made.2
                       else <[name (meta module) := made.1]> (envs made.2);
               loaders := loaders made.2;
               allocated := allocated made.2 |})).
Proof.
  intros made. unfold getEnv. cbv zeta.
  destruct (has_env (envs self) (name (meta module))) eqn:Hhas; [by left|].
  right. split; [done|]. split.
  - unfold has_env in Hhas. by destruct (envs self !! name (meta module)).
  - unfold made. by destruct (newEnv _ _ _).
Qed.

Lemma getEnv_spec opts rootDir self module :
  caches_wf self ->
  let r := getEnv opts rootDir self module in
  caches_wf r.2
  /\ (forall n e, envs self !! n = Some e -> envs r.2 !! n = Some e)
  /\ (forall k l, default ∅ (loaders self) !! k = Some l ->
                  default ∅ (loaders r.2) !! k = Some l)
  /\ (forall e,
        r.1 = Some e ->
        env_module e = name (meta module)
        /\ (env_id e < allocated r.2)%nat
        /\ default ∅ (loaders r.2)
             !! loader_key (name (meta module)) (loader_dirs (env_loader e))
           = Some (env_loader e)
        /\ ((envs self !! name (meta module) = Some e /\ r.2 = self)
            \/ (envs self !! name (meta module) = None
                /\ (allocated self <= env_id e)%nat
                /\ loader_dirs (env_loader e) = getViewFolders opts rootDir module
                /\ (forall n e', envs r.2 !! n = Some e' ->
                                 envs self !! n = Some e' \/ n = name (meta module) /\ e' = e)
                /\ (name (meta module) <> str "__proto__" ->
                    envs r.2 !! name (meta module) = Some e))))
  /\ (r.1 = None ->
      r.2 = self /\ is_deep (name (meta module)) = true
      /\ envs self !! name (meta module) = None
      /\ has_path (envs self) (name (meta module)) = true)
  /\ (is_deep (name (meta module)) = false -> exists e, r.1 = Some e).
Proof.
  intros Hwf r. unfold r.
  destruct (getEnv_cases opts rootDir self module) as [[Hhas ->]|(Hhas & Hname & ->)];
    cbn [fst snd].
  - split; [exact Hwf|]. split; [done|]. split; [done|]. split; [|split].
    + intros e He. destruct (wf_env_name _ Hwf _ _ He) as (Hm & Hid & Hl).
      split; [done|]. split; [done|]. split; [done|]. by left.
    + intros Hnone. unfold has_env in Hhas. rewrite Hnone in Hhas.
      apply andb_prop in Hhas as [Hdeep Hpath]. by repeat split.
    + intros Hdeep. unfold has_env in Hhas.
      destruct (envs self !! name (meta module)) as [e|]; [by exists e|].
      by rewrite Hdeep in Hhas.
  - pose proof (newEnv_spec self (name (meta module))
                  (getViewFolders opts rootDir module) Hwf)
      as (Hwf' & Hm & Hid & Hl & He & Hls).
    pose proof (getLoader_spec self (name (meta module))
                  (getViewFolders opts rootDir module) Hwf)
      as (_ & _ & _ & Hd & _).
    assert (Hdirs : loader_dirs
                      (env_loader (newEnv self (name (meta module))
                                     (getViewFolders opts rootDir module)).1)
                    = getViewFolders opts rootDir module).
    { unfold newEnv.
      by destruct (getLoader self (name (meta module))
                     (getViewFolders opts rootDir module)). }
    destruct (newEnv self (name (meta module)) (getViewFolders opts rootDir module))
      as [env self']. cbn [fst snd] in *. cbn [envs loaders allocated].
    destruct Hwf' as [W1 W2 W3 W4]. pose proof Hwf as [_ _ V3 _].
    unfold jsstring_eqb. split; [|split; [|split; [|split; [|split]]]].
    + case_bool_decide as Hproto; split; cbn [envs loaders allocated]; try done.
      * intros n e. rewrite lookup_insert.
        destruct (decide (name (meta module) = n)) as [<-|Hne].
        -- intros [= <-]. repeat split; [done|lia|done].
        -- apply W3.
      * intros n1 n2 e1 e2. rewrite !lookup_insert.
        destruct (decide (name (meta module) = n1)) as [<-|H1],
                 (decide (name (meta module) = n2)) as [<-|H2]; try done.
        -- intros [= <-] H Hid'. rewrite He in H.
           destruct (V3 _ _ H) as (_ & ? & _). lia.
        -- intros H [= <-] Hid'. rewrite He in H.
           destruct (V3 _ _ H) as (_ & ? & _). lia.
        -- apply W4.
    + intros n e H. case_bool_decide as Hproto; [by rewrite He|].
      rewrite lookup_insert_ne; [by rewrite He|]. intros <-. congruence.
    + exact Hls.
    + intros e [= <-]. split; [done|]. split; [lia|]. split; [done|]. right.
      split; [done|]. split; [lia|]. split; [done|]. split.
      * intros n e'. case_bool_decide as Hproto; [rewrite He; by left|].
        rewrite lookup_insert. case_decide as Hn.
        -- intros [= <-]. by right.
        -- rewrite He. by left.
      * intros Hproto. rewrite bool_decide_eq_false_2 by done.
        by rewrite lookup_insert_eq.
    + discriminate.
    + intros _. by eexists.
Qed.

Lemma reachable_wf self : reachable self -> caches_wf self.
Proof.
  induction 1 as [|self m d _ IH|self m d _ IH|self m d _ IH|opts rootDir self module _ IH].
  - apply caches_wf_init.
  - by apply newLoader_wf.
  - by apply getLoader_spec.
  - by apply newEnv_spec.
  - by apply getEnv_spec.
Qed.

Lemma getLoader_loaders self m d :
  loaders (getLoader self m d).2 = Some (default ∅ (loaders (getLoader self m d).2)).
Proof.
  unfold getLoader. cbv zeta.
  by destruct (default ∅ (loaders self) !! loader_key m d).
Qed.

(** C2, as the code has it: the loader cache is keyed by the module
    name together with the list of folders, so two calls of [getLoader]
    return the same instance exactly when both agree, the second call
    then changing nothing.  The environment cache is keyed by the
    module name: the environments that [getEnv] returns for two modules
    are one only when the modules have the same name, and with
    different names they never have the same loader, whatever their
    folders; two modules whose names are plain keys both get an
    environment, the same one exactly when they have the same name.
    [getEnv] returns undefined only for a name that is read as a path,
    and then changes nothing. *)
Theorem loader_cache_keyed_by_module_and_dirs self :
  reachable self ->
  (forall m1 d1 m2 d2,
      let first := getLoader self m1 d1 in
      let second := getLoader first.2 m2 d2 in
      (loader_id first.1 = loader_id second.1 <-> m1 = m2 /\ d1 = d2)
      /\ (m1 = m2 -> d1 = d2 -> second = first))
  /\ (forall opts rootDir module1 module2,
        let first := getEnv opts rootDir self module1 in
        let second := getEnv opts rootDir first.2 module2 in
        (forall env1 env2,
            first.1 = Some env1 -> second.1 = Some env2 ->
            (env_id env1 = env_id env2 ->
             name (meta module1) = name (meta module2))
            /\ (name (meta module1) <> name (meta module2) ->
                loader_id (env_loader env1) <> loader_id (env_loader env2)))
        /\ (plain_key (name (meta module1)) -> plain_key (name (meta module2)) ->
            exists env1 env2,
              first.1 = Some env1 /\ second.1 = Some env2
              /\ (env_id env1 = env_id env2
                  <-> name (meta module1) = name (meta module2)))
        /\ (second.1 = None ->
            is_deep (name (meta module2)) = true /\ second.2 = first.2)).
Proof.
  intros Hwf%reachable_wf. split.
  - intros m1 d1 m2 d2 first second.
    pose proof (getLoader_spec self m1 d1 Hwf) as (Hwf1 & Hk1 & _ & _ & _ & _ & _).
    pose proof (getLoader_spec first.2 m2 d2 Hwf1) as (Hwf2 & Hk2 & _ & _ & _ & Hkeep & _).
    fold first in Hk1. fold second in Hk2, Hwf2, Hkeep.
    pose proof (Hkeep _ _ Hk1) as Hk1'. split; [split|].
    + intros Hid. apply loader_key_inj.
      by apply (wf_loader_id _ Hwf2 _ _ _ _ Hk1' Hk2).
    + intros [-> ->]. congruence.
    + intros -> ->. unfold second. rewrite (getLoader_hit _ _ _ _ Hk1).
      pose proof (getLoader_loaders self m2 d2) as Hsome. fold first in Hsome.
      rewrite <- Hsome. by destruct first as [l []].
  - intros opts rootDir module1 module2 first second.
    pose proof (getEnv_spec opts rootDir self module1 Hwf)
      as (Hwf1 & _ & _ & Hsome1 & _ & Hkey1).
    pose proof (getEnv_spec opts rootDir first.2 module2 Hwf1)
      as (Hwf2 & Hkeep & Hkeepl & Hsome2 & Hnone2 & Hkey2).
    fold first in Hwf1, Hsome1, Hkey1.
    fold second in Hwf2, Hkeep, Hkeepl, Hsome2, Hnone2, Hkey2.
    assert (Hboth : forall env1 env2,
               first.1 = Some env1 -> second.1 = Some env2 ->
               (env_id env1 = env_id env2 ->
                name (meta module1) = name (meta module2))
               /\ (name (meta module1) <> name (meta module2) ->
                   loader_id (env_loader env1) <> loader_id (env_loader env2))).
    { intros env1 env2 He1 He2.
      destruct (Hsome1 env1 He1) as (Hm1 & Hid1 & Hl1 & Hfrom1).
      destruct (Hsome2 env2 He2) as (Hm2 & Hid2 & Hl2 & Hfrom2). split.
      - intros Hid. destruct Hfrom2 as [[Hc2 _]|(_ & Hfresh & _)]; [|lia].
        destruct Hfrom1 as [[Hc1 Hsame]|(_ & Hfresh1 & _ & Hin & _)].
        + rewrite Hsame in Hc2.
          by apply (wf_env_id _ Hwf _ _ _ _ Hc1 Hc2).
        + destruct (Hin _ _ Hc2) as [Hold|[Hn _]]; [|done].
          destruct (wf_env_name _ Hwf _ _ Hold) as (_ & ? & _). lia.
      - intros Hne Hid.
        pose proof (Hkeepl _ _ Hl1) as Hl1'.
        pose proof (wf_loader_id _ Hwf2 _ _ _ _ Hl1' Hl2 Hid) as Hkey.
        by apply loader_key_inj in Hkey as [? _]. }
    split; [exact Hboth|]. split.
    + intros [Hdeep1 Hproto1] [Hdeep2 Hproto2].
      destruct (Hkey1 Hdeep1) as [env1 He1]. destruct (Hkey2 Hdeep2) as [env2 He2].
      exists env1, env2. split; [exact He1|]. split; [exact He2|]. split.
      * apply (Hboth env1 env2 He1 He2).
      * intros Heq.
        destruct (Hsome1 env1 He1) as (_ & _ & _ & Hfrom1).
        assert (Hc1 : envs first.2 !! name (meta module1) = Some env1).
        { destruct Hfrom1 as [[Hc1 ->]|(_ & _ & _ & _ & Hstored)]; [done|].
          by apply Hstored. }
        destruct (Hsome2 env2 He2) as (_ & _ & _ & [[Hc2 _]|(Hc2 & _)]);
          rewrite <- Heq in Hc2; congruence.
    + intros Hnone. by destruct (Hnone2 Hnone) as (? & ? & _).
Qed.

(** *** Splitting and joining *)

Lemma js_split_cons sep c s :
  js_split sep (c :: s)
  = if c =? sep then [] :: js_split sep s
    else match js_split sep s with
         | [] => [[c]]
         | seg :: segs => (c :: seg) :: segs
         end.
Proof. reflexivity. Qed.

Lemma js_split_nonempty sep s : js_split sep s <> [].
Proof.
  destruct s as [|c s]; [done|]. rewrite js_split_cons.
  destruct (c =? sep); [done|]. by destruct (js_split sep s).
Qed.

Lemma join_cons_cons sep (p q : jsstring) rest :
  join sep (p :: q :: rest) = p ++ sep ++ join sep (q :: rest).
Proof. reflexivity. Qed.

Lemma join_js_split sep s : join [sep] (js_split sep s) = s.
Proof.
  induction s as [|c s IH]; [reflexivity|]. rewrite js_split_cons.
  pose proof (js_split_nonempty sep s) as Hne.
  destruct (js_split sep s) as [|seg segs]; [done|].
  destruct (N.eqb_spec c sep) as [->|Hc].
  - by rewrite join_cons_cons, IH.
  - destruct segs as [|seg' segs].
    + simpl in *. by rewrite IH.
    + rewrite join_cons_cons in *. by rewrite <- app_comm_cons, IH.
Qed.

Lemma js_split_parts sep s : Forall (fun part => sep ∉ part) (js_split sep s).
Proof.
  induction s as [|c s IH]; [repeat constructor; apply not_elem_of_nil|].
  rewrite js_split_cons.
  pose proof (js_split_nonempty sep s) as Hne.
  destruct (js_split sep s) as [|seg segs]; [done|].
  destruct (N.eqb_spec c sep) as [->|Hc].
  - constructor; [apply not_elem_of_nil|exact IH].
  - inversion IH as [|? ? Hseg Hsegs]; subst. constructor; [|exact Hsegs].
    intros [->|Hin]%elem_of_cons; done.
Qed.

Lemma js_split_length sep s :
  length (js_split sep s) = S (count_occ N.eq_dec s sep).
Proof.
  induction s as [|c s IH]; [reflexivity|]. rewrite js_split_cons.
  pose proof (js_split_nonempty sep s) as Hne.
  destruct (js_split sep s) as [|seg segs]; [done|].
  destruct (N.eqb_spec c sep) as [->|Hc].
  - rewrite count_occ_cons_eq by done. simpl in *. by rewrite IH.
  - rewrite count_occ_cons_neq by done. exact IH.
Qed.

Lemma join_empty parts : join [] parts = concat parts.
Proof.
  induction parts as [|p [|q rest] IH]; [reflexivity|simpl; by rewrite app_nil_r|].
  by rewrite join_cons_cons, IH.
Qed.

(** *** The paragraph filter *)


(** *** Stripping tags *)

Lemma striptags_from_skip k s :
  striptags_from k s = striptags_from 0 (drop k s).
Proof.
  revert k. induction s as [|c s IH]; intros [|k]; try reflexivity.
  simpl. apply IH.
Qed.

Lemma striptags_cons c s :
  striptags (c :: s)
  = match tag_length (c :: s) with
    | Some n => striptags (drop (n - 1) s)
    | None => c :: striptags s
    end.
Proof.
  unfold striptags. cbn [striptags_from].
  destruct (tag_length (c :: s)) as [n|]; [apply striptags_from_skip|reflexivity].
Qed.

Lemma striptags_from_sublist k s : sublist (striptags_from k s) s.
Proof.
  revert k. induction s as [|c s IH]; intros k; [by destruct k|].
  destruct k as [|k]; cbn [striptags_from].
  - destruct (tag_length (c :: s)).
    + apply sublist_cons, IH.
    + apply sublist_skip, IH.
  - apply sublist_cons, IH.
Qed.

Lemma before_gt_none s : before_gt s = None <-> 62 ∉ s.
Proof.
  induction s as [|c s IH]; simpl.
  - split; [intros _; apply not_elem_of_nil|done].
  - destruct (N.eqb_spec c 62) as [->|Hc].
    + split; [done|]. intros H. destruct H. by left.
    + rewrite not_elem_of_cons. destruct (before_gt s); simpl.
      * split; [done|]. intros [_ H]. by apply IH in H.
      * split; [|done]. intros _. split; [done|]. by apply IH.
Qed.

Lemma tag_length_none_cons c s :
  tag_length (c :: s) = None ->
  c <> 60 \/ 62 ∉ s \/ exists s', s = 62 :: s'.
Proof.
  simpl. destruct (N.eqb_spec c 60) as [->|Hc]; [|by left].
  destruct (before_gt s) as [[|run]|] eqn:E; [|discriminate|].
  - intros _. right. right. destruct s as [|d s]; [discriminate|].
    simpl in E. destruct (N.eqb_spec d 62) as [->|Hd]; [eauto|].
    by destruct (before_gt s).
  - intros _. right. left. by apply before_gt_none.
Qed.

Lemma has_tag_cons c s :
  has_tag (c :: s) = match tag_length (c :: s) with Some _ => true | None => has_tag s end.
Proof. reflexivity. Qed.

Lemma striptags_no_tag s : has_tag (striptags s) = false.
Proof.
  remember (length s) as n eqn:Hn. revert s Hn.
  induction n as [n IH] using lt_wf_ind. intros s ->.
  destruct s as [|c s]; [reflexivity|]. rewrite striptags_cons.
  destruct (tag_length (c :: s)) as [m|] eqn:E.
  - apply (IH (length (drop (m - 1) s))); [|reflexivity].
    rewrite length_drop. simpl. lia.
  - rewrite has_tag_cons.
    assert (Hrest : has_tag (striptags s) = false).
    { apply (IH (length s)); [simpl; lia|reflexivity]. }
    rewrite Hrest.
    assert (Hhead : tag_length (c :: striptags s) = None); [|by rewrite Hhead].
    destruct (tag_length_none_cons _ _ E) as [Hc|[Hgt|[s' ->]]].
    + simpl. by destruct (N.eqb_spec c 60).
    + simpl. destruct (c =? 60); [|reflexivity].
      assert (Hnone : before_gt (striptags s) = None); [|by rewrite Hnone].
      apply before_gt_none. intros Hin. apply Hgt.
      eapply elem_of_sublist; [exact Hin|]. apply striptags_from_sublist.
    + rewrite striptags_cons. cbn [tag_length].
      replace (62 =? 60) with false by reflexivity.
      cbn [before_gt]. replace (62 =? 62) with true by reflexivity.
      by destruct (c =? 60).
Qed.

Lemma striptags_fixed s : has_tag s = false -> striptags s = s.
Proof.
  induction s as [|c s IH]; [reflexivity|]. rewrite has_tag_cons, striptags_cons.
  destruct (tag_length (c :: s)); [discriminate|]. intros H. by rewrite IH.
Qed.

(** The [striptags] filter leaves no tag behind: in its result no [<]
    is followed by a non-empty run without [>] and then a [>]; so
    stripping a second time changes nothing.  What the pattern does not
    match stays: [<>], and a [<] with no [>] after it. *)
Theorem striptags_leaves_no_tag s :
  has_tag (striptags s) = false
  /\ striptags (striptags s) = striptags s
  /\ striptags (str "<>" ++ s) = str "<>" ++ striptags s
  /\ (62 ∉ s -> striptags s = s).
Proof.
  split; [apply striptags_no_tag|].
  split; [apply striptags_fixed, striptags_no_tag|]. split.
  - change (str "<>" ++ s) with (60 :: 62 :: s).
    rewrite striptags_cons. cbn [tag_length before_gt].
    replace (60 =? 60) with true by reflexivity.
    replace (62 =? 62) with true by reflexivity.
    rewrite striptags_cons. cbn [tag_length].
    by replace (62 =? 60) with false by reflexivity.
  - intros Hgt. apply striptags_fixed.
    induction s as [|c s IH]; [reflexivity|]. rewrite has_tag_cons.
    apply not_elem_of_cons in Hgt as [Hc Hs].
    assert (Hnone : before_gt s = None) by by apply before_gt_none.
    simpl. rewrite Hnone. rewrite IH by exact Hs. by destruct (c =? 60).
Qed.

(** The [striptags] filter only removes: its result is what is left of
    the text, in order, once the tags are taken out, and a text with no
    tag is returned as it is. *)
Theorem striptags_only_removes s :
  sublist (striptags s) s
  /\ (length (striptags s) <= length s)%nat
  /\ (has_tag s = false -> striptags s = s)
  /\ (has_tag s = true -> (length (striptags s) + 3 <= length s)%nat).
Proof.
  split; [apply striptags_from_sublist|].
  split; [apply sublist_length, striptags_from_sublist|].
  split; [apply striptags_fixed|].
  induction s as [|c s IH]; [discriminate|].
  rewrite has_tag_cons, striptags_cons.
  destruct (tag_length (c :: s)) as [n|] eqn:E.
  - intros _. pose proof (sublist_length _ _ (striptags_from_sublist 0 (drop (n - 1) s))) as Hlen.
    fold (striptags (drop (n - 1) s)) in Hlen. rewrite length_drop in Hlen.
    simpl in E. destruct (c =? 60); [|discriminate].
    destruct (before_gt s) as [[|run]|] eqn:Hrun; try discriminate.
    injection E as <-.
    assert (Hs : (S run < length s)%nat).
    { clear -Hrun. revert run Hrun. induction s as [|d s IH]; intros run; [discriminate|].
      simpl. destruct (d =? 62); [discriminate|].
      destruct (before_gt s) as [k|] eqn:Ek; [|discriminate].
      intros [= <-]. destruct k as [|k]; [destruct s; [discriminate|simpl; lia]|].
      specialize (IH k eq_refl). lia. }
    simpl. simpl in Hlen. lia.
  - intros H. specialize (IH H). simpl. lia.
Qed.

(** *** Body classes *)

Lemma join_merge sep (a b : jsstring) rest :
  join sep ((a ++ sep ++ b) :: rest) = join sep (a :: b :: rest).
Proof.
  destruct rest as [|c rest]; [reflexivity|].
  rewrite !join_cons_cons. by rewrite <- !app_assoc.
Qed.

Lemma truthy_string_app_r (a b : jsstring) : b <> [] -> truthy_string (a ++ b) = true.
Proof. destruct a; [|reflexivity]. by destruct b. Qed.

Lemma addBodyClass_twice data (a b : jsstring) :
  a <> [] ->
  addBodyClass (addBodyClass data (VStr a)) (VStr b)
  = addBodyClass data (VStr (a ++ str " " ++ b)).
Proof.
  intros Ha. unfold addBodyClass.
  rewrite read_insert, decide_True by done.
  cbn [truthy ToString]. rewrite truthy_string_app_r by exact Ha.
  rewrite insert_insert_eq. by rewrite <- !app_assoc.
Qed.

(** Classes added one after the other end up separated by single
    spaces: adding the classes of a list whose first class is not empty
    is adding, in one call, the classes joined by spaces; on a request
    that has no class yet, the classes are then just that text.  No
    other property of [req.data] changes. *)
Theorem addBodyClass_accumulates data (first : jsstring) (rest : list jsstring) :
  first <> [] ->
  let after := fold_left addBodyClass (map VStr (first :: rest)) data in
  after = addBodyClass data (VStr (join (str " ") (first :: rest)))
  /\ (truthy (read data (str "aposBodyClasses")) = false ->
      read after (str "aposBodyClasses") = VStr (join (str " ") (first :: rest)))
  /\ (forall k, k <> str "aposBodyClasses" -> after !! k = data !! k).
Proof.
  intros Hfirst after.
  assert (Hafter : after = addBodyClass data (VStr (join (str " ") (first :: rest)))).
  { unfold after. clear after. revert first Hfirst data.
    induction rest as [|second rest IH]; intros first Hfirst data; [reflexivity|].
    cbn [map fold_left] in *. rewrite addBodyClass_twice by exact Hfirst.
    rewrite <- join_merge. apply (IH (first ++ str " " ++ second)).
    by destruct first. }
  split; [exact Hafter|]. rewrite Hafter. split.
  - intros Hnone. unfold addBodyClass. rewrite read_insert, decide_True by done.
    by rewrite Hnone.
  - intros k Hk. unfold addBodyClass. by rewrite lookup_insert_ne.
Qed.

(** *** Body data attributes *)

Lemma space_data : str " " ++ str "data-" = str " data-".
Proof. vm_compute. reflexivity. Qed.

Lemma addAttribute_named data key val :
  key <> [] -> val <> VNull ->
  addAttribute data key val
  = Normal (<[str "aposBodyDataAttributes" :=
                VStr (text_so_far data (str "aposBodyDataAttributes")
                      ++ data_attribute (key, val))]> data).
Proof.
  intros Hkey Hval. unfold addAttribute, jsstring_eqb.
  rewrite bool_decide_eq_false_2 by exact Hkey.
  unfold text_so_far, data_attribute, has_text. cbn [fst snd].
  set (current := read data (str "aposBodyDataAttributes")).
  assert (Hbefore : forall rest,
    (if truthy current then ToString current ++ str " " else str " ")
      ++ str "data-" ++ rest
    = (if truthy current then ToString current else []) ++ str " data-" ++ rest).
  { intros tail. rewrite <- space_data. destruct (truthy current); simpl;
      by rewrite <- ?app_assoc. }
  destruct val as [| |b|n|s|source|elems|props]; try done;
    cbn [mbind completion_bind]; rewrite Hbefore, ?app_nil_r; try reflexivity;
    by destruct (truthy_string _); rewrite ?app_nil_r.
Qed.

Lemma data_attribute_text p : data_attribute p <> [].
Proof. unfold data_attribute. intros H. apply (f_equal length) in H.
  rewrite length_app in H. by vm_compute in H. Qed.

Lemma named_cons key (val : value) props :
  named ((key, val) :: props)
  = if decide (key <> []) then (key, val) :: named props else named props.
Proof. unfold named. rewrite filter_cons. reflexivity. Qed.

Lemma each_attribute_named data props :
  Forall (fun p => fst p <> [] -> snd p <> VNull) props ->
  each_attribute data props
  = (match named props with
     | [] => data
     | added =>
         <[str "aposBodyDataAttributes" :=
             VStr (text_so_far data (str "aposBodyDataAttributes")
                   ++ concat (map data_attribute added))]> data
     end, Normal ()).
Proof.
  intros Hprops. revert data.
  induction Hprops as [|[key val] props Hp Hprops IH]; intros data; [reflexivity|].
  cbn [each_attribute]. rewrite named_cons. cbn [fst snd] in *.
  case_decide as Hkey.
  - rewrite addAttribute_named by auto. rewrite IH.
    set (k := str "aposBodyDataAttributes").
    assert (Hso : text_so_far (<[k := VStr (text_so_far data k ++ data_attribute (key, val))]> data) k
                  = text_so_far data k ++ data_attribute (key, val)).
    { unfold text_so_far at 1. rewrite read_insert, decide_True by done.
      cbn [truthy ToString]. rewrite truthy_string_app_r; [done|apply data_attribute_text]. }
    destruct (named props) as [|q added].
    + cbn [map concat]. by rewrite ?app_nil_r.
    + rewrite Hso, insert_insert_eq. cbn [map concat]. by rewrite <- !app_assoc.
  - assert (key = []) as -> by (destruct key; [done|by destruct Hkey]).
    unfold addAttribute, jsstring_eqb. rewrite bool_decide_eq_true_2 by done.
    apply IH.
Qed.


(** Given a name and a value that are strings, [addBodyDataAttribute]
    adds the attribute only when neither is empty, and never for the
    name [__proto__]: an empty value adds nothing, where the same pair
    given as an object adds the bare attribute. *)
Theorem addBodyDataAttribute_pair data (name val : jsstring) :
  addBodyDataAttribute data (VStr name) (VStr val)
  = (if truthy_string name && truthy_string val
        && negb (jsstring_eqb name (str "__proto__"))
     then <[str "aposBodyDataAttributes" :=
              VStr (text_so_far data (str "aposBodyDataAttributes")
                    ++ str " data-" ++ escapeHtml (VStr name)
                    ++ str "='" ++ escapeHtml_single (VStr val) ++ str "'")]> data
     else data, Normal ())
  /\ (name <> [] ->
      addBodyDataAttribute data (VObj [(name, VStr [])]) VUndefined
      = (<[str "aposBodyDataAttributes" :=
             VStr (text_so_far data (str "aposBodyDataAttributes")
                   ++ str " data-" ++ escapeHtml (VStr name))]> data, Normal ())).
Proof.
  split.
  - unfold addBodyDataAttribute. cbn [truthy ToString].
    destruct (truthy_string name) eqn:Hname; [|reflexivity].
    destruct (truthy_string val) eqn:Hval; [|by rewrite andb_false_r].
    cbn [andb]. destruct (jsstring_eqb name (str "__proto__")) eqn:Hproto; [reflexivity|].
    cbn [negb]. unfold isArrayLike. cbn [get_prop].
    destruct (jsstring_eqb name (str "length")); cbn [each_attribute].
    + rewrite addAttribute_named by (try discriminate; by destruct name).
      unfold data_attribute, has_text. cbn [fst snd ToString]. rewrite Hval.
      by rewrite <- ?app_assoc.
    + rewrite addAttribute_named by (try discriminate; by destruct name).
      unfold data_attribute, has_text. cbn [fst snd ToString]. rewrite Hval.
      by rewrite <- ?app_assoc.
  - intros Hname. unfold addBodyDataAttribute, isArrayLike. cbn [get_prop].
    destruct (jsstring_eqb name (str "length")); cbn [each_attribute];
      rewrite addAttribute_named by (try discriminate; exact Hname);
      unfold data_attribute, has_text; cbn [fst snd ToString truthy_string];
      by rewrite app_nil_r.
Qed.

(** *** Runtime nodes *)

Lemma registerRuntimeNodes_returns end_ location moduleName method self self' :
  registerRuntimeNodes end_ location moduleName method self = Returns self' ->
  exists m meth module,
    moduleName = VStr m /\ method = VStr meth
    /\ apos_modules m = Some module
    /\ member_of module meth <> Absent
    /\ self' = <[location_key end_ location :=
                   default [] (self !! location_key end_ location)
                   ++ [ {| entry_moduleName := m; entry_method := meth |} ]]> self.
Proof.
  unfold registerRuntimeNodes. intros H.
  destruct method as [| | | |meth| | |]; try discriminate.
  destruct moduleName as [| | | |m| | |]; try discriminate.
  destruct (apos_modules m) as [module|] eqn:Hmodule; [|discriminate].
  exists m, meth, module.
  destruct (member_of module meth) eqn:Hmember; [discriminate| |];
    injection H as <-; by repeat split.
Qed.

Lemma dash_in_location_key end_ location : 45 ∈ location_key end_ location.
Proof.
  unfold location_key. apply elem_of_app. right. apply elem_of_app. left.
  apply (bool_decide_unpack _). vm_compute. exact I.
Qed.

(** A key with a dash names no member of [Object.prototype]. *)
Lemma dash_outside_prototype (key : jsstring) :
  45 ∈ key -> in_object_prototype key = false.
Proof.
  intros Hdash.
  assert (Hne : forall name, 45 ∉ str name -> jsstring_eqb key (str name) = false).
  { intros name Hname. unfold jsstring_eqb. apply bool_decide_eq_false_2.
    intros ->. by apply Hname. }
  unfold in_object_prototype, object_prototype_members. cbn [existsb].
  rewrite !Hne; [reflexivity|..];
    apply (bool_decide_unpack _); vm_compute; exact I.
Qed.

Lemma injectNodes_unregistered (req : request) (key : jsstring)
    (self : gmap jsstring (list runtime_entry)) :
  45 ∈ key -> self !! key = None -> injectNodes req key self = ([], Normal []).
Proof.
  intros Hdash Hkey. unfold injectNodes. rewrite Hkey.
  assert (Hne : forall name, 45 ∉ str name -> jsstring_eqb key (str name) = false).
  { intros name Hname. unfold jsstring_eqb. apply bool_decide_eq_false_2.
    intros ->. by apply Hname. }
  rewrite !Hne; [reflexivity|..];
    apply (bool_decide_unpack _); vm_compute; exact I.
Qed.

Lemma inject_entries_snoc req entries entry module handler logged pieces :
  apos_modules (entry_moduleName entry) = Some module ->
  member_of module (entry_method entry) = Method handler ->
  inject_entries req entries = (logged, Normal pieces) ->
  inject_entries req (entries ++ [entry])
  = (logged ++ (render_handler handler req).2,
     html ← (render_handler handler req).1; Normal (pieces ++ [html])).
Proof.
  intros Hmodule Hmember. revert logged pieces.
  induction entries as [|e entries IH]; intros logged pieces H; simpl in *.
  - injection H as <- <-. rewrite Hmodule, Hmember.
    destruct (render_handler handler req) as [[html|err] l]; simpl;
      by rewrite ?app_nil_r.
  - destruct (apos_modules (entry_moduleName e)) as [m|]; [|discriminate].
    destruct (member_of m (entry_method e)) as [| |h]; try discriminate.
    destruct (render_handler h req) as [[html|err] l]; [|discriminate].
    destruct (inject_entries req entries) as [l' [out|err]]; [|discriminate].
    injection H as <- <-. rewrite (IH l' out eq_refl). simpl.
    rewrite app_assoc. by destruct (render_handler handler req).1.
Qed.

Lemma join_snoc sep (p : jsstring) pieces piece :
  join sep ((p :: pieces) ++ [piece]) = join sep (p :: pieces) ++ sep ++ piece.
Proof.
  revert p. induction pieces as [|q pieces IH]; intros p; [reflexivity|].
  specialize (IH q). cbn [app] in *. rewrite !join_cons_cons, IH.
  by rewrite <- !app_assoc.
Qed.

Lemma inject_entries_length req entries logged pieces :
  inject_entries req entries = (logged, Normal pieces) ->
  length pieces = length entries.
Proof.
  revert logged pieces. induction entries as [|e entries IH]; intros logged pieces H;
    simpl in *; [by injection H as <- <-|].
  destruct (apos_modules (entry_moduleName e)) as [m|]; [|discriminate].
  destruct (member_of m (entry_method e)) as [| |h]; try discriminate.
  destruct (render_handler h req) as [[html|err] l]; [|discriminate].
  destruct (inject_entries req entries) as [l' [out|err]]; [|discriminate].
  injection H as <- <-. simpl. by rewrite (IH l' out eq_refl).
Qed.

Lemma injectNodes_more (req : request) (key : jsstring)
    (self : gmap jsstring (list runtime_entry)) entry module handler logged html :
  45 ∈ key ->
  apos_modules (entry_moduleName entry) = Some module ->
  member_of module (entry_method entry) = Method handler ->
  injectNodes req key self = (logged, Normal html) ->
  injectNodes req key (<[key := default [] (self !! key) ++ [entry]]> self)
  = (logged ++ (render_handler handler req).2,
     rendered ← (render_handler handler req).1;
     Normal (match self !! key with
             | Some (_ :: _) => html ++ [10] ++ rendered
             | _ => rendered
             end)).
Proof.
  intros Hdash Hmodule Hhandler Hbefore.
  unfold injectNodes at 1. rewrite lookup_insert_eq.
  destruct (self !! key) as [[|first entries]|] eqn:Hkey;
    cbn [default from_option id app].
  - unfold injectNodes in Hbefore. rewrite Hkey in Hbefore. injection Hbefore as <- <-.
    cbn [inject_entries]. rewrite Hmodule, Hhandler.
    destruct (render_handler handler req) as [[h|err] l]; simpl; by rewrite ?app_nil_r.
  - unfold injectNodes in Hbefore. rewrite Hkey in Hbefore.
    destruct (inject_entries req (first :: entries)) as [l [pieces|err]] eqn:Hold;
      [|discriminate].
    injection Hbefore as <- <-.
    change (first :: entries ++ [entry]) with ((first :: entries) ++ [entry]).
    rewrite (inject_entries_snoc req _ entry module handler l pieces Hmodule Hhandler Hold).
    pose proof (inject_entries_length _ _ _ _ Hold) as Hlen.
    destruct pieces as [|p pieces]; [discriminate|].
    destruct (render_handler handler req) as [[h|err] l']; [|reflexivity].
    cbn [fst snd mbind completion_bind]. by rewrite join_snoc.
  - rewrite (injectNodes_unregistered req key self Hdash Hkey) in Hbefore.
    injection Hbefore as <- <-.
    cbn [inject_entries]. rewrite Hmodule, Hhandler.
    destruct (render_handler handler req) as [[h|err] l]; simpl; by rewrite ?app_nil_r.
Qed.

(** A successful registration adds its method after the ones already
    registered for the same end and location, and touches no other
    key: [injectNodes] then gives, for that key, the HTML it gave
    before, a line feed, and the nodes of the new method rendered, or
    just the latter when nothing was registered, or else the exception
    of the new method or of the rendering of its nodes; for any other
    key it gives what it gave before. *)
Theorem registerRuntimeNodes_then_injectNodes
    end_ location moduleName method self self' req :
  registerRuntimeNodes end_ location moduleName method self = Returns self' ->
  let key := location_key end_ location in
  (forall key', key' <> key -> injectNodes req key' self' = injectNodes req key' self)
  /\ exists m meth module,
       moduleName = VStr m /\ method = VStr meth /\ apos_modules m = Some module
       /\ forall handler logged html,
            member_of module meth = Method handler ->
            injectNodes req key self = (logged, Normal html) ->
            injectNodes req key self'
            = (logged ++ (render_handler handler req).2,
               rendered ← (render_handler handler req).1;
               Normal (match self !! key with
                       | Some (_ :: _) => html ++ [10] ++ rendered
                       | _ => rendered
                       end)).
Proof.
  intros (m & meth & module & -> & -> & Hmodule & Hmember & ->)%registerRuntimeNodes_returns key.
  fold key. split.
  - intros key' Hkey. unfold injectNodes. by rewrite lookup_insert_ne.
  - exists m, meth, module. split; [done|]. split; [done|]. split; [done|].
    intros handler logged html Hhandler Hbefore.
    by apply (injectNodes_more req key self _ module handler);
      [apply dash_in_location_key|..].
Qed.

Lemma registered_validated self :
  registered self ->
  forall key entries,
    self !! key = Some entries -> 45 ∈ key /\ Forall validated entries.
Proof.
  induction 1 as [|end_ location moduleName method self self' Hself IH Hreg];
    intros key entries Hkey; [by rewrite lookup_empty in Hkey|].
  apply registerRuntimeNodes_returns in Hreg
    as (m & meth & module & -> & -> & Hmodule & Hmember & ->).
  rewrite lookup_insert in Hkey. case_decide as Heq.
  - subst key. injection Hkey as <-. split; [apply dash_in_location_key|].
    apply Forall_app. split.
    + destruct (self !! location_key end_ location) as [old|] eqn:Hold; [|constructor].
      by destruct (IH _ _ Hold).
    + repeat constructor. by exists module.
  - by apply IH.
Qed.

(** The loop of [injectNodes] over validated entries fails on no
    lookup and on no call of something that is no function: it ends
    with the pieces, or with what a registered method or the rendering
    of its nodes throws. *)
Lemma inject_entries_validated req entries :
  members_callable -> Forall validated entries ->
  (exists logged pieces, inject_entries req entries = (logged, Normal pieces))
  \/ (exists logged e entry module handler,
        entry ∈ entries
        /\ apos_modules (entry_moduleName entry) = Some module
        /\ member_of module (entry_method entry) = Method handler
        /\ (render_handler handler req).1 = Throw e
        /\ inject_entries req entries = (logged, Throw e)).
Proof.
  intros Hcall. induction 1 as [|entry entries (module & Hmodule & Hmember) _ IH];
    [left; by eexists _, _|].
  cbn [inject_entries]. rewrite Hmodule.
  destruct (member_of module (entry_method entry)) as [| |handler] eqn:Hm.
  - done.
  - by destruct (Hcall _ _ _ Hmodule Hm).
  - destruct (render_handler handler req) as [[html|err] l] eqn:Hrender.
    + destruct IH as [(logged & pieces & ->)|(logged & e & entry' & module' & handler'
                                               & Hin & Hmodule' & Hm' & Hthrow & ->)].
      * left. by eexists _, _.
      * right. exists (l ++ logged), e, entry', module', handler'.
        split; [by apply elem_of_cons; right|]. by repeat split.
    + right. exists l, err, entry, module, handler.
      split; [by apply elem_of_cons; left|]. repeat split; try done.
      by rewrite Hrender.
Qed.

(** What [registerRuntimeNodes] checks is enough for the lookups of
    [injectNodes] to succeed: after any number of successful
    registrations every key in use has the form end-location, every
    registered module exists and has the registered method, and, where
    every truthy member of a module is a function, [injectNodes], for
    every such key, registered or not, returns its HTML or throws what
    a method registered for the key throws, itself or while its nodes
    are rendered; so it returns its HTML when all these methods return
    nodes that can be rendered. *)
Theorem injectNodes_after_registration self :
  registered self ->
  (forall key entries,
      self !! key = Some entries -> 45 ∈ key /\ Forall validated entries)
  /\ (members_callable ->
      forall req key, 45 ∈ key ->
        ((exists logged html, injectNodes req key self = (logged, Normal html))
         \/ (exists logged e entry module handler,
               entry ∈ default [] (self !! key)
               /\ apos_modules (entry_moduleName entry) = Some module
               /\ member_of module (entry_method entry) = Method handler
               /\ (render_handler handler req).1 = Throw e
               /\ injectNodes req key self = (logged, Throw e)))
        /\ ((forall entry module handler,
               entry ∈ default [] (self !! key) ->
               apos_modules (entry_moduleName entry) = Some module ->
               member_of module (entry_method entry) = Method handler ->
               exists html, (render_handler handler req).1 = Normal html) ->
            exists logged html, injectNodes req key self = (logged, Normal html))).
Proof.
  intros Hself. split; [by apply registered_validated|].
  intros Hcall req key Hdash.
  assert (Hcases :
    (exists logged html, injectNodes req key self = (logged, Normal html))
    \/ (exists logged e entry module handler,
          entry ∈ default [] (self !! key)
          /\ apos_modules (entry_moduleName entry) = Some module
          /\ member_of module (entry_method entry) = Method handler
          /\ (render_handler handler req).1 = Throw e
          /\ injectNodes req key self = (logged, Throw e))).
  { destruct (self !! key) as [entries|] eqn:Hkey.
    - destruct (registered_validated self Hself key entries Hkey) as [_ Hvalid].
      unfold injectNodes. rewrite Hkey. cbn [default from_option id].
      destruct (inject_entries_validated req entries Hcall Hvalid)
        as [(logged & pieces & H)|(logged & e & entry & module & handler
                                    & Hin & Hmodule & Hm & Hthrow & H)].
      + left. destruct entries as [|e entries]; [by eexists _, _|].
        rewrite H. by eexists _, _.
      + right. exists logged, e, entry, module, handler.
        repeat split; try done.
        destruct entries as [|first entries]; [by apply elem_of_nil in Hin|].
        by rewrite H.
    - left. rewrite injectNodes_unregistered by assumption. by eexists _, _. }
  split; [exact Hcases|]. intros Hrendered.
  destruct Hcases as [H|(logged & e & entry & module & handler
                          & Hin & Hmodule & Hm & Hthrow & _)]; [exact H|].
  destruct (Hrendered entry module handler Hin Hmodule Hm) as [html Hhtml].
  congruence.
Qed.

(** The two ends of a location are apart: what [prependNodes] registers
    never shows where the nodes appended to a location are injected,
    and the other way round. *)
Theorem prependNodes_appendNodes_apart location moduleName method self self' req
    (where_ : jsstring) :
  (prependNodes location moduleName method self = Returns self' ->
   injectNodes req (str "append-" ++ where_) self'
   = injectNodes req (str "append-" ++ where_) self)
  /\ (appendNodes location moduleName method self = Returns self' ->
      injectNodes req (str "prepend-" ++ where_) self'
      = injectNodes req (str "prepend-" ++ where_) self).
Proof.
  split; intros (m & meth & module & -> & -> & Hmodule & Hmember & ->)%registerRuntimeNodes_returns;
    unfold injectNodes; rewrite lookup_insert_ne; try reflexivity;
    unfold location_key; intros H; apply (f_equal head) in H; vm_compute in H;
    discriminate.
Qed.

(** *** Registering and resolving insertions *)

Lemma resolve_entries_snoc_undefined asset data entries entry store :
  conditions entry = CondUndefined ->
  resolve_entries asset data store (entries ++ [entry])
  = ((resolve_entries asset data store entries).1.1,
     (resolve_entries asset data store entries).1.2,
     components ← (resolve_entries asset data store entries).2;
     Normal (if truthy (read data (str "when")) then components
             else components ++ [component entry])).
Proof.
  intros Hcond. revert store.
  induction entries as [|first rest IH]; intros store.
  - cbn [app resolve_entries].
    assert (Hunc : unconditional store entry) by (unfold unconditional; by rewrite Hcond).
    destruct (resolve_entry_unconditional asset data store entry Hunc) as [Hl Hr].
    assert (Hs : (resolve_entry asset data store entry).1.1 = store).
    { unfold resolve_entry. rewrite Hcond.
      by destruct (resolve_conditions asset data ∅) as [[? ?] ?]. }
    destruct (resolve_entry asset data store entry) as [[s l] r]. simpl in *. subst.
    by destruct (truthy (read data (str "when"))).
  - cbn [app resolve_entries].
    destruct (resolve_entry asset data store first) as [[s l] [pushed|err]]; [|reflexivity].
    rewrite IH.
    destruct (resolve_entries asset data s rest) as [[s' l'] [components|err]]; [|reflexivity].
    simpl. by destruct pushed, (truthy (read data (str "when"))).
Qed.

Lemma getInjectedComponents_insert_undefined
    asset data end_ location componentName self :
  let self' := insert end_ (Where location) componentName CondUndefined self in
  let key := location_key end_ location in
  (getInjectedComponents asset key data self').2
  = (components ← (getInjectedComponents asset key data self).2;
     Normal (if truthy (read data (str "when")) then components
             else components ++ [componentName]))
  /\ (getInjectedComponents asset key data self').1.2
     = (getInjectedComponents asset key data self).1.2.
Proof.
  intros self' key.
  assert (Hkey : insertions self' !! key
                 = Some (default [] (insertions self !! key)
                         ++ [ {| component := componentName; conditions := CondUndefined |} ])).
  { unfold self', insert. cbn [insertions]. apply lookup_insert_eq. }
  assert (Hstore : objects self' = objects self) by reflexivity.
  unfold getInjectedComponents. rewrite Hkey, Hstore.
  rewrite resolve_entries_snoc_undefined by reflexivity.
  destruct (insertions self !! key) as [entries|]; cbn [default from_option id].
  - by destruct (resolve_entries asset data (objects self) entries) as [[s l] r].
  - unfold key. rewrite dash_outside_prototype by apply dash_in_location_key.
    simpl. by destruct (truthy (read data (str "when"))).
Qed.

(** A component registered without conditions comes last among the
    components of its own end and location at a call site without a
    phase tag, and is left out at a tagged one; what was registered
    before is resolved as before, and no other key changes.  [prepend]
    and [append] register a component given by name in this way, under
    the ends of their names. *)
Theorem insert_then_getInjectedComponents asset data end_ location componentName self :
  let self' := insert end_ (Where location) componentName CondUndefined self in
  let key := location_key end_ location in
  (getInjectedComponents asset key data self').2
  = (components ← (getInjectedComponents asset key data self).2;
     Normal (if truthy (read data (str "when")) then components
             else components ++ [componentName]))
  /\ (getInjectedComponents asset key data self').1.2
     = (getInjectedComponents asset key data self).1.2
  /\ (forall key',
        key' <> key ->
        (getInjectedComponents asset key' data self').2
        = (getInjectedComponents asset key' data self).2
        /\ (getInjectedComponents asset key' data self').1.2
           = (getInjectedComponents asset key' data self).1.2)
  /\ (forall name,
        prepend (Where location) (VStr name) CondUndefined self
        = Normal (insert (str "prepend") (Where location) (VStr name) CondUndefined self)
        /\ append (Where location) (VStr name) CondUndefined self
           = Normal (insert (str "append") (Where location) (VStr name) CondUndefined self)).
Proof.
  intros self' key.
  destruct (getInjectedComponents_insert_undefined asset data end_ location
              componentName self) as [Hresult Hlogged].
  split; [exact Hresult|]. split; [exact Hlogged|]. split.
  - intros key' Hne.
    assert (Hother : insertions self' !! key' = insertions self !! key').
    { unfold self', insert. cbn [insertions]. by apply lookup_insert_ne. }
    assert (Hstore : objects self' = objects self) by reflexivity.
    unfold getInjectedComponents. rewrite Hother, Hstore.
    destruct (insertions self !! key') as [entries|];
      [|by destruct (in_object_prototype key')].
    by destruct (resolve_entries asset data (objects self) entries) as [[s l] r].
  - intros name. by split.
Qed.

Lemma store_normalized_read store store' ref k :
  store_normalized_from store store' -> k <> str "when" ->
  read (default ∅ (store' !! ref)) k = read (default ∅ (store !! ref)) k.
Proof.
  intros Hstore Hk. unfold read.
  by rewrite (normalized_from_frame _ _ k (Hstore ref) Hk).
Qed.

Lemma store_normalized_phases store store' ref :
  store_normalized_from store store' ->
  phases (default ∅ (store' !! ref)) = phases (default ∅ (store !! ref)).
Proof.
  intros Hstore. unfold phases.
  destruct (Hstore ref) as [->| ->]; [reflexivity|].
  by rewrite normalize_when_idempotent.
Qed.

(** Every exception of the resolution is a [TypeError]. *)
Lemma split_colon_throws val e :
  split_colon val = Throw e -> exists message, e = TypeError message.
Proof. destruct val; try discriminate; intros [= <-]; eauto. Qed.

Lemma handlers_throw asset fn arg e :
  getInjectConditionHandlers asset fn arg = Some (Throw e) ->
  exists message, e = TypeError message.
Proof.
  unfold getInjectConditionHandlers.
  repeat match goal with
         | |- context [if ?b then _ else _] => destruct b
         end; try discriminate; intros [= <-]; eauto.
Qed.

Lemma every_condition_throws asset when rest e :
  (every_condition asset when rest).2 = Throw e -> exists message, e = TypeError message.
Proof.
  induction rest as [|val rest IH]; [discriminate|]. cbn [every_condition].
  destruct (split_colon val) as [parts|err] eqn:Hsplit.
  - destruct (getInjectConditionHandlers asset (hd [] parts) (parts !! 1%nat))
      as [[[|]|err]|] eqn:Hh; try discriminate; [exact IH|].
    intros [= <-]. by apply handlers_throw in Hh.
  - intros [= <-]. by apply split_colon_throws in Hsplit.
Qed.

Lemma mapM_split_throws (elements : list value) e :
  mapM (fun s => parts ← split_colon s; Normal (hd [] parts)) elements = Throw e ->
  exists message, e = TypeError message.
Proof.
  induction elements as [|first rest IH]; cbn [mapM]; [discriminate|].
  destruct (split_colon first) as [parts|err] eqn:Hsplit; cbn [mbind completion_bind].
  - destruct (mapM _ rest) as [names|err]; [discriminate|].
    cbn [mbind completion_bind]. intros [= <-]. by apply IH.
  - intros [= <-]. by apply split_colon_throws in Hsplit.
Qed.

Lemma resolve_conditions_throws asset data c e :
  (resolve_conditions asset data c).2 = Throw e -> exists message, e = TypeError message.
Proof.
  unfold resolve_conditions. destruct (_ && _ && _); [discriminate|].
  unfold resolve_normalized.
  destruct (truthy (read data (str "when"))).
  - destruct (mapM _ _) as [names|err] eqn:Hnames.
    + cbn [mbind completion_bind]. destruct (negb _); [discriminate|].
      cbn [negb andb].
      pose proof (every_condition_throws asset
                    (read (normalize_when c) (str "when"))
                    (array_elements (read (normalize_when c) (str "when")))) as H.
      destruct (every_condition _ _ _) as [logged [met|err]]; [|simpl in *; by intros [= <-]; apply H].
      by destruct (_ && _).
    + cbn [mbind completion_bind]. intros [= <-]. by apply mapM_split_throws in Hnames.
  - destruct (_ && _); [discriminate|].
    pose proof (every_condition_throws asset
                  (read (normalize_when c) (str "when"))
                  (array_elements (read (normalize_when c) (str "when")))) as H.
    destruct (every_condition _ _ _) as [logged [met|err]]; [|simpl in *; by intros [= <-]; apply H].
    by destruct (_ && _).
Qed.

Lemma resolve_entry_throws asset data store entry e :
  (resolve_entry asset data store entry).2 = Throw e -> exists message, e = TypeError message.
Proof.
  unfold resolve_entry. destruct (conditions entry) as [| |ref].
  - pose proof (resolve_conditions_throws asset data ∅ e) as H.
    by destruct (resolve_conditions asset data ∅) as [[o l] r].
  - intros [= <-]. eauto.
  - pose proof (resolve_conditions_throws asset data (default ∅ (store !! ref)) e) as H.
    by destruct (resolve_conditions asset data (default ∅ (store !! ref))) as [[o l] r].
Qed.

Lemma resolve_entries_null asset data entries entry store :
  entry ∈ entries -> conditions entry = CondNull ->
  exists message, (resolve_entries asset data store entries).2 = Throw (TypeError message).
Proof.
  intros Hin Hnull. revert store.
  induction entries as [|first rest IH]; intros store; [by apply elem_of_nil in Hin|].
  cbn [resolve_entries].
  pose proof (resolve_entry_throws asset data store first) as Hthrows.
  destruct (resolve_entry asset data store first) as [[s l] [pushed|err]] eqn:Hfirst.
  - apply elem_of_cons in Hin as [->|Hin].
    + unfold resolve_entry in Hfirst. by rewrite Hnull in Hfirst.
    + destruct (IH Hin s) as [message Hrest].
      destruct (resolve_entries asset data s rest) as [[s' l'] r]. simpl in *. subst r.
      by exists message.
  - destruct (Hthrows err eq_refl) as [message ->]. by exists message.
Qed.

Lemma resolve_entries_throws asset data entries store e :
  (resolve_entries asset data store entries).2 = Throw e ->
  exists message, e = TypeError message.
Proof.
  revert store. induction entries as [|first rest IH]; intros store; [discriminate|].
  cbn [resolve_entries].
  pose proof (resolve_entry_throws asset data store first) as Hfirst.
  destruct (resolve_entry asset data store first) as [[s l] [pushed|err]].
  - specialize (IH s).
    destruct (resolve_entries asset data s rest) as [[s' l'] [cs|err]]; [discriminate|].
    simpl. intros [= <-]. by apply IH.
  - simpl. intros [= <-]. by apply Hfirst.
Qed.

(** Entries none of which can be pushed give no component. *)
Lemma resolve_entries_all_left_out (asset : asset_module) (data : gmap jsstring value)
    (Q : gmap nat (gmap jsstring value) -> insertion -> Prop) :
  (forall store store' entry,
      store_normalized_from store store' -> Q store entry -> Q store' entry) ->
  (forall store entry,
      Q store entry -> (resolve_entry asset data store entry).2 <> Normal true) ->
  forall entries store components,
    (forall entry, entry ∈ entries -> Q store entry) ->
    (resolve_entries asset data store entries).2 = Normal components ->
    components = [].
Proof.
  intros Hkeep Hout entries.
  induction entries as [|first rest IH]; intros store components Hall Hrun.
  - by injection Hrun as <-.
  - cbn [resolve_entries] in Hrun.
    pose proof (Hout store first (Hall first ltac:(by apply elem_of_cons; left))) as Hfirst.
    pose proof (resolve_entry_store asset data store first) as Hstore.
    destruct (resolve_entry asset data store first) as [[s l] [pushed|err]];
      [|discriminate].
    simpl in Hfirst, Hstore.
    assert (Hrest : forall entry, entry ∈ rest -> Q s entry).
    { intros entry Hin. apply (Hkeep store); [exact Hstore|].
      apply Hall, elem_of_cons. by right. }
    specialize (IH s). 
    destruct (resolve_entries asset data s rest) as [[s' l'] [cs|err]]; [|discriminate].
    simpl in *. rewrite (IH cs Hrest eq_refl) in Hrun.
    destruct pushed; [done|]. by injection Hrun as <-.
Qed.

Lemma getInjectedComponents_all_left_out (asset : asset_module)
    (data : gmap jsstring value)
    (Q : gmap nat (gmap jsstring value) -> insertion -> Prop) key self entries :
  (forall store store' entry,
      store_normalized_from store store' -> Q store entry -> Q store' entry) ->
  (forall store entry,
      Q store entry -> (resolve_entry asset data store entry).2 <> Normal true) ->
  insertions self !! key = Some entries ->
  (forall entry, entry ∈ entries -> Q (objects self) entry) ->
  (getInjectedComponents asset key data self).2 = Normal []
  \/ exists message,
       (getInjectedComponents asset key data self).2 = Throw (TypeError message).
Proof.
  intros Hkeep Hout Hkey Hall. unfold getInjectedComponents. rewrite Hkey.
  pose proof (resolve_entries_all_left_out asset data Q Hkeep Hout entries
                (objects self)) as Hnone.
  pose proof (resolve_entries_throws asset data entries (objects self)) as Hthrows.
  destruct (resolve_entries asset data (objects self) entries) as [[s l] [cs|err]];
    simpl in *.
  - left. by rewrite (Hnone cs Hall eq_refl).
  - right. destruct (Hthrows err eq_refl) as [message ->]. by exists message.
Qed.

Lemma resolve_conditions_other_bundler asset data c :
  truthy (read c (str "bundler")) = true ->
  is_the_string (read c (str "bundler")) (currentBundler asset) = false ->
  (resolve_conditions asset data c).2 <> Normal true.
Proof.
  intros Hb Hm. unfold resolve_conditions. rewrite Hb. cbn [negb andb].
  unfold resolve_normalized. rewrite read_normalize_bundler, Hb.
  fold (currentBundler asset). rewrite Hm. cbn [negb andb].
  destruct (if truthy (read data (str "when")) then _ else _) as [[|]|err]; try done.
  destruct (_ && _); [done|].
  by destruct (every_condition _ _ _) as [logged [met|err]].
Qed.

(** A component registered for a bundler is never injected while
    another bundler is in use, whatever its phases and the tag of the
    call site: where every entry of a key is registered for another
    bundler than the current one, the call returns no component, unless
    it throws a [TypeError]. *)
Theorem getInjectedComponents_other_bundler asset key data self entries :
  insertions self !! key = Some entries ->
  (forall entry, entry ∈ entries -> for_other_bundler asset (objects self) entry) ->
  (getInjectedComponents asset key data self).2 = Normal []
  \/ exists message,
       (getInjectedComponents asset key data self).2 = Throw (TypeError message).
Proof.
  intros Hkey Hall.
  apply (getInjectedComponents_all_left_out asset data (for_other_bundler asset))
    with (entries := entries); [| |exact Hkey|exact Hall].
  - intros store store' entry Hstore. unfold for_other_bundler.
    destruct (conditions entry) as [| |ref]; try done.
    rewrite (store_normalized_read store store' ref (str "bundler") Hstore); [done|].
    intros H. symmetry in H. by apply when_is_not_bundler in H.
  - intros store entry. unfold for_other_bundler, resolve_entry.
    destruct (conditions entry) as [| |ref]; try done. intros [Hb Hm].
    pose proof (resolve_conditions_other_bundler asset data _ Hb Hm) as H.
    by destruct (resolve_conditions asset data (default ∅ (store !! ref))) as [[o l] r].
Qed.

Lemma mapM_phase_names (elements : list value) names name :
  mapM (fun s => parts ← split_colon s; Normal (hd [] parts)) elements = Normal names ->
  name ∈ names ->
  exists s, VStr s ∈ elements /\ hd [] (js_split 58 s) = name.
Proof.
  revert names. induction elements as [|first rest IH]; intros names; cbn [mapM].
  - intros [= <-] Hin. by apply elem_of_nil in Hin.
  - destruct first as [| | | |s| | |]; try discriminate. cbn [split_colon mbind completion_bind].
    destruct (mapM _ rest) as [names'|err]; [|discriminate].
    cbn [mbind completion_bind mret completion_ret]. intros [= <-] [->|Hin]%elem_of_cons.
    + exists s. split; [by apply elem_of_cons; left|reflexivity].
    + destruct (IH names' eq_refl Hin) as (s' & Hs' & Hname).
      exists s'. split; [by apply elem_of_cons; right|exact Hname].
Qed.

Lemma is_the_string_existsb (v : value) names :
  existsb (is_the_string v) names = true -> exists name, name ∈ names /\ v = VStr name.
Proof.
  induction names as [|first rest IH]; [discriminate|]. cbn [existsb].
  intros [H|H]%orb_prop.
  - exists first. split; [by apply elem_of_cons; left|].
    destruct v; try discriminate. cbn [is_the_string] in H.
    by apply bool_decide_eq_true_1 in H as ->.
  - destruct (IH H) as (name & Hin & ->). exists name. split; [|reflexivity].
    apply elem_of_cons. by right.
Qed.

Lemma resolve_conditions_other_phase asset data c tag :
  read data (str "when") = VStr tag -> tag <> [] ->
  (forall s, VStr s ∈ phases c -> hd [] (js_split 58 s) <> tag) ->
  (resolve_conditions asset data c).2 <> Normal true.
Proof.
  intros Hdata Htag Hnone.
  assert (Htruthy : truthy (read data (str "when")) = true).
  { rewrite Hdata. by destruct tag. }
  unfold resolve_conditions. rewrite Htruthy, andb_false_r.
  unfold resolve_normalized. rewrite Htruthy. fold (phases c).
  destruct (mapM _ (phases c)) as [names|err] eqn:Hnames; [|done].
  cbn [mbind completion_bind].
  destruct (existsb (is_the_string (read data (str "when"))) names) eqn:Hex; [|done].
  exfalso. apply is_the_string_existsb in Hex as (name & Hin & Hname).
  rewrite Hdata in Hname. injection Hname as <-.
  destruct (mapM_phase_names _ _ _ Hnames Hin) as (s & Hs & Heq).
  by apply (Hnone s Hs).
Qed.

Lemma resolve_conditions_phases_untagged asset data c :
  truthy (read data (str "when")) = false ->
  phases c <> [] ->
  (resolve_conditions asset data c).2 <> Normal true.
Proof.
  intros Hdata Hphases.
  assert (Hwhen : truthy (read c (str "when")) = true).
  { destruct (truthy (read c (str "when"))) eqn:E; [reflexivity|].
    exfalso. apply Hphases. unfold phases. rewrite read_normalize_when, E.
    destruct (is_array (read c (str "when"))) eqn:Harr; [|reflexivity].
    apply is_array_truthy in Harr. congruence. }
  unfold resolve_conditions. rewrite Hwhen, andb_false_r. cbn [andb].
  unfold resolve_normalized. rewrite Hdata. fold (phases c). cbn [negb andb].
  destruct (phases c); [done|]. by cbn.
Qed.

(** Both sides must agree on the phase.  At a call site tagged with a
    phase, entries none of which names that phase before a colon give no
    component; at a call site without a tag, entries that all have a
    phase give none either.  In both cases the call returns no
    component, unless it throws a [TypeError]. *)
Theorem getInjectedComponents_phases_must_match asset key data self entries :
  insertions self !! key = Some entries ->
  (forall tag,
      read data (str "when") = VStr tag -> tag <> [] ->
      (forall entry, entry ∈ entries -> ~ registered_for (objects self) entry tag) ->
      (getInjectedComponents asset key data self).2 = Normal []
      \/ exists message,
           (getInjectedComponents asset key data self).2 = Throw (TypeError message))
  /\ (truthy (read data (str "when")) = false ->
      (forall entry, entry ∈ entries -> has_phases (objects self) entry) ->
      (getInjectedComponents asset key data self).2 = Normal []
      \/ exists message,
           (getInjectedComponents asset key data self).2 = Throw (TypeError message)).
Proof.
  intros Hkey. split.
  - intros tag Hdata Htag Hall.
    apply (getInjectedComponents_all_left_out asset data
             (fun store entry => ~ registered_for store entry tag))
      with (entries := entries); [| |exact Hkey|exact Hall].
    + intros store store' entry Hstore. unfold registered_for.
      destruct (conditions entry) as [| |ref]; try done.
      by rewrite (store_normalized_phases store store' ref Hstore).
    + intros store entry Hnot. unfold resolve_entry.
      destruct (conditions entry) as [| |ref] eqn:Hcond.
      * pose proof (resolve_conditions_no_conditions asset data ∅ no_conditions_empty)
          as [_ H].
        destruct (resolve_conditions asset data ∅) as [[o l] r]. simpl in *. subst r.
        rewrite Hdata. by destruct tag.
      * done.
      * assert (H : (resolve_conditions asset data (default ∅ (store !! ref))).2
                    <> Normal true).
        { apply (resolve_conditions_other_phase asset data _ tag Hdata Htag).
          intros s Hs Heq. apply Hnot. unfold registered_for. rewrite Hcond. eauto. }
        by destruct (resolve_conditions asset data (default ∅ (store !! ref))) as [[o l] r].
  - intros Hdata Hall.
    apply (getInjectedComponents_all_left_out asset data has_phases)
      with (entries := entries); [| |exact Hkey|exact Hall].
    + intros store store' entry Hstore. unfold has_phases.
      destruct (conditions entry) as [| |ref]; try done.
      by rewrite (store_normalized_phases store store' ref Hstore).
    + intros store entry. unfold has_phases, resolve_entry.
      destruct (conditions entry) as [| |ref]; try done. intros Hphases.
      pose proof (resolve_conditions_phases_untagged asset data _ Hdata Hphases) as H.
      by destruct (resolve_conditions asset data (default ∅ (store !! ref))) as [[o l] r].
Qed.

(** A registration in the one-object form that sets no condition, that
    is an object with no property besides [component] and [where],
    stores null for its conditions; from then on every resolution of
    the components of its end and location throws a [TypeError],
    whatever the call site and whatever else is registered. *)
Theorem insert_described_without_conditions
    asset data end_ description componentName conditions self :
  (forall k, k <> str "component" -> k <> str "where" -> description !! k = None) ->
  let self' := insert end_ (Described description) componentName conditions self in
  let key := location_key end_ (read description (str "where")) in
  (exists registered,
      insertions self' !! key
      = Some (registered ++ [ {| component := read description (str "component");
                                 conditions := CondNull |} ]))
  /\ exists message,
       (getInjectedComponents asset key data self').2 = Throw (TypeError message).
Proof.
  intros Hkeys self' key.
  assert (Hrest : delete (str "component") (delete (str "where") description)
                  = (∅ : gmap jsstring value)).
  { apply map_eq. intros k. rewrite lookup_empty.
    destruct (decide (k = str "component")) as [->|Hc]; [apply lookup_delete_eq|].
    rewrite lookup_delete_ne by done.
    destruct (decide (k = str "where")) as [->|Hw]; [apply lookup_delete_eq|].
    rewrite lookup_delete_ne by done. by apply Hkeys. }
  assert (Hkey : insertions self' !! key
                 = Some (default [] (insertions self !! key)
                         ++ [ {| component := read description (str "component");
                                 conditions := CondNull |} ])).
  { unfold self', insert. rewrite Hrest, map_size_empty. cbn [insertions].
    apply lookup_insert_eq. }
  split; [eauto|].
  unfold getInjectedComponents. rewrite Hkey.
  destruct (resolve_entries_null asset data
              (default [] (insertions self !! key)
               ++ [ {| component := read description (str "component");
                       conditions := CondNull |} ])
              {| component := read description (str "component"); conditions := CondNull |}
              (objects self')) as [message H].
  { apply elem_of_app. right. by apply elem_of_cons; left. }
  { reflexivity. }
  exists message.
  by destruct (resolve_entries _ _ _ _) as [[s l] r].
Qed.

(** *** The inject component *)

(** What [prepend] or [append] registers for a location, and what
    [prependNodes] or [appendNodes] registers for it, is what the
    [inject] component delivers for that end and location: at a call
    site without a phase tag the component comes last among the
    components, and the nodes of the method, rendered, come last in the
    HTML, after a line feed when there was HTML before; what the method
    or the rendering of its nodes throws is what the component throws.
    At a call site with a phase tag no runtime node is rendered. *)
Theorem inject_delivers_registrations
    asset req data self nodes nodes' end_ location componentName moduleName method :
  read data (str "end") = VStr end_ ->
  read data (str "where") = location ->
  registerRuntimeNodes end_ location moduleName method nodes = Returns nodes' ->
  let self' := insert end_ (Where location) componentName CondUndefined self in
  (truthy (read data (str "when")) = false ->
   forall components html,
     (inject asset req data self nodes).2 = Normal (components, html) ->
     exists m meth module,
       moduleName = VStr m /\ method = VStr meth /\ apos_modules m = Some module
       /\ forall handler,
            member_of module meth = Method handler ->
            (inject asset req data self' nodes').2
            = (rendered ← (render_handler handler req).1;
               Normal (components ++ [componentName],
                       match nodes !! location_key end_ location with
                       | Some (_ :: _) => html ++ [10] ++ rendered
                       | _ => rendered
                       end)))
  /\ (truthy (read data (str "when")) = true ->
      forall components html,
        (inject asset req data self' nodes').2 = Normal (components, html) ->
        html = []
        /\ (inject asset req data self nodes).2 = Normal (components, [])).
Proof.
  intros Hend Hwhere
    (m & meth & module & -> & -> & Hmodule & Hmember & ->)%registerRuntimeNodes_returns
    self'.
  set (key := location_key end_ location).
  destruct (getInjectedComponents_insert_undefined asset data end_ location
              componentName self) as [Hafter _].
  fold self' key in Hafter.
  assert (Hkey : ToString (read data (str "end")) ++ str "-"
                 ++ ToString (read data (str "where")) = key).
  { by rewrite Hend, Hwhere. }
  split.
  - intros Huntagged components html Hrun.
    exists m, meth, module. split; [done|]. split; [done|]. split; [done|].
    intros handler Hhandler.
    unfold inject in *. rewrite Hkey in *. rewrite Huntagged in *.
    destruct (getInjectedComponents asset key data self') as [[r' l'] c'].
    destruct (getInjectedComponents asset key data self) as [[r l] [cs|err]];
      [|discriminate].
    simpl in Hafter. subst c'.
    destruct (injectNodes req key nodes) as [logged [h|err]] eqn:Hnodes; [|discriminate].
    simpl in Hrun. injection Hrun as <- <-.
    rewrite (injectNodes_more req key nodes
               {| entry_moduleName := m; entry_method := meth |} module handler logged h
               (dash_in_location_key _ _) Hmodule Hhandler Hnodes).
    by destruct (render_handler handler req).1.
  - intros Htagged components html Hrun.
    unfold inject in *. rewrite Hkey in *. rewrite Htagged in *.
    destruct (getInjectedComponents asset key data self') as [[r' l'] c'].
    destruct (getInjectedComponents asset key data self) as [[r l] [cs|err]];
      simpl in Hafter; subst c'; [|discriminate].
    simpl in Hrun. by injection Hrun as <- <-.
Qed.

(** *** JSON that needs no escaping *)

Lemma replace_global_absent canon p r s :
  occurs canon p s = false -> replace_global canon p r s = s.
Proof.
  unfold replace_global. induction s as [|c s IH]; [reflexivity|].
  cbn [occurs replace_global_from]. intros [Hm Ho]%orb_false_elim.
  rewrite Hm. by rewrite IH.
Qed.

(** [jsonForHtml] returns the JSON text of its argument as it is
    exactly when that text holds none of the four patterns: no comment
    opening, no closing script tag in any letter case, and neither of
    the two separators. *)
Theorem jsonForHtml_unchanged_json data json :
  JSON_stringify data = Some json ->
  jsonForHtml data = Normal json
  <-> includes json (str "<!--") = false
      /\ occurs canonicalize_ascii (str "</script>") json = false
      /\ (8232 ∉ json) /\ (8233 ∉ json).
Proof.
  intros Hjson.
  assert (Hrun : jsonForHtml data
                 = Normal
                     (replace_global id [8233] (92 :: str "u2029")
                        (replace_global id [8232] (92 :: str "u2028")
                           (replace_global canonicalize_ascii (str "</script>")
                              (str "<\/script>")
                              (replace_global id (str "<!--") (str "<\!--") json))))).
  { unfold jsonForHtml. rewrite Hjson. by destruct data. }
  rewrite Hrun. split.
  - intros [= Hout].
    pose proof (script_replacements_safe json) as Hsafe. cbv zeta in Hsafe.
    rewrite Hout in Hsafe. destruct Hsafe as (H1 & H2 & H3 & H4).
    exact (conj H2 (conj H1 (conj H3 H4))).
  - intros (Hcomment & Hscript & Hls & Hps).
    rewrite (replace_global_absent id (str "<!--")) by exact Hcomment.
    rewrite (replace_global_absent canonicalize_ascii (str "</script>")) by exact Hscript.
    rewrite (replace_global_absent id [8232]) by by apply occurs_without_head.
    by rewrite (replace_global_absent id [8233]) by by apply occurs_without_head.
Qed.

(** *** The name of a template file *)

Lemma has_extension_html s : has_extension (s ++ str ".html") = true.
Proof.
  induction s as [|c s IH]; [vm_compute; reflexivity|].
  cbn [app has_extension]. rewrite IH. apply orb_true_r.
Qed.

(** [getEnv] gives an environment for every module whose name is not
    read as a path. *)
Lemma getEnv_some opts rootDir self module :
  is_deep (name (meta module)) = false ->
  exists env, (getEnv opts rootDir self module).1 = Some env.
Proof.
  intros Hdeep.
  destruct (getEnv_cases opts rootDir self module) as [[Hhas ->]|(_ & _ & ->)];
    [|by eexists].
  unfold has_env in Hhas. cbn [fst].
  destruct (envs self !! name (meta module)) as [e|]; [by exists e|].
  by rewrite Hdeep in Hhas.
Qed.


(** *** Asking for an option *)

Lemma indexOf_app c (a b : jsstring) :
  c ∉ a -> indexOf c (a ++ c :: b) = Some (length a).
Proof.
  induction a as [|d a IH]; intros Hc; cbn [app indexOf length].
  - by rewrite N.eqb_refl.
  - apply not_elem_of_cons in Hc as [Hd Ha].
    destruct (N.eqb_spec d c) as [->|_]; [done|]. by rewrite IH.
Qed.

Lemma drop_after (c : code_unit) (a b : jsstring) :
  drop (S (length a)) (a ++ c :: b) = b.
Proof. induction a as [|d a IH]; [reflexivity|exact IH]. Qed.

Lemma indexOf_none c (a : jsstring) : c ∉ a -> indexOf c a = None.
Proof.
  induction a as [|d a IH]; intros Hc; [reflexivity|]. cbn [indexOf].
  apply not_elem_of_cons in Hc as [Hd Ha].
  destruct (N.eqb_spec d c) as [->|_]; [done|]. by rewrite IH.
Qed.

(** The [getOption] helper of a template reads a key with a colon as
    the name of a module, up to the first colon, and a key of that
    module, which may hold further colons; a key without a colon is a
    key of the module that renders.  A module that does not exist
    makes the call throw. *)
Theorem args_getOption_names_module args (moduleName key : jsstring) def :
  (58 ∉ moduleName ->
   args_getOption args (moduleName ++ str ":" ++ key) def
   = match apos_modules moduleName with
     | Some optionModule => Normal (getOption_of optionModule (args_req args) key def)
     | None => Throw (TypeError "Cannot read properties of undefined (reading 'getOption')")
     end)
  /\ (58 ∉ key ->
      args_getOption args key def
      = match apos_modules (name (meta (args_module args))) with
        | Some optionModule => Normal (getOption_of optionModule (args_req args) key def)
        | None => Throw (TypeError "Cannot read properties of undefined (reading 'getOption')")
        end).
Proof.
  split.
  - intros Hname. unfold args_getOption.
    change (str ":" ++ key) with (58 :: key).
    rewrite indexOf_app by exact Hname.
    by rewrite take_app_length, drop_after.
  - intros Hkey. unfold args_getOption. by rewrite indexOf_none.
Qed.

(** *** The environment of a module *)

(** An environment that [getEnv] returns for a module is the
    environment of that module, on the loader of that module: a new one
    searches the view folders of the module as [getViewFolders] lists
    them, and one made before is returned as it is, the caches staying
    as they were.  There is one for every module whose name is not read
    as a path; [getEnv] returns undefined exactly for a name that is
    read as a path, is not cached and is found as a path in the cache,
    and it then leaves the caches as they were. *)
Theorem getEnv_loader_of_module opts rootDir self module :
  reachable self ->
  (forall env,
      (getEnv opts rootDir self module).1 = Some env ->
      env_module env = name (meta module)
      /\ loader_moduleName (env_loader env) = name (meta module)
      /\ (envs self !! name (meta module) = None ->
          loader_dirs (env_loader env) = getViewFolders opts rootDir module)
      /\ (forall cached,
            envs self !! name (meta module) = Some cached ->
            env = cached /\ (getEnv opts rootDir self module).2 = self))
  /\ (is_deep (name (meta module)) = false ->
      exists env, (getEnv opts rootDir self module).1 = Some env)
  /\ ((getEnv opts rootDir self module).1 = None
      <-> is_deep (name (meta module)) = true
          /\ envs self !! name (meta module) = None
          /\ has_path (envs self) (name (meta module)) = true)
  /\ ((getEnv opts rootDir self module).1 = None ->
      (getEnv opts rootDir self module).2 = self).
Proof.
  intros Hwf%reachable_wf.
  pose proof (getEnv_spec opts rootDir self module Hwf)
    as (Hwf' & _ & _ & Hsome & Hnone & Hkey).
  split; [|split; [exact Hkey|split; [split|]]].
  - intros env Henv. destruct (Hsome env Henv) as (Hmodule & _ & Hloader & Hfrom).
    destruct (wf_loader_key _ Hwf' _ _ Hloader) as [Hlkey _].
    apply loader_key_inj in Hlkey as [Hm _].
    split; [exact Hmodule|]. split; [by rewrite <- Hm|]. split.
    + intros Hfresh. destruct Hfrom as [[Hc _]|(_ & _ & Hdirs & _)]; [congruence|done].
    + intros cached Hcached.
      destruct Hfrom as [[Hc Hsame]|(Hc & _)]; [|congruence].
      split; [congruence|exact Hsame].
  - intros H. by destruct (Hnone H) as (_ & ? & ? & ?).
  - intros (Hdeep & Hname & Hpath).
    destruct (getEnv_cases opts rootDir self module) as [[Hhas ->]|(Hhas & _ & _)];
      [exact Hname|].
    unfold has_env in Hhas. by rewrite Hname, Hdeep, Hpath in Hhas.
  - intros H. by destruct (Hnone H) as (? & _).
Qed.

(** *** Reading back the JSON of a string *)

Lemma reads_unquote D t d : reads D t d -> unquote_units t = Some (d, []).
Proof.
  induction 1 as [|c t d H34 H92 _ IH|inner x t d _ _ Hinner _ IH].
  - reflexivity.
  - cbn [unquote_units].
    destruct (N.eqb_spec c 34); [done|]. destruct (N.eqb_spec c 92); [done|].
    by rewrite IH.
  - by rewrite Hinner, IH.
Qed.

Lemma reads_mono (D D' : code_unit -> bool) t d :
  (forall c, D c = true -> D' c = true) -> reads D t d -> reads D' t d.
Proof.
  intros Hmono. induction 1; [constructor|by constructor|].
  constructor; auto.
Qed.

Lemma special_hex_digit d : d < 16 -> special (hex_digit d) = false.
Proof.
  intros Hd. unfold special, hex_digit.
  destruct (d <? 10) eqn:E; [apply N.ltb_lt in E|apply N.ltb_ge in E];
    rewrite !orb_false_iff; repeat split; apply N.eqb_neq; lia.
Qed.

Lemma unicode_escape_token c :
  exists inner,
    unicode_escape c = 92 :: inner /\ Forall (fun u => special u = false) inner.
Proof.
  eexists. split; [reflexivity|].
  repeat constructor; apply special_hex_digit, N.mod_lt; lia.
Qed.

Lemma json_escape_unit_token c :
  (json_escape_unit c = [c] /\ c <> 34 /\ c <> 92)
  \/ (exists inner,
        json_escape_unit c = 92 :: inner
        /\ Forall (fun u => special u = false) inner
        /\ escaped_by [] c = true).
Proof.
  unfold json_escape_unit, escaped_by.
  repeat match goal with
         | |- context [if ?a =? ?b then _ else _] =>
             destruct (N.eqb_spec a b) as [->|?];
             [right; eexists; split; [reflexivity|]; split;
              [by repeat constructor|reflexivity]|]
         end.
  destruct (c <? 32) eqn:E.
  - right. destruct (unicode_escape_token c) as (inner & -> & Hinner).
    exists inner. by repeat split.
  - by left.
Qed.

Lemma reads_quote_units s : reads (escaped_by []) (quote_units s ++ [34]) s.
Proof.
  remember (length s) as n eqn:Hn. revert s Hn.
  induction n as [n IH] using lt_wf_ind. intros s Hn.
  destruct s as [|c s]; [constructor|]. cbn [quote_units].
  assert (Hescape : forall rest,
    (c < 65536) -> escaped_by [] c = true ->
    reads (escaped_by []) rest s ->
    reads (escaped_by []) (unicode_escape c ++ rest) (c :: s)).
  { intros rest Hc HD Hrest.
    destruct (unicode_escape_token c) as (inner & Heq & Hinner).
    pose proof (unquote_unicode_escape c) as Hread. rewrite Heq in *.
    apply reads_escaped; try assumption. intros tail. by apply Hread. }
  destruct (is_leading_surrogate c) eqn:Hlead.
  - pose proof Hlead as Hrange. apply andb_prop in Hrange as [H1 H2].
    apply N.leb_le in H1, H2.
    assert (HD : escaped_by [] c = true).
    { unfold escaped_by. rewrite Hlead. by rewrite !orb_true_r. }
    destruct s as [|d s].
    + apply Hescape; [lia|exact HD|constructor].
    + destruct (is_trailing_surrogate d) eqn:Htrail.
      * apply andb_prop in Htrail as [H3 H4]. apply N.leb_le in H3, H4.
        cbn [app]. apply reads_plain; [lia|lia|]. apply reads_plain; [lia|lia|].
        apply (IH (length s)); [subst n; simpl; lia|reflexivity].
      * rewrite <- app_assoc. apply Hescape; [lia|exact HD|].
        apply (IH (length (d :: s))); [subst n; simpl; lia|reflexivity].
  - destruct (is_trailing_surrogate c) eqn:Htrail.
    + pose proof Htrail as Hrange. apply andb_prop in Hrange as [H3 H4].
      apply N.leb_le in H3, H4.
      rewrite <- app_assoc. apply Hescape; [lia| |].
      * unfold escaped_by. rewrite Htrail. by rewrite !orb_true_r.
      * apply (IH (length s)); [subst n; simpl; lia|reflexivity].
    + assert (Hrest : reads (escaped_by []) (quote_units s ++ [34]) s).
      { apply (IH (length s)); [subst n; simpl; lia|reflexivity]. }
      rewrite <- app_assoc.
      destruct (json_escape_unit_token c) as [(-> & H34 & H92)|(inner & Heq & Hinner & HD)].
      * by apply reads_plain.
      * pose proof (unquote_json_escape_unit c) as Hread. rewrite Heq in *.
        apply reads_escaped; try assumption. intros tail. by apply Hread.
Qed.

Section ReadBack.

Variable canon : code_unit -> code_unit.
Variable p0 : code_unit.
Variables p' r : jsstring.
Variables D D' : code_unit -> bool.

Hypothesis Hstart : forall c, canon c = canon p0 -> special c = true.
Hypothesis Hplain :
  forall c pi, pi ∈ p0 :: p' -> canon c = canon pi -> c <> 34 /\ c <> 92.
Hypothesis Hescaped :
  forall c pi, D c = true -> pi ∈ p0 :: p' -> canon c <> canon pi.
Hypothesis Hreplacement :
  forall t d, reads D' t d -> reads D' (r ++ t) ((p0 :: p') ++ d).
Hypothesis Hmono : forall c, D c = true -> D' c = true.

Lemma char_match_eq a b : char_match canon a b = true <-> canon b = canon a.
Proof. unfold char_match. rewrite N.eqb_eq. split; congruence. Qed.

(** A match in the text covers code units that stand for themselves. *)
Lemma matches_tokens q t d :
  (forall pi, pi ∈ q -> pi ∈ p0 :: p') ->
  reads D t d -> matches canon q t = true ->
  exists m t2 d2,
    t = m ++ t2 /\ d = m ++ d2 /\ length m = length q /\ reads D t2 d2.
Proof.
  revert t d. induction q as [|pi q IH]; intros t d Hq Hreads Hm.
  - by exists [], t, d.
  - assert (Hpi : pi ∈ p0 :: p') by (apply Hq, elem_of_cons; by left).
    destruct Hreads as [|c t d H34 H92 Hreads|inner x t d Hinner HD Hread Hreads];
      cbn [matches] in Hm; apply andb_prop in Hm as [Hc Hm];
      apply char_match_eq in Hc.
    + by destruct (Hplain _ _ Hpi Hc).
    + destruct (IH t d) as (m & t2 & d2 & -> & -> & Hlen & Hreads2); try assumption.
      { intros ? ?. apply Hq, elem_of_cons. by right. }
      exists (c :: m), t2, d2. repeat split; try done. simpl. by rewrite Hlen.
    + by destruct (Hplain _ _ Hpi Hc).
Qed.

Lemma matches_prefix_only q (m x y : jsstring) :
  length m = length q -> matches canon q (m ++ x) = matches canon q (m ++ y).
Proof.
  revert m. induction q as [|pi q IH]; intros [|c m] Hlen; try done.
  cbn [app matches]. rewrite (IH m); [reflexivity|]. by injection Hlen.
Qed.

(** A match in the string read is a match in the text. *)
Lemma matches_read q t d :
  (forall pi, pi ∈ q -> pi ∈ p0 :: p') ->
  reads D t d -> matches canon q d = true -> matches canon q t = true.
Proof.
  revert t d. induction q as [|pi q IH]; intros t d Hq Hreads Hm; [reflexivity|].
  assert (Hpi : pi ∈ p0 :: p') by (apply Hq, elem_of_cons; by left).
  destruct Hreads as [|c t d H34 H92 Hreads|inner x t d Hinner HD Hread Hreads];
    cbn [matches] in Hm; try discriminate;
    apply andb_prop in Hm as [Hc Hm].
  - cbn [matches]. rewrite Hc. apply (IH t d); try assumption.
    intros ? ?. apply Hq, elem_of_cons. by right.
  - apply char_match_eq in Hc. by destruct (Hescaped _ _ HD Hpi).
Qed.

Lemma replace_global_ordinary (a t : jsstring) replacement :
  Forall (fun u => special u = false) a ->
  replace_global canon (p0 :: p') replacement (a ++ t)
  = a ++ replace_global canon (p0 :: p') replacement t.
Proof.
  induction 1 as [|u a Hu _ IH]; [reflexivity|].
  cbn [app]. rewrite replace_global_cons. cbn [matches].
  destruct (char_match canon p0 u) eqn:Hc.
  - apply char_match_eq, Hstart in Hc. congruence.
  - cbn [andb]. by rewrite IH.
Qed.

Lemma replace_global_match (m t : jsstring) replacement :
  length m = length (p0 :: p') ->
  matches canon (p0 :: p') (m ++ t) = true ->
  replace_global canon (p0 :: p') replacement (m ++ t)
  = replacement ++ replace_global canon (p0 :: p') replacement t.
Proof.
  intros Hlen Hm. destruct m as [|c m]; [discriminate|].
  cbn [app] in *. rewrite replace_global_cons, Hm.
  cbn [length] in *. rewrite Nat.sub_succ, Nat.sub_0_r.
  injection Hlen as <-. by rewrite drop_app_length.
Qed.

(** One replacement of [jsonForHtml] on a text: the text it gives
    denotes the string in which every match of the pattern has become
    the pattern itself. *)
Lemma reads_replace_global t d :
  reads D t d ->
  reads D' (replace_global canon (p0 :: p') r t)
           (replace_global canon (p0 :: p') (p0 :: p') d).
Proof.
  remember (length t) as n eqn:Hn. revert t d Hn.
  induction n as [n IH] using lt_wf_ind. intros t d -> Hreads.
  destruct (matches canon (p0 :: p') t) eqn:Hm.
  - destruct (matches_tokens (p0 :: p') t d ltac:(auto) Hreads Hm)
      as (m & t2 & d2 & -> & -> & Hlen & Hreads2).
    rewrite replace_global_match by assumption.
    rewrite replace_global_match
      by (try assumption; by rewrite (matches_prefix_only _ m d2 t2)).
    apply Hreplacement. apply (IH (length t2)); [|reflexivity|exact Hreads2].
    rewrite length_app, Hlen. simpl. lia.
  - destruct Hreads as [|c t d H34 H92 Hreads|inner x t d Hinner HD Hread Hreads].
    + rewrite replace_global_cons, Hm. constructor.
    + rewrite replace_global_cons, Hm.
      assert (Hd : matches canon (p0 :: p') (c :: d) = false).
      { destruct (matches canon (p0 :: p') (c :: d)) eqn:E; [|reflexivity].
        rewrite (matches_read (p0 :: p') (c :: t) (c :: d)) in Hm; try done.
        by constructor. }
      rewrite (replace_global_cons canon _ _ c d), Hd.
      constructor; try assumption.
      apply (IH (length t)); [simpl; lia|reflexivity|exact Hreads].
    + change (92 :: inner ++ t) with ((92 :: inner) ++ t).
      rewrite (replace_global_ordinary (92 :: inner) t r)
        by (constructor; [reflexivity|exact Hinner]).
      assert (Hd : matches canon (p0 :: p') (x :: d) = false).
      { cbn [matches]. destruct (char_match canon p0 x) eqn:Hc; [|reflexivity].
        apply char_match_eq in Hc.
        destruct (Hescaped x p0 HD ltac:(by apply elem_of_cons; left) Hc). }
      rewrite (replace_global_cons canon _ _ x d), Hd.
      cbn [app]. apply reads_escaped; auto.
      apply (IH (length t)); [|reflexivity|exact Hreads].
      simpl. rewrite length_app. lia.
Qed.

End ReadBack.

Lemma replace_global_same p0 p' s :
  replace_global id (p0 :: p') (p0 :: p') s = s.
Proof.
  remember (length s) as n eqn:Hn. revert s Hn.
  induction n as [n IH] using lt_wf_ind. intros s ->.
  destruct s as [|c s]; [reflexivity|]. rewrite replace_global_cons.
  destruct (matches id (p0 :: p') (c :: s)) eqn:Hm.
  - apply matches_id_prefix in Hm as [t Ht]. injection Ht as -> ->.
    cbn [length]. rewrite Nat.sub_succ, Nat.sub_0_r, drop_app_length.
    rewrite (IH (length t)); [reflexivity| |reflexivity].
    simpl. rewrite length_app. lia.
  - by rewrite (IH (length s)); [|simpl; lia|].
Qed.

Lemma escaped_by_cases extra c :
  escaped_by extra c = true ->
  c < 32 \/ c = 34 \/ c = 92 \/ (55296 <= c /\ c <= 57343) \/ c ∈ extra.
Proof.
  unfold escaped_by, is_leading_surrogate, is_trailing_surrogate.
  rewrite !orb_true_iff, !andb_true_iff, !N.leb_le, N.ltb_lt, !N.eqb_eq,
    bool_decide_eq_true.
  intros [[[[[H|H]|H]|H]|H]|H]; auto; right; right; right; left; lia.
Qed.

Lemma escaped_by_more extra extra' c :
  (forall x, x ∈ extra -> x ∈ extra') ->
  escaped_by extra c = true -> escaped_by extra' c = true.
Proof.
  intros Hmore. unfold escaped_by. rewrite !orb_true_iff, !bool_decide_eq_true.
  intros [H|H]; [by left|right; by apply Hmore].
Qed.

Lemma canonicalize_ascii_other c :
  c < 97 \/ 122 < c -> canonicalize_ascii c = c.
Proof.
  intros Hc. unfold canonicalize_ascii.
  destruct (97 <=? c) eqn:H1; [|reflexivity].
  destruct (c <=? 122) eqn:H2; [|reflexivity].
  apply N.leb_le in H1, H2. lia.
Qed.

Lemma canonicalize_ascii_letter c :
  97 <= c <= 122 -> canonicalize_ascii c = c - 32.
Proof.
  intros [H1 H2]. unfold canonicalize_ascii.
  apply N.leb_le in H1, H2. by rewrite H1, H2.
Qed.

(** The code unit [c] is not, in any letter case, a code unit of the
    pattern [p]. *)
Lemma canonicalize_ascii_apart c p :
  (c < 97 \/ 122 < c) ->
  forallb (fun pi => negb (canonicalize_ascii pi =? c)) p = true ->
  forall pi, pi ∈ p -> canonicalize_ascii c <> canonicalize_ascii pi.
Proof.
  intros Hc Hall pi Hin.
  rewrite canonicalize_ascii_other by lia.
  rewrite forallb_forall in Hall. apply list_elem_of_In, Hall in Hin.
  apply negb_true_iff, N.eqb_neq in Hin. congruence.
Qed.

Ltac pattern_unit H :=
  repeat (apply elem_of_cons in H as [->|H]); [..|by apply elem_of_nil in H].

Lemma reads_comment_pass t d :
  reads (escaped_by []) t d ->
  reads (escaped_by [33]) (replace_global id (str "<!--") (str "<\!--") t) d.
Proof.
  intros Hreads.
  rewrite <- (replace_global_same 60 [33; 45; 45] d).
  change (str "<!--") with (60 :: [33; 45; 45]).
  apply (reads_replace_global id 60 [33; 45; 45] (str "<\!--")
           (escaped_by []) (escaped_by [33])); [| | | | |exact Hreads].
  - unfold id. by intros c ->.
  - unfold id. intros c pi Hin ->. pattern_unit Hin; by split.
  - unfold id. intros c pi Hc%escaped_by_cases Hin ->.
    destruct Hc as [Hc|[Hc|[Hc|[Hc|Hc]]]]; [| | | |by apply elem_of_nil in Hc];
      pattern_unit Hin; lia.
  - intros u v Hu.
    change (str "<\!--" ++ u) with (60 :: (92 :: [33] ++ 45 :: 45 :: u)).
    apply reads_plain; [done|done|]. apply reads_escaped.
    + by repeat constructor.
    + vm_compute. reflexivity.
    + intros rest. reflexivity.
    + apply reads_plain; [done|done|]. by apply reads_plain.
  - intros c. apply escaped_by_more. intros x Hx. by apply elem_of_nil in Hx.
Qed.

Lemma reads_script_pass t d :
  reads (escaped_by [33]) t d ->
  reads (escaped_by [33; 47])
        (replace_global canonicalize_ascii (str "</script>") (str "<\/script>") t)
        (replace_global canonicalize_ascii (str "</script>") (str "</script>") d).
Proof.
  intros Hreads.
  assert (Hpattern : str "</script>" = 60 :: [47; 115; 99; 114; 105; 112; 116; 62])
    by (vm_compute; reflexivity).
  rewrite Hpattern.
  apply (reads_replace_global canonicalize_ascii 60 [47; 115; 99; 114; 105; 112; 116; 62]
           (str "<\/script>") (escaped_by [33]) (escaped_by [33; 47]));
    [| | | | |exact Hreads].
  - intros c Hc. change (canonicalize_ascii 60) with 60 in Hc.
    destruct (N.le_gt_cases 97 c) as [H1|H1]; [destruct (N.le_gt_cases c 122) as [H2|H2]|].
    + rewrite canonicalize_ascii_letter in Hc by lia. lia.
    + rewrite canonicalize_ascii_other in Hc by lia. by subst c.
    + rewrite canonicalize_ascii_other in Hc by lia. by subst c.
  - intros c pi Hin Hc.
    assert (H34 : forall pi', pi' ∈ 60 :: [47; 115; 99; 114; 105; 112; 116; 62] ->
                              canonicalize_ascii 34 <> canonicalize_ascii pi').
    { apply canonicalize_ascii_apart; [lia|vm_compute; reflexivity]. }
    assert (H92 : forall pi', pi' ∈ 60 :: [47; 115; 99; 114; 105; 112; 116; 62] ->
                              canonicalize_ascii 92 <> canonicalize_ascii pi').
    { apply canonicalize_ascii_apart; [lia|vm_compute; reflexivity]. }
    split; intros ->; [by apply (H34 pi)|by apply (H92 pi)].
  - intros c pi Hc%escaped_by_cases Hin.
    assert (Hlow : c < 97 \/ 122 < c).
    { destruct Hc as [Hc|[Hc|[Hc|[Hc|Hc]]]]; try lia.
      apply elem_of_cons in Hc as [->|Hc]; [lia|by apply elem_of_nil in Hc]. }
    rewrite canonicalize_ascii_other by lia.
    intros Heq. pattern_unit Hin; vm_compute in Heq; subst c;
      destruct Hc as [Hc|[Hc|[Hc|[Hc|Hc]]]]; try lia;
      apply elem_of_cons in Hc as [Hc|Hc]; try discriminate;
      by apply elem_of_nil in Hc.
  - intros u v Hu.
    change (str "<\/script>" ++ u)
      with (60 :: (92 :: [47] ++ 115 :: 99 :: 114 :: 105 :: 112 :: 116 :: 62 :: u)).
    apply reads_plain; [done|done|]. apply reads_escaped.
    + by repeat constructor.
    + vm_compute. reflexivity.
    + intros rest. reflexivity.
    + by repeat (apply reads_plain; [done|done|]).
  - intros c. apply escaped_by_more. intros x Hx.
    apply list_elem_of_singleton in Hx as ->. by apply elem_of_cons; left.
Qed.

Lemma reads_separator_pass (sep : code_unit) (escape : jsstring) inner extra t d :
  (sep = 8232 \/ sep = 8233) ->
  sep ∉ extra ->
  escape = 92 :: inner ->
  Forall (fun u => special u = false) inner ->
  (forall rest,
      unquote_units (92 :: inner ++ rest)
      = match unquote_units rest with
        | Some (u, rest') => Some (sep :: u, rest')
        | None => None
        end) ->
  reads (escaped_by extra) t d ->
  reads (escaped_by (extra ++ [sep])) (replace_global id [sep] escape t) d.
Proof.
  intros Hsep Hnew -> Hinner Hread Hreads.
  rewrite <- (replace_global_same sep [] d).
  apply (reads_replace_global id sep [] (92 :: inner)
           (escaped_by extra) (escaped_by (extra ++ [sep]))); [| | | | |exact Hreads].
  - unfold id. intros c ->. by destruct Hsep as [->| ->].
  - unfold id. intros c pi Hin ->. pattern_unit Hin.
    destruct Hsep as [->| ->]; by split.
  - unfold id. intros c pi Hc%escaped_by_cases Hin ->. pattern_unit Hin.
    destruct Hc as [Hc|[Hc|[Hc|[Hc|Hc]]]]; try (destruct Hsep; lia).
    by apply Hnew.
  - intros u v Hu. cbn [app]. apply reads_escaped; try assumption.
    unfold escaped_by. apply orb_true_iff. right. apply bool_decide_eq_true_2.
    apply elem_of_app. right. by apply elem_of_cons; left.
  - intros c. apply escaped_by_more. intros x Hx. apply elem_of_app. by left.
Qed.

(** What a script reads back from the text [jsonForHtml] gives for a
    string is that string with every closing script tag put in lower
    case, and nothing else changed: the escapes added for the comment
    opening, the closing script tag and the two separators all denote
    the code units they replace, except for the letter case of the tag;
    a string with no closing script tag, in any letter case, is read
    back as it is. *)
Theorem jsonForHtml_string_read_back s :
  exists body,
    jsonForHtml (VStr s) = Normal (dquote :: body)
    /\ unquote_units body
       = Some (replace_global canonicalize_ascii (str "</script>") (str "</script>") s, [])
    /\ (occurs canonicalize_ascii (str "</script>") s = false ->
        unquote_units body = Some (s, [])).
Proof.
  set (body :=
    replace_global id [8233] (92 :: str "u2029")
      (replace_global id [8232] (92 :: str "u2028")
         (replace_global canonicalize_ascii (str "</script>") (str "<\/script>")
            (replace_global id (str "<!--") (str "<\!--") (quote_units s ++ [34]))))).
  assert (Hreads : reads (escaped_by [33; 47; 8232; 8233]) body
                     (replace_global canonicalize_ascii (str "</script>")
                        (str "</script>") s)).
  { unfold body.
    apply (reads_separator_pass 8233 _ (str "u2029") [33; 47; 8232]);
      [by right| |reflexivity
      |change (str "u2029") with [117; 50; 48; 50; 57]; by repeat constructor
      |intros rest; reflexivity|].
    { apply (bool_decide_unpack _). vm_compute. exact I. }
    apply (reads_separator_pass 8232 _ (str "u2028") [33; 47]);
      [by left| |reflexivity
      |change (str "u2028") with [117; 50; 48; 50; 56]; by repeat constructor
      |intros rest; reflexivity|].
    { apply (bool_decide_unpack _). vm_compute. exact I. }
    apply reads_script_pass, reads_comment_pass, reads_quote_units. }
  exists body. split; [|split].
  - reflexivity.
  - by apply (reads_unquote _ _ _ Hreads).
  - intros Hnone. rewrite (reads_unquote _ _ _ Hreads).
    by rewrite replace_global_absent.
Qed.

(** *** Permissions in the data of a template *)

(** The [permissions] a template reads are never undefined: they are
    the ones the [data] argument gives or, failing that, the ones
    [req.data] gives, and otherwise the permissions of the user of the
    request or, with no user or none on the user, an empty object; the
    [templateData] of the module never sets them. *)
Theorem getRenderDataArgs_permissions req data module :
  let merged := getRenderDataArgs req data module in
  let derived :=
    js_or (js_and (req_user req) (get (req_user req) (str "_permissions"))) (VObj []) in
  let given := by_priority (str "permissions") [data; req_data req] in
  read merged (str "permissions") = (if is_undefined given then derived else given)
  /\ truthy derived = true
  /\ is_undefined (read merged (str "permissions")) = false.
Proof.
  intros merged derived given.
  assert (Hderived : truthy derived = true).
  { unfold derived, js_or. by destruct (truthy (js_and _ _)) eqn:E. }
  assert (Hdefined : is_undefined derived = false) by by destruct derived.
  assert (Hk : str "permissions" <> str "__proto__") by (vm_compute; discriminate).
  assert (Hgiven : read (let m : gmap jsstring value := ∅ in
                         let m := if truthy data then defaults m data else m in
                         if truthy (req_data req) then defaults m (req_data req) else m)
                        (str "permissions") = given).
  { cbv zeta. unfold given.
    change [data; req_data req] with (([] ++ [data]) ++ [req_data req]).
    by rewrite !by_priority_snoc, !read_merge_source. }
  assert (Hmerged : read merged (str "permissions")
                    = if is_undefined given then derived else given).
  { unfold merged, getRenderDataArgs. cbv zeta.
    rewrite read_insert, decide_False by (vm_compute; discriminate).
    rewrite read_merge_source by exact Hk.
    change (defaults ?m (VObj ?props))
      with (if truthy (VObj props) then defaults m (VObj props) else m).
    rewrite read_merge_source by exact Hk. cbv zeta in Hgiven. rewrite Hgiven.
    assert (Hsupplied : supplied (VObj [ (str "user", req_user req);
                                         (str "permissions", derived) ])
                                 (str "permissions") = Some derived).
    { unfold supplied. cbn [truthy entries first_defined fst snd].
      replace (jsstring_eqb (str "user") (str "permissions")) with false
        by (symmetry; apply bool_decide_eq_false_2; vm_compute; discriminate).
      replace (jsstring_eqb (str "permissions") (str "permissions")) with true
        by (symmetry; by apply bool_decide_eq_true_2).
      cbn [andb]. by rewrite Hdefined. }
    fold derived. rewrite Hsupplied. cbn [default from_option id].
    destruct (is_undefined given) eqn:Hg; [by rewrite Hdefined|by rewrite Hg]. }
  split; [exact Hmerged|]. split; [exact Hderived|].
  rewrite Hmerged. by destruct (is_undefined given) eqn:Hg.
Qed.

(** *** One phase and one bundler *)

Lemma truthy_text (s : jsstring) : s <> [] -> truthy (VStr s) = true.
Proof. by destruct s. Qed.

(** A component registered for one phase, with or without an argument
    after a colon, and possibly for one bundler, is injected at a call
    site tagged with a phase exactly when the tag is the name of its
    phase, the handler of that name answers yes, and the bundler, when
    one is named, is the current one. *)
Theorem getInjectedComponents_one_phase
    asset key data self entry ref c (phase tag : jsstring) met :
  insertions self !! key = Some [entry] ->
  conditions entry = CondRef ref ->
  objects self !! ref = Some c ->
  read c (str "when") = VStr phase -> phase <> [] ->
  read data (str "when") = VStr tag -> tag <> [] ->
  getInjectConditionHandlers asset (hd [] (js_split 58 phase)) (js_split 58 phase !! 1%nat)
  = Some (Normal met) ->
  (getInjectedComponents asset key data self).2
  = Normal (if bool_decide (tag = hd [] (js_split 58 phase)) && met
               && (negb (truthy (read c (str "bundler")))
                   || is_the_string (read c (str "bundler")) (currentBundler asset))
            then [component entry] else []).
Proof.
  intros Hkey Hcond Href Hwhen Hphase Hdata Htag Hhandler.
  assert (Hresolve : (resolve_conditions asset data c).2
                     = Normal (bool_decide (tag = hd [] (js_split 58 phase)) && met
                               && (negb (truthy (read c (str "bundler")))
                                   || is_the_string (read c (str "bundler"))
                                        (currentBundler asset)))).
  { unfold resolve_conditions.
    rewrite Hwhen, Hdata, !truthy_text, andb_false_r by assumption.
    unfold resolve_normalized.
    rewrite read_normalize_when, read_normalize_bundler, Hwhen, Hdata.
    rewrite !truthy_text by assumption.
    cbn [is_array array_elements mapM split_colon mbind completion_bind mret
           completion_ret existsb is_the_string orb negb length Nat.eqb andb
           every_condition].
    unfold jsstring_eqb at 1. fold (currentBundler asset).
    destruct (bool_decide (tag = hd [] (js_split 58 phase))); [|reflexivity].
    cbn [negb andb]. rewrite Hhandler.
    destruct met; cbn [andb];
      by destruct (truthy (read c (str "bundler"))),
                  (is_the_string (read c (str "bundler")) (currentBundler asset)). }
  unfold getInjectedComponents. rewrite Hkey. cbn [resolve_entries].
  unfold resolve_entry. rewrite Hcond, Href. cbn [default from_option id].
  destruct (resolve_conditions asset data c) as [[o l] r]. simpl in Hresolve. subst r.
  simpl. by destruct (_ && _ && _).
Qed.

End Template.

(** ** The module at work on small inputs *)

Arguments VUndefined {number}.
Arguments VNull {number}.
Arguments VBool {number} b.
Arguments VStr {number} s.
Arguments VArr {number} elems.
Arguments VObj {number} props.
Arguments SafeString {number} val.
Arguments Plain {number} v.
Arguments Node {number} text comment raw name attrs body.
Arguments Nodes {number} items.
Arguments NullNode {number}.
Arguments UndefinedNode {number}.
Arguments NotAnArray {number}.
Arguments Where {number} location.
Arguments Described {number} description.
Arguments no_insertions {number}.
Arguments Absent {number}.
Arguments NotCallable {number}.
Arguments Method {number} handler.
Arguments Returns {A} a.
Arguments Throws {A} e.
Arguments ThrowsError {A} message.

(** The functions of the module in a world without numbers, with the
    example collaborators. *)
#[local] Abbreviation escape := (escapeHtml_text no_numbers no_numbers_text).
#[local] Abbreviation folders := (getViewFolders no_numbers join_segments).
#[local] Abbreviation loader_for :=
  (getLoader no_numbers no_numbers_text no_numbers_bool).
#[local] Abbreviation env_for :=
  (getEnv no_numbers no_numbers_text no_numbers_bool join_segments has_opts_path).
#[local] Abbreviation render_data := (getRenderDataArgs no_numbers no_numbers_bool).
#[local] Abbreviation json_for_html :=
  (jsonForHtml no_numbers no_numbers_text no_numbers_bool).
#[local] Abbreviation escape_if_needed :=
  (escapeIfNeeded no_numbers no_numbers_text escape).
#[local] Abbreviation render_nodes :=
  (renderNodes no_numbers no_numbers_text no_numbers_bool escape is_void_element).
#[local] Abbreviation register := (insert no_numbers no_numbers_text).
#[local] Abbreviation injected :=
  (getInjectedComponents no_numbers no_numbers_text no_numbers_bool).

(** A development build with hot module reload by the [vite] bundler. *)
#[local] Abbreviation development :=
  {| hasHMR := true; devServer := @VStr no_numbers (str "public"); isDevMode := true;
     isProductionMode := false; hasBuildModule := true;
     getBuildModuleAlias := str "vite" |}.

(** Two modules with the same chain get the same list of view folders,
    yet their environments hold two different loader instances, as do
    two direct calls of [getLoader] with the two names and one list of
    folders: the loader cache does not bring the modules together. *)
Lemma same_folders_distinct_loaders :
  let opts := {| viewsFolderFallback := None |} in
  let ancestry := [ {| dirname := str "/app/node_modules/piece" |};
                    {| dirname := str "/app/modules/piece" |} ] in
  let article : apos_module no_numbers :=
    {| meta := {| name := str "article"; chain := ancestry |};
       templateData := VUndefined |} in
  let event : apos_module no_numbers :=
    {| meta := {| name := str "event"; chain := ancestry |};
       templateData := VUndefined |} in
  let first := env_for opts (str "/app") init article in
  let second := env_for opts (str "/app") first.2 event in
  let dirs := folders opts (str "/app") article in
  let direct := loader_for init (str "article") dirs in
  let direct' := loader_for direct.2 (str "event") dirs in
  dirs = folders opts (str "/app") event
  /\ (exists env1 env2,
        first.1 = Some env1 /\ second.1 = Some env2
        /\ loader_dirs (env_loader env1) = loader_dirs (env_loader env2)
        /\ loader_id (env_loader env1) <> loader_id (env_loader env2))
  /\ loader_dirs direct.1 = loader_dirs direct'.1
  /\ loader_id direct.1 <> loader_id direct'.1.
Proof.
  intros opts ancestry article event first second dirs direct direct'.
  split; [reflexivity|]. split.
  - eexists _, _. split; [vm_compute; reflexivity|].
    split; [vm_compute; reflexivity|].
    split; [vm_compute; reflexivity|].
    vm_compute. discriminate.
  - split; [vm_compute; reflexivity|]. vm_compute. discriminate.
Qed.

(** The caches at work from the initial state: a second call with the
    same module name and folders returns the first call's result, and
    two modules with different names get two environments. *)
Lemma loader_cache_keyed_by_module_and_dirs_witness :
  let first := loader_for init (str "article") [str "/app/modules/article/views"] in
  let second :=
    loader_for first.2 (str "article") [str "/app/modules/article/views"] in
  let other :=
    loader_for first.2 (str "article") [str "/app/views"] in
  let opts := {| viewsFolderFallback := None |} in
  let article : apos_module no_numbers :=
    {| meta := {| name := str "article"; chain := [] |}; templateData := VUndefined |} in
  let event : apos_module no_numbers :=
    {| meta := {| name := str "event"; chain := [] |}; templateData := VUndefined |} in
  let made := env_for opts (str "/app") init article in
  second = first /\ loader_id first.1 <> loader_id other.1
  /\ exists env1 env2,
       made.1 = Some env1
       /\ (env_for opts (str "/app") made.2 event).1 = Some env2
       /\ env_id env1 <> env_id env2.
Proof.
  intros first second other opts article event made.
  destruct (loader_cache_keyed_by_module_and_dirs no_numbers no_numbers_text
              no_numbers_bool join_segments has_opts_path init
              (reachable_init _ _ _ _ _))
    as [Hloaders Henvs].
  split; [|split].
  - apply (Hloaders (str "article") [str "/app/modules/article/views"]
                    (str "article") [str "/app/modules/article/views"]);
      reflexivity.
  - intros Hid.
    apply (Hloaders (str "article") [str "/app/modules/article/views"]
                    (str "article") [str "/app/views"]) in Hid as [_ Hdirs].
    vm_compute in Hdirs. discriminate.
  - destruct (Henvs opts (str "/app") article event) as (_ & Hplain & _).
    destruct Hplain as (env1 & env2 & He1 & He2 & Hid).
    + split; [vm_compute; reflexivity|vm_compute; discriminate].
    + split; [vm_compute; reflexivity|vm_compute; discriminate].
    + exists env1, env2. split; [exact He1|]. split; [exact He2|].
      intros Heq. apply Hid in Heq. vm_compute in Heq. discriminate.
Defined.

(** A module name that is read as a path: once the module [page] has
    its environment, whose options the engine keeps in [opts], the
    module [page.opts] gets none, and nothing is made for it. *)
Lemma getEnv_path_name_undefined :
  let opts := {| viewsFolderFallback := None |} in
  let page : apos_module no_numbers :=
    {| meta := {| name := str "page"; chain := [] |}; templateData := VUndefined |} in
  let page_opts : apos_module no_numbers :=
    {| meta := {| name := str "page.opts"; chain := [] |};
       templateData := VUndefined |} in
  let first := env_for opts (str "/app") init page in
  let second := env_for opts (str "/app") first.2 page_opts in
  (exists env, first.1 = Some env) /\ second.1 = None /\ second.2 = first.2.
Proof. split; [by eexists|]. split; vm_compute; reflexivity. Qed.

(** The [user] of the explicit [data] argument overrides the user of
    the request, and its truthy [locale] the locale of the request: the
    defaults derived from the request do not have the highest
    priority. *)
Lemma data_overrides_request_defaults :
  let req : request no_numbers :=
    {| req_data := VUndefined;
       req_user := VObj [(str "username", VStr (str "admin"))];
       req_locale := VStr (str "en") |} in
  let data : value no_numbers :=
    VObj [(str "user", VStr (str "guest")); (str "locale", VStr (str "fr"))] in
  let module : apos_module no_numbers :=
    {| meta := {| name := str "page"; chain := [] |}; templateData := VUndefined |} in
  let merged := render_data req data module in
  read no_numbers merged (str "user") = VStr (str "guest")
  /\ read no_numbers merged (str "user") <> req_user no_numbers req
  /\ read no_numbers merged (str "locale") = VStr (str "fr")
  /\ read no_numbers merged (str "locale") <> req_locale no_numbers req.
Proof.
  intros req data module merged.
  repeat split; try (vm_compute; reflexivity); vm_compute; discriminate.
Qed.

Lemma getRenderDataArgs_priority_witness :
  let req : request no_numbers :=
    {| req_data := VObj [(str "title", VStr (str "request"));
                         (str "theme", VStr (str "dark"))];
       req_user := VUndefined;
       req_locale := VStr (str "en") |} in
  let data : value no_numbers :=
    VObj [(str "title", VStr (str "explicit")); (str "theme", VUndefined)] in
  let module : apos_module no_numbers :=
    {| meta := {| name := str "page"; chain := [] |};
       templateData := VObj [(str "theme", VStr (str "light"));
                             (str "footer", VStr (str "module"))] |} in
  let merged := render_data req data module in
  read no_numbers merged (str "title") = VStr (str "explicit")
  /\ read no_numbers merged (str "theme") = VStr (str "dark")
  /\ read no_numbers merged (str "footer") = VStr (str "module")
  /\ read no_numbers merged (str "locale") = VStr (str "en").
Proof.
  intros req data module merged.
  destruct (getRenderDataArgs_priority no_numbers no_numbers_bool req data module)
    as (Hkeys & Hlocale & _).
  subst merged. split; [|split; [|split]].
  - rewrite (Hkeys (str "title")) by (vm_compute; discriminate). reflexivity.
  - rewrite (Hkeys (str "theme")) by (vm_compute; discriminate). reflexivity.
  - rewrite (Hkeys (str "footer")) by (vm_compute; discriminate). reflexivity.
  - rewrite Hlocale. reflexivity.
Defined.

(** An entry registered with no conditions is left out at a call site
    that supplies a phase tag. *)
Lemma unconditional_entry_left_out_at_tagged_site :
  let self :=
    register (str "prepend") (Where (VStr (str "head")))
      (VStr (str "asset:client")) CondUndefined no_insertions in
  let data : gmap jsstring (value no_numbers) := {[ str "when" := VStr (str "hmr") ]} in
  insertions no_numbers self !! str "prepend-head"
  = Some [ {| component := VStr (str "asset:client"); conditions := CondUndefined |} ]
  /\ (injected development (str "prepend-head") data self).2 = Normal [].
Proof. split; vm_compute; reflexivity. Qed.

Lemma getInjectedComponents_unconditional_witness :
  let self :=
    register (str "prepend") (Where (VStr (str "head")))
      (VStr (str "asset:client")) CondUndefined no_insertions in
  (injected development (str "prepend-head") ∅ self).2
  = Normal [VStr (str "asset:client")].
Proof.
  intros self.
  refine (proj2 (proj2 (getInjectedComponents_unconditional no_numbers no_numbers_text
            no_numbers_bool development (str "prepend-head") ∅ self
            [ {| component := VStr (str "asset:client"); conditions := CondUndefined |} ]
            _)) _).
  - vm_compute. reflexivity.
  - intros entry Hin. apply list_elem_of_singleton in Hin. subst entry. exact I.
Defined.

(** An entry described by one object that names no condition is stored
    with null conditions, and resolving its key throws. *)
Lemma described_entry_without_conditions_throws :
  let description : gmap jsstring (value no_numbers) :=
    {[ str "component" := VStr (str "asset:client");
       str "where" := VStr (str "head") ]} in
  let self :=
    register (str "prepend") (Described description) VUndefined CondUndefined
      no_insertions in
  insertions no_numbers self !! str "prepend-head"
  = Some [ {| component := VStr (str "asset:client"); conditions := CondNull |} ]
  /\ (injected development (str "prepend-head") ∅ self).2
     = Throw (TypeError "Cannot read properties of null (reading 'bundler')").
Proof. split; vm_compute; reflexivity. Qed.

(** Resolving insertions rewrites the [when] of a registered conditions
    object from a string into an array. *)
Lemma getInjectedComponents_rewrites_conditions :
  let registered :=
    new_object no_numbers {[ str "when" := VStr (str "hmr") ]} no_insertions in
  let self :=
    register (str "prepend") (Where (VStr (str "head")))
      (VStr (str "asset:client")) registered.1 registered.2 in
  let data : gmap jsstring (value no_numbers) := {[ str "when" := VStr (str "hmr") ]} in
  let after := (injected development (str "prepend-head") data self).1.1 in
  registered.1 = CondRef 0
  /\ (objects no_numbers self !! 0%nat) ≫= (.!! str "when") = Some (VStr (str "hmr"))
  /\ (objects no_numbers after !! 0%nat) ≫= (.!! str "when")
     = Some (VArr [VStr (str "hmr")])
  /\ objects no_numbers after <> objects no_numbers self.
Proof.
  intros registered self data after.
  assert (Hbefore : (objects no_numbers self !! 0%nat) ≫= (.!! str "when")
                    = Some (VStr (str "hmr"))) by (vm_compute; reflexivity).
  assert (Hafter : (objects no_numbers after !! 0%nat) ≫= (.!! str "when")
                   = Some (VArr [VStr (str "hmr")])) by (vm_compute; reflexivity).
  repeat split; try assumption.
  intros Heq. rewrite Heq, Hbefore in Hafter. discriminate.
Qed.

Lemma jsonForHtml_script_safe_witness :
  exists out,
    json_for_html (VArr [VStr (str "</script>"); VStr (str "<!--"); VStr [8232; 8233]])
    = Normal out
    /\ includes out (str "</script>") = false
    /\ includes out (str "<!--") = false
    /\ (8232 ∉ out) /\ (8233 ∉ out).
Proof.
  eexists. split; [vm_compute; reflexivity|].
  destruct (jsonForHtml_script_safe no_numbers no_numbers_text no_numbers_bool)
    as (_ & Hsafe & _).
  edestruct (Hsafe (VArr [VStr (str "</script>"); VStr (str "<!--");
                          VStr [8232; 8233]])) as (H1 & _ & H2 & H3 & H4);
    [vm_compute; reflexivity|].
  exact (conj H1 (conj H2 (conj H3 H4))).
Defined.




Lemma renderNodes_trims_boundaries_witness :
  (render_nodes
     (Nodes [Node VUndefined VUndefined VUndefined (VStr (str "div")) VUndefined
               (Some (Nodes [Node (VStr (str " x ")) VUndefined VUndefined VUndefined
                               VUndefined None]))])).1
  = Normal (str "<div>x</div>").
Proof.
  destruct (renderNodes_trims_boundaries no_numbers no_numbers_text no_numbers_bool
              escape is_void_element) as (_ & _ & Hsole).
  rewrite Hsole by reflexivity. vm_compute. reflexivity.
Defined.

Lemma unrefreshed_strips_flag_witness :
  unrefreshed (str "/news?page=2&aposRefresh=1&sort=asc")
  = str "/news?page=2&sort=asc".
Proof.
  destruct unrefreshed_strips_flag as (_ & _ & _ & _ & _ & _ & Hlater).
  apply (Hlater (str "/news") (str "page=2") (str "&sort=asc"));
    try (apply (bool_decide_unpack _); vm_compute; exact I);
    vm_compute; reflexivity.
Defined.

Lemma getInjectedComponents_normalizes_in_place_witness :
  let registered :=
    new_object no_numbers
      {[ str "when" := VStr (str "hmr"); str "bundler" := VStr (str "vite") ]}
      no_insertions in
  let self :=
    register (str "append") (Where (VStr (str "body")))
      (VStr (str "asset:client")) registered.1 registered.2 in
  let data : gmap jsstring (value no_numbers) := {[ str "when" := VStr (str "hmr") ]} in
  let after := (injected development (str "append-body") data self).1.1 in
  default ∅ (objects no_numbers after !! 0%nat) !! str "bundler"
  = Some (VStr (str "vite"))
  /\ (injected development (str "append-body") data after).2
     = Normal [VStr (str "asset:client")].
Proof.
  intros registered self data after.
  destruct (getInjectedComponents_normalizes_in_place no_numbers no_numbers_text
              no_numbers_bool development (str "append-body") data self)
    as (_ & _ & _ & Hframe & Hsame).
  fold after in Hframe, Hsame. split.
  - rewrite Hframe by (vm_compute; discriminate). vm_compute. reflexivity.
  - destruct (Hsame development (str "append-body") data) as [-> _].
    vm_compute. reflexivity.
Defined.

(** ** The rest of the module at work *)

(** A module with one method that gives a node, and one option. *)
#[local] Abbreviation seo_module :=
  {| member_of := fun method : jsstring =>
       if jsstring_eqb method (str "headNodes")
       then Method (fun _ : request no_numbers =>
                      Normal
                        (Nodes [Node VUndefined VUndefined VUndefined (VStr (str "meta"))
                                  (VObj [(str "name", VStr (str "robots"))]) None]))
       else Absent;
     getOption_of := fun (_ : request no_numbers) (key : jsstring) (def : value no_numbers) =>
       if jsstring_eqb key (str "title:short") then VStr (str "Home") else def |}.

#[local] Abbreviation example_modules :=
  (fun name : jsstring =>
     if jsstring_eqb name (str "seo") then Some seo_module else None).

(** An engine that answers with the name of the template it is asked
    for, or with the template it is given. *)
#[local] Abbreviation echo :=
  (fun (_ : environment) (name : jsstring) (_ : render_args no_numbers) =>
     @Normal jsstring name).

#[local] Abbreviation anonymous :=
  ({| req_data := VUndefined; req_user := VUndefined; req_locale := VStr (str "en") |}
   : request no_numbers).

#[local] Abbreviation page_module :=
  ({| meta := {| name := str "page"; chain := [ {| dirname := str "/app/modules/page" |} ] |};
      templateData := VUndefined |} : apos_module no_numbers).

#[local] Abbreviation strip := striptags.
#[local] Abbreviation add_class :=
  (addBodyClass no_numbers no_numbers_text no_numbers_bool).
#[local] Abbreviation add_attribute :=
  (addBodyDataAttribute no_numbers no_numbers_text no_numbers_bool escape escape
     no_numbers_bool).
#[local] Abbreviation register_nodes :=
  (registerRuntimeNodes no_numbers no_numbers_text example_modules).
#[local] Abbreviation inject_nodes :=
  (injectNodes no_numbers no_numbers_text no_numbers_bool escape is_void_element
     example_modules).
#[local] Abbreviation inject_component :=
  (inject no_numbers no_numbers_text no_numbers_bool escape is_void_element
     example_modules).
#[local] Abbreviation render_body :=
  (renderBody no_numbers no_numbers_text no_numbers_bool no_numbers_bool join_segments
     has_opts_path echo echo).

Lemma striptags_leaves_no_tag_witness :
  strip (str "1 < 2") = str "1 < 2"
  /\ strip (strip (str "<p>Hi <b>you</b></p>")) = strip (str "<p>Hi <b>you</b></p>").
Proof.
  destruct (striptags_leaves_no_tag (str "1 < 2")) as (_ & _ & _ & Hplain).
  destruct (striptags_leaves_no_tag (str "<p>Hi <b>you</b></p>")) as (_ & Htwice & _).
  split; [|exact Htwice].
  apply Hplain. apply (bool_decide_unpack _). vm_compute. exact I.
Defined.

Lemma striptags_only_removes_witness :
  strip (str "x > y") = str "x > y"
  /\ (length (strip (str "<b>bold</b>")) + 3 <= length (str "<b>bold</b>"))%nat.
Proof.
  destruct (striptags_only_removes (str "x > y")) as (_ & _ & Hfixed & _).
  destruct (striptags_only_removes (str "<b>bold</b>")) as (_ & _ & _ & Hshorter).
  split; [apply Hfixed|apply Hshorter]; vm_compute; reflexivity.
Defined.

Lemma addBodyClass_accumulates_witness :
  read no_numbers
    (fold_left add_class [VStr (str "apos"); VStr (str "dark"); VStr (str "wide")] ∅)
    (str "aposBodyClasses")
  = VStr (str "apos dark wide").
Proof.
  assert (Hfirst : str "apos" <> []) by (vm_compute; discriminate).
  destruct (addBodyClass_accumulates no_numbers no_numbers_text no_numbers_bool ∅
              (str "apos") [str "dark"; str "wide"] Hfirst) as (_ & Hread & _).
  cbn [map] in Hread. rewrite Hread by reflexivity. vm_compute. reflexivity.
Defined.


Lemma addBodyDataAttribute_pair_witness :
  add_attribute ∅ (VObj [(str "draft", VStr [])]) VUndefined
  = ({[ str "aposBodyDataAttributes" := VStr (str " data-draft") ]}, Normal ())
  /\ add_attribute ∅ (VStr (str "draft")) (VStr []) = (∅, Normal ()).
Proof.
  destruct (addBodyDataAttribute_pair no_numbers no_numbers_text no_numbers_bool
              escape escape no_numbers_bool ∅ (str "draft") []) as [Hpair Hobject].
  split.
  - rewrite Hobject by (vm_compute; discriminate). vm_compute. reflexivity.
  - rewrite Hpair. vm_compute. reflexivity.
Defined.

Lemma registerRuntimeNodes_then_injectNodes_witness :
  exists self',
    register_nodes (str "prepend") (VStr (str "head")) (VStr (str "seo"))
      (VStr (str "headNodes")) ∅ = Returns self'
    /\ inject_nodes anonymous (str "prepend-head") self'
       = ([], Normal (str "<meta name=" ++ [dquote] ++ str "robots" ++ [dquote]
                          ++ str " />"))
    /\ inject_nodes anonymous (str "append-head") self'
       = inject_nodes anonymous (str "append-head") ∅.
Proof.
  set (self' :=
    <[str "prepend-head" := [ {| entry_moduleName := str "seo";
                                 entry_method := str "headNodes" |} ]]>
      (∅ : gmap jsstring (list runtime_entry))).
  assert (Hregister :
    register_nodes (str "prepend") (VStr (str "head")) (VStr (str "seo"))
      (VStr (str "headNodes")) ∅ = Returns self') by (vm_compute; reflexivity).
  destruct (registerRuntimeNodes_then_injectNodes no_numbers no_numbers_text
              no_numbers_bool escape is_void_element example_modules
              (str "prepend") (VStr (str "head")) (VStr (str "seo"))
              (VStr (str "headNodes")) ∅ self' anonymous Hregister)
    as [Hother (m & meth & module & Hm & Hmeth & Hmodule & Hsame)].
  exists self'. split; [exact Hregister|]. split.
  - injection Hm as <-. injection Hmeth as <-.
    vm_compute in Hmodule. injection Hmodule as <-.
    change (str "prepend-head")
      with (location_key no_numbers no_numbers_text (str "prepend") (VStr (str "head"))).
    erewrite Hsame; [|vm_compute; reflexivity..]. vm_compute. reflexivity.
  - apply Hother. vm_compute. discriminate.
Defined.

Lemma injectNodes_after_registration_witness :
  exists self' logged html,
    register_nodes (str "append") (VStr (str "body")) (VStr (str "seo"))
      (VStr (str "headNodes")) ∅ = Returns self'
    /\ inject_nodes anonymous (str "append-body") self' = (logged, Normal html).
Proof.
  set (self' :=
    <[str "append-body" := [ {| entry_moduleName := str "seo";
                                entry_method := str "headNodes" |} ]]>
      (∅ : gmap jsstring (list runtime_entry))).
  assert (Hregister :
    register_nodes (str "append") (VStr (str "body")) (VStr (str "seo"))
      (VStr (str "headNodes")) ∅ = Returns self') by (vm_compute; reflexivity).
  assert (Hcall : members_callable no_numbers example_modules).
  { intros moduleName module method Hmodule.
    destruct (jsstring_eqb moduleName (str "seo")); [|discriminate].
    injection Hmodule as <-. cbn [member_of].
    by destruct (jsstring_eqb method (str "headNodes")). }
  destruct (injectNodes_after_registration no_numbers no_numbers_text
              no_numbers_bool escape is_void_element example_modules self'
              (registered_more no_numbers no_numbers_text example_modules
                 (str "append") (VStr (str "body")) (VStr (str "seo"))
                 (VStr (str "headNodes")) ∅ self'
                 (registered_none no_numbers no_numbers_text example_modules)
                 Hregister)) as [_ Hinject].
  destruct (Hinject Hcall anonymous (str "append-body")) as [_ Hreturns].
  { apply (bool_decide_unpack _). vm_compute. exact I. }
  destruct Hreturns as (logged & html & Hrun).
  { intros entry module handler Hin Hmodule Hhandler.
    vm_compute in Hin. apply list_elem_of_singleton in Hin. subst entry.
    vm_compute in Hmodule. injection Hmodule as <-.
    vm_compute in Hhandler. injection Hhandler as <-.
    eexists. vm_compute. reflexivity. }
  exists self', logged, html. split; [exact Hregister|exact Hrun].
Defined.

Lemma prependNodes_appendNodes_apart_witness :
  exists self',
    prependNodes no_numbers no_numbers_text example_modules (VStr (str "head"))
      (VStr (str "seo")) (VStr (str "headNodes")) ∅ = Returns self'
    /\ inject_nodes anonymous (str "append-head") self' = ([], Normal []).
Proof.
  set (self' :=
    <[str "prepend-head" := [ {| entry_moduleName := str "seo";
                                 entry_method := str "headNodes" |} ]]>
      (∅ : gmap jsstring (list runtime_entry))).
  assert (Hregister :
    prependNodes no_numbers no_numbers_text example_modules (VStr (str "head"))
      (VStr (str "seo")) (VStr (str "headNodes")) ∅ = Returns self')
    by (vm_compute; reflexivity).
  destruct (prependNodes_appendNodes_apart no_numbers no_numbers_text no_numbers_bool
              escape is_void_element example_modules (VStr (str "head"))
              (VStr (str "seo")) (VStr (str "headNodes")) ∅ self' anonymous (str "head"))
    as [Hprepend _].
  exists self'. split; [exact Hregister|].
  change (str "append-head") with (str "append-" ++ str "head").
  rewrite (Hprepend Hregister). vm_compute. reflexivity.
Defined.

Lemma insert_then_getInjectedComponents_witness :
  let first :=
    register (str "prepend") (Where (VStr (str "head")))
      (VStr (str "asset:client")) CondUndefined no_insertions in
  let second :=
    register (str "prepend") (Where (VStr (str "head")))
      (VStr (str "seo:tags")) CondUndefined first in
  (injected development (str "prepend-head") ∅ second).2
  = Normal [VStr (str "asset:client"); VStr (str "seo:tags")]
  /\ (injected development (str "append-head") ∅ second).2 = Normal [].
Proof.
  intros first second.
  destruct (insert_then_getInjectedComponents no_numbers no_numbers_text no_numbers_bool
              development ∅ (str "prepend") (VStr (str "head")) (VStr (str "seo:tags"))
              first) as (Hlast & _ & Hother & _).
  fold second in Hlast, Hother. split.
  - change (str "prepend-head")
      with (location_key no_numbers no_numbers_text (str "prepend") (VStr (str "head"))).
    rewrite Hlast. vm_compute. reflexivity.
  - destruct (Hother (str "append-head")) as [Hsame _]; [vm_compute; discriminate|].
    rewrite Hsame. vm_compute. reflexivity.
Defined.

Lemma getInjectedComponents_other_bundler_witness :
  let conditions :=
    new_object no_numbers {[ str "bundler" := VStr (str "webpack") ]} no_insertions in
  let self :=
    register (str "prepend") (Where (VStr (str "head")))
      (VStr (str "asset:client")) conditions.1 conditions.2 in
  (injected development (str "prepend-head") ∅ self).2 = Normal [].
Proof.
  intros conditions self.
  destruct (getInjectedComponents_other_bundler no_numbers no_numbers_text
              no_numbers_bool development (str "prepend-head") ∅ self
              [ {| component := VStr (str "asset:client"); conditions := CondRef 0 |} ])
    as [Hnone|[message Hthrows]].
  - vm_compute. reflexivity.
  - intros entry Hin. apply list_elem_of_singleton in Hin. subst entry.
    split; vm_compute; reflexivity.
  - exact Hnone.
  - vm_compute in Hthrows. discriminate.
Defined.

Lemma getInjectedComponents_phases_must_match_witness :
  let conditions :=
    new_object no_numbers {[ str "when" := VStr (str "hmr") ]} no_insertions in
  let self :=
    register (str "prepend") (Where (VStr (str "head")))
      (VStr (str "asset:client")) conditions.1 conditions.2 in
  (injected development (str "prepend-head") {[ str "when" := VStr (str "dev") ]} self).2
  = Normal []
  /\ (injected development (str "prepend-head") ∅ self).2 = Normal [].
Proof.
  intros conditions self.
  assert (Hkey : insertions no_numbers self !! str "prepend-head"
                 = Some [ {| component := VStr (str "asset:client");
                             conditions := CondRef 0 |} ])
    by (vm_compute; reflexivity).
  split.
  - destruct (getInjectedComponents_phases_must_match no_numbers no_numbers_text
                no_numbers_bool development (str "prepend-head")
                {[ str "when" := VStr (str "dev") ]} self _ Hkey) as [Htagged _].
    destruct (Htagged (str "dev")) as [Hnone|[message Hthrows]].
    + vm_compute. reflexivity.
    + vm_compute. discriminate.
    + intros entry Hin. apply list_elem_of_singleton in Hin. subst entry.
      intros (s & Hs & Hname).
      vm_compute in Hs. apply list_elem_of_singleton in Hs. injection Hs as ->.
      vm_compute in Hname. discriminate.
    + exact Hnone.
    + vm_compute in Hthrows. discriminate.
  - destruct (getInjectedComponents_phases_must_match no_numbers no_numbers_text
                no_numbers_bool development (str "prepend-head") ∅ self _ Hkey)
      as [_ Huntagged].
    destruct Huntagged as [Hnone|[message Hthrows]].
    + vm_compute. reflexivity.
    + intros entry Hin. apply list_elem_of_singleton in Hin. subst entry.
      vm_compute. discriminate.
    + exact Hnone.
    + vm_compute in Hthrows. discriminate.
Defined.

Lemma insert_described_without_conditions_witness :
  let description : gmap jsstring (value no_numbers) :=
    <[str "component" := VStr (str "asset:client")]>
      (<[str "where" := VStr (str "head")]> ∅) in
  let self :=
    register (str "prepend") (Described description) VUndefined CondUndefined
      no_insertions in
  exists message,
    (injected development (str "prepend-head") ∅ self).2 = Throw (TypeError message).
Proof.
  intros description self.
  destruct (insert_described_without_conditions no_numbers no_numbers_text
              no_numbers_bool development ∅ (str "prepend") description VUndefined
              CondUndefined no_insertions) as [_ [message Hthrows]].
  - intros k Hcomponent Hwhere. unfold description.
    rewrite !lookup_insert_ne by done. apply lookup_empty.
  - exists message. exact Hthrows.
Defined.

Lemma inject_delivers_registrations_witness :
  let data : gmap jsstring (value no_numbers) :=
    <[str "end" := VStr (str "prepend")]> (<[str "where" := VStr (str "head")]> ∅) in
  let self :=
    register (str "prepend") (Where (VStr (str "head")))
      (VStr (str "asset:client")) CondUndefined no_insertions in
  let nodes : gmap jsstring (list runtime_entry) :=
    <[str "prepend-head" := [ {| entry_moduleName := str "seo";
                                 entry_method := str "headNodes" |} ]]> ∅ in
  (inject_component development anonymous data self nodes).2
  = Normal ([VStr (str "asset:client")],
            str "<meta name=" ++ [dquote] ++ str "robots" ++ [dquote] ++ str " />").
Proof.
  intros data self nodes.
  assert (Hend : read no_numbers data (str "end") = VStr (str "prepend"))
    by (vm_compute; reflexivity).
  assert (Hwhere : read no_numbers data (str "where") = VStr (str "head"))
    by (vm_compute; reflexivity).
  assert (Hregister :
    register_nodes (str "prepend") (VStr (str "head")) (VStr (str "seo"))
      (VStr (str "headNodes")) ∅ = Returns nodes) by (vm_compute; reflexivity).
  destruct (inject_delivers_registrations no_numbers no_numbers_text no_numbers_bool
              escape is_void_element example_modules development anonymous data
              no_insertions ∅ nodes (str "prepend") (VStr (str "head"))
              (VStr (str "asset:client")) (VStr (str "seo")) (VStr (str "headNodes"))
              Hend Hwhere Hregister)
    as [Huntagged _].
  assert (Hwhen : truthy no_numbers no_numbers_bool (read no_numbers data (str "when"))
                  = false) by (vm_compute; reflexivity).
  assert (Hbefore : (inject_component development anonymous data no_insertions ∅).2
                    = Normal ([], [])) by (vm_compute; reflexivity).
  destruct (Huntagged Hwhen [] [] Hbefore)
    as (m & meth & module & Hm & Hmeth & Hmodule & Hafter).
  injection Hm as <-. injection Hmeth as <-.
  vm_compute in Hmodule. injection Hmodule as <-.
  fold self in Hafter. erewrite Hafter by (vm_compute; reflexivity).
  vm_compute. reflexivity.
Defined.

Lemma jsonForHtml_unchanged_json_witness :
  json_for_html (VObj [(str "title", VStr (str "1 < 2"))])
  = Normal (str "{" ++ [dquote] ++ str "title" ++ [dquote] ++ str ":" ++ [dquote]
                ++ str "1 < 2" ++ [dquote] ++ str "}").
Proof.
  apply (jsonForHtml_unchanged_json no_numbers no_numbers_text no_numbers_bool).
  - vm_compute. reflexivity.
  - split; [vm_compute; reflexivity|]. split; [vm_compute; reflexivity|].
    split; apply (bool_decide_unpack _); vm_compute; exact I.
Defined.


Lemma args_getOption_names_module_witness :
  args_getOption no_numbers example_modules
    (getRenderArgs no_numbers no_numbers_bool anonymous VUndefined page_module)
    (str "seo:title:short") (VStr (str "none"))
  = Normal (VStr (str "Home")).
Proof.
  destruct (args_getOption_names_module no_numbers example_modules
              (getRenderArgs no_numbers no_numbers_bool anonymous VUndefined page_module)
              (str "seo") (str "title:short") (VStr (str "none"))) as [Hqualified _].
  change (str "seo:title:short") with (str "seo" ++ str ":" ++ str "title:short").
  rewrite Hqualified by (apply (bool_decide_unpack _); vm_compute; exact I).
  vm_compute. reflexivity.
Defined.

Lemma getEnv_loader_of_module_witness :
  exists env,
    (env_for {| viewsFolderFallback := None |} (str "/app") init page_module).1 = Some env
    /\ loader_moduleName (env_loader env) = str "page"
    /\ loader_dirs (env_loader env) = [str "/app/modules/page/views"; str "/app/views"].
Proof.
  destruct (getEnv_loader_of_module no_numbers no_numbers_text no_numbers_bool
              join_segments has_opts_path {| viewsFolderFallback := None |} (str "/app")
              init page_module (reachable_init _ _ _ _ _))
    as (Hsome & Hkey & _).
  destruct Hkey as [env Henv]; [vm_compute; reflexivity|].
  destruct (Hsome env Henv) as (_ & Hname & Hdirs & _).
  exists env. split; [exact Henv|]. split; [exact Hname|].
  rewrite Hdirs by reflexivity. vm_compute. reflexivity.
Defined.

Lemma jsonForHtml_string_read_back_witness :
  (exists body,
      json_for_html (VStr (str "<!--" ++ [8232] ++ str "</p>")) = Normal (dquote :: body)
      /\ unquote_units body = Some (str "<!--" ++ [8232] ++ str "</p>", []))
  /\ (exists body,
        json_for_html (VStr (str "a</SCRIPT>b")) = Normal (dquote :: body)
        /\ unquote_units body = Some (str "a</script>b", [])).
Proof.
  split.
  - destruct (jsonForHtml_string_read_back no_numbers no_numbers_text no_numbers_bool
                (str "<!--" ++ [8232] ++ str "</p>")) as (body & Hrun & _ & Hsame).
    exists body. split; [exact Hrun|]. apply Hsame. vm_compute. reflexivity.
  - destruct (jsonForHtml_string_read_back no_numbers no_numbers_text no_numbers_bool
                (str "a</SCRIPT>b")) as (body & Hrun & Hread & _).
    exists body. split; [exact Hrun|]. rewrite Hread. vm_compute. reflexivity.
Defined.

Lemma getInjectedComponents_one_phase_witness :
  let conditions :=
    new_object no_numbers
      (<[str "when" := VStr (str "hmr:public")]>
         (<[str "bundler" := VStr (str "vite")]> ∅))
      no_insertions in
  let self :=
    register (str "prepend") (Where (VStr (str "head")))
      (VStr (str "asset:client")) conditions.1 conditions.2 in
  (injected development (str "prepend-head") {[ str "when" := VStr (str "hmr") ]} self).2
  = Normal [VStr (str "asset:client")].
Proof.
  intros conditions self.
  refine (eq_trans
            (getInjectedComponents_one_phase no_numbers no_numbers_text no_numbers_bool
               development (str "prepend-head") {[ str "when" := VStr (str "hmr") ]} self
               {| component := VStr (str "asset:client"); conditions := CondRef 0 |} 0
               (<[str "when" := VStr (str "hmr:public")]>
                  (<[str "bundler" := VStr (str "vite")]> ∅))
               (str "hmr:public") (str "hmr") true _ _ _ _ _ _ _ _) _);
    try (vm_compute; reflexivity); try (vm_compute; discriminate).
Defined.
